(** * BrainMCP reasoning engine: a shallow embedding and its properties

    The development embeds the deterministic reasoning engine of the
    repository (task analysis, decomposition, plan construction,
    consistency checking, critic scoring, next-action selection and state
    compaction) together with the text and policy utilities they rest on,
    and proves properties of the embedded functions.

    Conventions.
    - A JavaScript string is a sequence of code units; the embedding keeps
      the code units of the Latin-1 range, [text := list ascii].
    - Counts and indices are [nat]; numbers that the source compares with
      zero or hands to [Math.max] (caps, budgets) are [Z].
    - Scores of the critic carry one decimal; they are kept in tenths.
    - [Map] and [Set] objects are [gmap] and [gset]; arrays are lists. *)

From Stdlib Require Import Ascii String ZArith Lia Permutation DecimalString DecimalNat.
From Stdlib Require Import QArith Qround Qminmax Qabs Qpower Qreduction Lqa.
From stdpp Require Import base decidable option list gmap sets strings.

Abbreviation text := (list ascii).

(** String literals of the source. *)
Definition str (s : string) : text := list_ascii_of_string s.
Arguments str s%_string.

(* ===================================================================== *)
(** ** JavaScript string primitives *)
(* ===================================================================== *)

Module Js.

Definition code (c : ascii) : nat := nat_of_ascii c.

(** [\s] of regular expressions and the white space removed by [trim]. *)
Definition isSpace (c : ascii) : bool :=
  let n := code c in
  (9 <=? n) && (n <=? 13) || (n =? 32) || (n =? 160).

(** [\w] of regular expressions: [A-Za-z0-9_]. *)
Definition isWordChar (c : ascii) : bool :=
  let n := code c in
  (65 <=? n) && (n <=? 90) || (97 <=? n) && (n <=? 122)
  || (48 <=? n) && (n <=? 57) || (n =? 95).

(** [String.prototype.toLowerCase] on one code unit. *)
Definition lowerChar (c : ascii) : ascii :=
  let n := code c in
  if (65 <=? n) && (n <=? 90) then ascii_of_nat (n + 32)
  else if (192 <=? n) && (n <=? 222) && negb (n =? 215) then ascii_of_nat (n + 32)
  else c.

(** [String.prototype.toUpperCase] on one code unit, for the characters
    whose upper case is again a single Latin-1 code unit. *)
Definition upperChar (c : ascii) : ascii :=
  let n := code c in
  if (97 <=? n) && (n <=? 122) then ascii_of_nat (n - 32)
  else if (224 <=? n) && (n <=? 254) && negb (n =? 247) then ascii_of_nat (n - 32)
  else c.

(** Case folding of the [i] flag: only ASCII letters are identified. *)
Definition foldChar (c : ascii) : ascii :=
  let n := code c in
  if (65 <=? n) && (n <=? 90) then ascii_of_nat (n + 32) else c.

Definition toLowerCase (s : text) : text := map lowerChar s.
Definition foldCase (s : text) : text := map foldChar s.

Fixpoint startsWith (p s : text) : bool :=
  match p, s with
  | [], _ => true
  | _ :: _, [] => false
  | a :: p', b :: s' => bool_decide (a = b) && startsWith p' s'
  end.

(** [s.includes(needle)]. *)
Fixpoint includes (s needle : text) : bool :=
  startsWith needle s ||
  match s with
  | [] => false
  | _ :: s' => includes s' needle
  end.

(** [s.slice(0, n)] for a non-negative integer [n]. *)
Definition slice0 (s : text) (n : nat) : text := take n s.

(** [s.split(/[...]/)] for a class [sep] of single characters. *)
Fixpoint splitOn (sep : ascii -> bool) (s : text) : list text :=
  match s with
  | [] => [[]]
  | c :: r =>
      if sep c then [] :: splitOn sep r
      else match splitOn sep r with
           | [] => [[c]]
           | h :: t => (c :: h) :: t
           end
  end.

(** [s.replace(/\s+/g, " ")]: every maximal run of white space becomes
    one space. *)
Fixpoint collapseSpaces (s : text) : text :=
  match s with
  | [] => []
  | c :: r =>
      if isSpace c then
        match r with
        | c2 :: _ => if isSpace c2 then collapseSpaces r else " "%char :: collapseSpaces r
        | [] => [" "%char]
        end
      else c :: collapseSpaces r
  end.

(** [s.split(/\s+/)]. *)
Definition splitSpaces (s : text) : list text := splitOn isSpace (collapseSpaces s).

Fixpoint trimStart (s : text) : text :=
  match s with
  | [] => []
  | c :: r => if isSpace c then trimStart r else s
  end.

Definition trimEnd (s : text) : text := rev (trimStart (rev s)).

Definition trim (s : text) : text := trimEnd (trimStart s).

(** [s.replace(/[^\w\s]/g, " ")]. *)
Definition blankPunctuation (s : text) : text :=
  map (fun c => if isWordChar c || isSpace c then c else " "%char) s.

(** [xs.join(sep)]. *)
Fixpoint join (sep : text) (xs : list text) : text :=
  match xs with
  | [] => []
  | [x] => x
  | x :: rest => x ++ sep ++ join sep rest
  end.

(** Decimal rendering of a natural number inside a template literal. *)
Definition showNat (n : nat) : text :=
  str (NilEmpty.string_of_uint (Nat.to_uint n)).

(** *** Regular expressions of the shape [\b(w1|...|wn)\b]

    An alternative is a literal together with the word-boundary
    assertions that guard it on either side. *)
Record Alt := { bBefore : bool; lit : text; bAfter : bool }.

Definition word (s : string) : Alt :=
  {| bBefore := true; lit := str s; bAfter := true |}.
Arguments word s%_string.

Definition isWordOpt (o : option ascii) : bool :=
  match o with Some c => isWordChar c | None => false end.

(** [\b] between the code units [prev] and [next]. *)
Definition boundary (prev next : option ascii) : bool :=
  xorb (isWordOpt prev) (isWordOpt next).

Definition lastOr (prev : option ascii) (w : text) : option ascii :=
  match last w with Some c => Some c | None => prev end.

Definition altMatchesAt (prev : option ascii) (s : text) (a : Alt) : bool :=
  (negb (bBefore a) || boundary prev (head s))
  && startsWith (lit a) s
  && (negb (bAfter a) || boundary (lastOr prev (lit a)) (head (drop (length (lit a)) s))).

Fixpoint testFrom (alts : list Alt) (prev : option ascii) (s : text) : bool :=
  existsb (altMatchesAt prev s) alts ||
  match s with
  | [] => false
  | c :: r => testFrom alts (Some c) r
  end.

(** [/.../.test(s)]. *)
Definition test (alts : list Alt) (s : text) : bool := testFrom alts None s.

(** [/.../i.test(s)], for alternatives written in lower case. *)
Definition testI (alts : list Alt) (s : text) : bool := test alts (foldCase s).

(** [Array.prototype.sort] with a comparator: a stable sort. *)
Fixpoint insertBy {A} (cmp : A -> A -> Z) (x : A) (l : list A) : list A :=
  match l with
  | [] => [x]
  | y :: r => if (cmp x y <=? 0)%Z then x :: l else y :: insertBy cmp x r
  end.

Definition sortBy {A} (cmp : A -> A -> Z) (l : list A) : list A :=
  foldr (insertBy cmp) [] l.

(** [new Map(entries)]: a later entry replaces an earlier one with the
    same key. *)
Definition mapOf {V} (entries : list (text * V)) : gmap text V :=
  foldl (fun m kv => <[kv.1 := kv.2]> m) ∅ entries.

(** [[...new Set(xs)]]: first occurrences, in order. *)
Fixpoint uniq (seen : list text) (xs : list text) : list text :=
  match xs with
  | [] => []
  | x :: r => if bool_decide (x ∈ seen) then uniq seen r else x :: uniq (x :: seen) r
  end.

(** An insertion-ordered [Map]: [set] on a key that is present replaces
    its value in place, a new key goes to the end. *)
Fixpoint omSet {V} (k : text) (v : V) (m : list (text * V)) : list (text * V) :=
  match m with
  | [] => [(k, v)]
  | (k', v') :: r => if decide (k' = k) then (k, v) :: r else (k', v') :: omSet k v r
  end.

Fixpoint omGet {V} (k : text) (m : list (text * V)) : option V :=
  match m with
  | [] => None
  | (k', v') :: r => if decide (k' = k) then Some v' else omGet k r
  end.

(** The default order of [sort()]: code unit by code unit. *)
Fixpoint compareText (a b : text) : Z :=
  match a, b with
  | [], [] => 0
  | [], _ :: _ => -1
  | _ :: _, [] => 1
  | x :: a', y :: b' =>
      if code x <? code y then -1
      else if code y <? code x then 1
      else compareText a' b'
  end.

End Js.

(* ===================================================================== *)
(** ** utils/truncation and utils/tokenEstimate *)
(* ===================================================================== *)

Definition truncateText (input : text) (maxChars : Z) : text :=
  if (maxChars <=? 0)%Z then []
  else if (Z.of_nat (length input) <=? maxChars)%Z then input
  else if (maxChars <=? 3)%Z then Js.slice0 input (Z.to_nat maxChars)
  else Js.slice0 input (Z.to_nat (maxChars - 3)) ++ str "...".

(** [truncateArray]: the capped items together with the flag that tells
    whether items were left out. *)
Definition truncateArray {T} (items : list T) (maxItems : Z) : list T * bool :=
  if (maxItems <? 0)%Z then ([], bool_decide (0 < length items))
  else if (Z.of_nat (length items) <=? maxItems)%Z then (items, false)
  else (take (Z.to_nat maxItems) items, true).

Definition clampNumber (value lo hi : Z) : Z := Z.min hi (Z.max lo value).

(** [Math.max(1, Math.ceil(text.length / 4))]. *)
Definition estimateTokensFromText (t : text) : nat :=
  Nat.max 1 ((length t + 3) / 4).

(* ===================================================================== *)
(** ** utils/validation: the size policy and the capping helpers *)
(* ===================================================================== *)

Inductive ClientMode := small | balanced | deep.

Record ResponsePolicy := {
  mode : ClientMode;
  maxGenericItems : Z;
  maxSubtasks : Z;
  maxFindings : Z;
  maxAlternatives : Z;
  maxDecisionEntries : Z;
  maxAssumptions : Z;
  maxRisks : Z;
  maxUnknowns : Z;
  maxSuccessCriteria : Z;
  maxActionSuggestions : Z;
  textMaxChars : Z;
  shortTextMaxChars : Z
}.

Record ClientProfile := {
  profileName : option text;
  maxContextTokens : option Z;
  profileMode : option ClientMode
}.

Definition POLICY_BY_MODE (m : ClientMode) : ResponsePolicy :=
  match m with
  | small =>
      {| mode := small; maxGenericItems := 12; maxSubtasks := 8; maxFindings := 6;
         maxAlternatives := 2; maxDecisionEntries := 20; maxAssumptions := 12;
         maxRisks := 8; maxUnknowns := 10; maxSuccessCriteria := 8;
         maxActionSuggestions := 3; textMaxChars := 240; shortTextMaxChars := 120 |}
  | balanced =>
      {| mode := balanced; maxGenericItems := 16; maxSubtasks := 12; maxFindings := 10;
         maxAlternatives := 3; maxDecisionEntries := 40; maxAssumptions := 20;
         maxRisks := 12; maxUnknowns := 12; maxSuccessCriteria := 10;
         maxActionSuggestions := 4; textMaxChars := 480; shortTextMaxChars := 200 |}
  | deep =>
      {| mode := deep; maxGenericItems := 24; maxSubtasks := 20; maxFindings := 16;
         maxAlternatives := 3; maxDecisionEntries := 80; maxAssumptions := 40;
         maxRisks := 18; maxUnknowns := 18; maxSuccessCriteria := 14;
         maxActionSuggestions := 5; textMaxChars := 900; shortTextMaxChars := 320 |}
  end.

Definition isSmallMode (m : option ClientMode) : bool :=
  match m with Some small => true | _ => false end.
Definition isDeepMode (m : option ClientMode) : bool :=
  match m with Some deep => true | _ => false end.

(** [clientProfile?.maxContextTokens ?? Infinity] and [?? 0] are spelled
    out on the option. *)
Definition resolveClientMode (clientProfile : option ClientProfile) : ClientMode :=
  let m := clientProfile ≫= profileMode in
  let t := clientProfile ≫= maxContextTokens in
  if isSmallMode m || match t with Some n => (n <=? 2000)%Z | None => false end then small
  else if isDeepMode m || match t with Some n => (16000 <=? n)%Z | None => false end then deep
  else balanced.

Definition getResponsePolicy (clientProfile : option ClientProfile) : ResponsePolicy :=
  POLICY_BY_MODE (resolveClientMode clientProfile).

Definition capItems {T} (items : list T) (maxItems : Z) : list T :=
  if (maxItems <? 0)%Z then [] else take (Z.to_nat maxItems) items.

Definition normalizeWhitespace (input : text) : text :=
  Js.trim (Js.collapseSpaces input).

Definition sanitizeText (input : text) (maxChars : Z) : text :=
  truncateText (normalizeWhitespace input) maxChars.

Definition sanitizeTextList (values : option (list text)) (maxItems maxChars : Z) : list text :=
  match values with
  | None | Some [] => []
  | Some vs =>
      capItems
        (filter (fun v => 0 < length v) (map (fun v => sanitizeText v maxChars) vs))
        maxItems
  end.

Fixpoint pickUniqueFrom (seen : list text) (values : list text) : list text :=
  match values with
  | [] => []
  | value :: rest =>
      let key := Js.toLowerCase value in
      if bool_decide (key ∈ seen) then pickUniqueFrom seen rest
      else value :: pickUniqueFrom (key :: seen) rest
  end.

Definition pickUniqueStrings (values : list text) : list text :=
  pickUniqueFrom [] values.

Inductive Level := low | medium | high.

Global Instance Level_eq_dec : EqDecision Level.
Proof. solve_decision. Defined.

(* ===================================================================== *)
(** ** reasoning/plan: the Plan Builder *)
(* ===================================================================== *)

Module Plan.

Inductive PlanStrategy := MinimumRisk | Fastest | Balanced.

Inductive StepStatus := pending | in_progress | blocked | done | skipped.

Inductive VerificationType :=
  logic_check | evidence_check | test_check | review_check | manual_check.

Global Instance PlanStrategy_eq_dec : EqDecision PlanStrategy.
Proof. solve_decision. Defined.
Global Instance StepStatus_eq_dec : EqDecision StepStatus.
Proof. solve_decision. Defined.

Record InputSubtask := {
  inId : text;
  inTitle : text;
  inDependsOn : option (list text)
}.

Record BuildPlanInput := {
  goal : text;
  subtasks : option (list InputSubtask);
  constraints : option (list text);
  strategy : option PlanStrategy;
  includeCheckpoints : option bool;
  policy : ResponsePolicy
}.

Record NormalizedSubtask := {
  id : text;
  title : text;
  dependsOn : list text
}.

Record Verification := {
  required : bool;
  verificationType : VerificationType;
  hint : text
}.

Record Step := {
  stepId : text;
  order : nat;
  stepTitle : text;
  objective : text;
  stepDependsOn : list text;
  status : StepStatus;
  verification : Verification;
  risk : Level
}.

Record Checkpoint := {
  checkpointId : text;
  afterStepId : text;
  purpose : text
}.

Record PlanSummary := {
  totalSteps : nat;
  highRiskSteps : nat;
  verificationPoints : nat
}.

Record BuildPlanOutput := {
  outStrategy : PlanStrategy;
  steps : list Step;
  checkpoints : list Checkpoint;
  planSummary : PlanSummary
}.

Definition fallbackTitles : list text :=
  [ str "Clarify acceptance criteria";
    str "Prepare execution context";
    str "Implement core solution";
    str "Verify and finalize output" ].

Definition normalizeSubtasks (goal : text) (provided : option (list InputSubtask))
    (policy : ResponsePolicy) : list NormalizedSubtask :=
  match provided with
  | Some (p :: ps) =>
      map (fun subtask =>
             {| id := inId subtask;
                title := sanitizeText (inTitle subtask) (textMaxChars policy);
                dependsOn := default [] (inDependsOn subtask) |})
          (p :: ps)
  | _ =>
      imap (fun index t =>
              {| id := str "subtask_auto_" ++ Js.showNat (index + 1);
                 title := sanitizeText t (textMaxChars policy);
                 dependsOn := if decide (index = 0) then []
                              else [str "subtask_auto_" ++ Js.showNat index] |})
           fallbackTitles
  end.

Definition inferRisk (title : text) (constraints : option (list text))
    (dependencyCount : nat) : Level :=
  let lc := Js.toLowerCase title in
  let score :=
    (if Js.test [Js.word "implement"; Js.word "migration"; Js.word "security";
                 Js.word "auth"; Js.word "deploy"; Js.word "validate"] lc
     then 2 else 0)
    + (if Js.test [Js.word "design"; Js.word "architecture"; Js.word "integration";
                   Js.word "dependency"] lc
       then 2 else 0)
    + (if decide (2 <= dependencyCount) then 1 else 0)
    + (if decide (5 <= length (default [] constraints)) then 1 else 0) in
  if decide (4 <= score) then high
  else if decide (2 <= score) then medium
  else low.

Fixpoint compressPairs (policy : ResponsePolicy) (subtasks compressed : list NormalizedSubtask)
    {struct subtasks} : list NormalizedSubtask :=
  match subtasks with
  | [] => compressed
  | [first] => compressed ++ [first]
  | first :: second :: rest =>
      compressPairs policy rest
        (compressed ++
         [ {| id := str "merged_" ++ Js.showNat (length compressed + 1);
              title := sanitizeText (title first ++ str " + " ++ title second)
                         (textMaxChars policy);
              dependsOn := Js.uniq [] (dependsOn first ++ dependsOn second) |} ])
  end.

Definition compressForFastest (subtasks : list NormalizedSubtask) (policy : ResponsePolicy)
    : list NormalizedSubtask :=
  if decide (length subtasks <= 4) then subtasks
  else compressPairs policy subtasks [].

Definition expandForRisk (subtasks : list NormalizedSubtask) (policy : ResponsePolicy)
    : list NormalizedSubtask :=
  flat_map
    (fun subtask =>
       if decide (inferRisk (title subtask) (Some []) (length (dependsOn subtask)) = low)
       then [subtask]
       else [ subtask;
              {| id := id subtask ++ str "_verify";
                 title := sanitizeText (str "Validate " ++ title subtask) (textMaxChars policy);
                 dependsOn := [id subtask] |} ])
    subtasks.

(** *** Depth-first ordering

    [visit] is a closure over the two sets and the output array; the
    embedding threads them as a state.  The recursion of the source is
    bounded by the number of ids on the current path, which the [fuel]
    argument makes explicit; [None] only means that the fuel ran out. *)
Record TopoState := {
  visited : gset text;
  visiting : gset text;
  ordered : list NormalizedSubtask
}.

Definition visitDeps (byId : gmap text NormalizedSubtask)
    (visit : text -> TopoState -> option TopoState)
    : list text -> TopoState -> option TopoState :=
  fix go (deps : list text) (st : TopoState) : option TopoState :=
    match deps with
    | [] => Some st
    | depId :: rest =>
        if decide (is_Some (byId !! depId)) then
          match visit depId st with
          | Some st' => go rest st'
          | None => None
          end
        else go rest st
    end.

Fixpoint visit (byId : gmap text NormalizedSubtask) (fuel : nat) (i : text)
    (st : TopoState) : option TopoState :=
  match fuel with
  | 0 => None
  | S fuel' =>
      if decide (i ∈ visited st) then Some st
      else if decide (i ∈ visiting st) then Some st
      else
        let st1 := {| visited := visited st;
                      visiting := {[ i ]} ∪ visiting st;
                      ordered := ordered st |} in
        match byId !! i with
        | None =>
            Some {| visited := visited st1;
                    visiting := visiting st1 ∖ {[ i ]};
                    ordered := ordered st1 |}
        | Some node =>
            match visitDeps byId (visit byId fuel') (dependsOn node) st1 with
            | None => None
            | Some st2 =>
                Some {| visited := {[ i ]} ∪ visited st2;
                        visiting := visiting st2 ∖ {[ i ]};
                        ordered := ordered st2 ++ [node] |}
            end
        end
  end.

Fixpoint visitAll (byId : gmap text NormalizedSubtask) (fuel : nat)
    (subtasks : list NormalizedSubtask) (st : TopoState) : option TopoState :=
  match subtasks with
  | [] => Some st
  | subtask :: rest =>
      match visit byId fuel (id subtask) st with
      | Some st' => visitAll byId fuel rest st'
      | None => None
      end
  end.

Definition byIdOf (subtasks : list NormalizedSubtask) : gmap text NormalizedSubtask :=
  Js.mapOf (map (fun subtask => (id subtask, subtask)) subtasks).

Definition topoInit : TopoState :=
  {| visited := ∅; visiting := ∅; ordered := [] |}.

Definition topologicalOrderFuel (fuel : nat) (subtasks : list NormalizedSubtask)
    : option (list NormalizedSubtask) :=
  ordered <$> visitAll (byIdOf subtasks) fuel subtasks topoInit.

(** The fuel [S (length subtasks)] always suffices (lemma
    [topologicalOrder_fuel] below). *)
Definition topologicalOrder (subtasks : list NormalizedSubtask) : list NormalizedSubtask :=
  default [] (topologicalOrderFuel (S (length subtasks)) subtasks).

Definition stepIdByIndex (index : nat) : text :=
  str "step_" ++ Js.showNat (index + 1).

Definition indexById (ordered : list NormalizedSubtask) : gmap text nat :=
  Js.mapOf (imap (fun index item => (id item, index)) ordered).

Definition resolveStepDependencies (originalDependencies : list text)
    (ordered : list NormalizedSubtask) (currentIndex : nat) : list text :=
  let mapped :=
    map stepIdByIndex
      (filter (fun index => index < currentIndex)
         (omap (fun dependency => indexById ordered !! dependency) originalDependencies)) in
  if decide (0 < length mapped) then mapped
  else if decide (currentIndex = 0) then []
  else [stepIdByIndex (currentIndex - 1)].

Definition inferVerificationType (title : text) (strategy : PlanStrategy) : VerificationType :=
  let lc := Js.toLowerCase title in
  if Js.test [Js.word "test"; Js.word "verify"; Js.word "regression"] lc then test_check
  else if Js.test [Js.word "review"; Js.word "analyz"; Js.word "assess"; Js.word "design"] lc
  then review_check
  else if Js.test [Js.word "evidence"; Js.word "assumption"; Js.word "dependency"] lc
  then evidence_check
  else if decide (strategy = Fastest) then manual_check
  else logic_check.

Definition verificationHint (title : text) (type : VerificationType) : text :=
  match type with
  | test_check =>
      str "Run targeted verification for '" ++ title ++ str "' and capture pass/fail evidence."
  | review_check =>
      str "Perform structured review for '" ++ title ++ str "' against constraints and goal."
  | evidence_check =>
      str "Collect objective evidence proving '" ++ title ++ str "' assumptions hold."
  | manual_check =>
      str "Perform quick manual validation for '" ++ title ++ str "' before progressing."
  | logic_check =>
      str "Validate logical consistency for '" ++ title ++ str "' and dependency completion."
  end.

Definition shouldInsert (strategy : PlanStrategy) (nSteps : nat) (step : Step) (index : nat)
    : bool :=
  match strategy with
  | MinimumRisk => bool_decide (risk step <> low) || (index mod 2 =? 1)
  | Fastest => bool_decide (index = nSteps - 1)
  | Balanced => bool_decide (risk step = high) || (index mod 3 =? 2)
  end.

Fixpoint checkpointsFrom (strategy : PlanStrategy) (policy : ResponsePolicy) (nSteps : nat)
    (index : nat) (rest : list Step) (checkpoints : list Checkpoint) : list Checkpoint :=
  match rest with
  | [] => checkpoints
  | step :: rest' =>
      if shouldInsert strategy nSteps step index then
        checkpointsFrom strategy policy nSteps (S index) rest'
          (checkpoints ++
           [ {| checkpointId := str "checkpoint_" ++ Js.showNat (length checkpoints + 1);
                afterStepId := stepId step;
                purpose :=
                  sanitizeText
                    (if decide (risk step = high)
                     then str "High-risk gate: verify assumptions and consistency."
                     else str "Progress gate: confirm readiness for next phase.")
                    (textMaxChars policy) |} ])
      else checkpointsFrom strategy policy nSteps (S index) rest' checkpoints
  end.

Definition generateCheckpoints (steps : list Step) (strategy : PlanStrategy)
    (policy : ResponsePolicy) : list Checkpoint :=
  checkpointsFrom strategy policy (length steps) 0 steps [].

Definition strategyOf (input : BuildPlanInput) : PlanStrategy :=
  default Balanced (strategy input).

(** The array [ordered] of [buildPlan]. *)
Definition orderedSubtasks (input : BuildPlanInput) : list NormalizedSubtask :=
  let baseSubtasks := normalizeSubtasks (goal input) (subtasks input) (policy input) in
  let strategySubtasks :=
    match strategyOf input with
    | Fastest => compressForFastest baseSubtasks (policy input)
    | MinimumRisk => expandForRisk baseSubtasks (policy input)
    | Balanced => baseSubtasks
    end in
  let cappedSubtasks := capItems strategySubtasks (Z.max 3 (maxSubtasks (policy input))) in
  topologicalOrder cappedSubtasks.

Definition makeStep (input : BuildPlanInput) (ordered : list NormalizedSubtask)
    (index : nat) (subtask : NormalizedSubtask) : Step :=
  let strategy := strategyOf input in
  let risk := inferRisk (title subtask) (constraints input) (length (dependsOn subtask)) in
  let verificationType := inferVerificationType (title subtask) strategy in
  let verificationRequired := bool_decide (strategy <> Fastest) || bool_decide (risk <> low) in
  {| stepId := stepIdByIndex index;
     order := index + 1;
     stepTitle := sanitizeText (title subtask) (shortTextMaxChars (policy input));
     objective :=
       sanitizeText (title subtask ++ str ". Outcome must advance goal: " ++ goal input)
         (textMaxChars (policy input));
     stepDependsOn := resolveStepDependencies (dependsOn subtask) ordered index;
     status := pending;
     verification :=
       {| required := verificationRequired;
          verificationType := verificationType;
          hint := sanitizeText (verificationHint (title subtask) verificationType)
                    (textMaxChars (policy input)) |};
     risk := risk |}.

Definition buildPlan (input : BuildPlanInput) : BuildPlanOutput :=
  let strategy := strategyOf input in
  let includeCheckpoints := default true (includeCheckpoints input) in
  let ordered := orderedSubtasks input in
  let steps := imap (makeStep input ordered) ordered in
  let checkpoints :=
    if includeCheckpoints then generateCheckpoints steps strategy (policy input) else [] in
  {| outStrategy := strategy;
     steps := steps;
     checkpoints := checkpoints;
     planSummary :=
       {| totalSteps := length steps;
          highRiskSteps := length (filter (fun step => risk step = high) steps);
          verificationPoints :=
            length (filter (fun step => required (verification step) = true) steps)
            + length checkpoints |} |}.

End Plan.

(* ===================================================================== *)
(** ** utils/ids: opaque identifiers *)
(* ===================================================================== *)

(** [randomUUID] is the only source of randomness.  A computation that
    draws identifiers is a function of the number of identifiers drawn
    so far; the [n]-th draw returns [randomUUID n] for a stream
    [randomUUID : nat -> text] that the caller of an entry point fixes. *)
Definition IdGen (A : Type) : Type := nat -> A * nat.

Global Instance IdGen_ret : MRet IdGen := fun A (a : A) n => (a, n).

Global Instance IdGen_bind : MBind IdGen :=
  fun A B (k : A -> IdGen B) (m : IdGen A) n => let (a, n') := m n in k a n'.

Definition newId (randomUUID : nat -> text) (prefix : text) : IdGen text :=
  fun n => (prefix ++ str "_" ++ randomUUID n, S n).

(** [xs.map(f)] for a callback that draws identifiers. *)
Fixpoint mapGen {A B} (f : A -> IdGen B) (xs : list A) : IdGen (list B) :=
  match xs with
  | [] => mret []
  | x :: rest => y ← f x; ys ← mapGen f rest; mret (y :: ys)
  end.

(** A value that is truthy as a string: present and not empty. *)
Definition truthy (o : option text) : bool :=
  match o with Some (_ :: _) => true | _ => false end.

(* ===================================================================== *)
(** ** reasoning/analyze: the Task Analyzer *)
(* ===================================================================== *)

Module Analyze.

Inductive TaskType := coding | debugging | architecture | planning | analysis | mixed.

Global Instance TaskType_eq_dec : EqDecision TaskType.
Proof. solve_decision. Defined.

Record Context := {
  domain : option text;
  environment : option text;
  existingPlan : option text
}.

Record AnalyzeTaskInput := {
  task : text;
  constraints : option (list text);
  context : option Context;
  policy : ResponsePolicy
}.

Record Risk := {
  riskId : text;
  riskText : text;
  severity : Level
}.

Record AnalyzeTaskOutput := {
  outTask : text;
  normalizedGoal : text;
  taskType : TaskType;
  outConstraints : list text;
  assumptionsImplicit : list text;
  unknowns : list text;
  risks : list Risk;
  successCriteria : list text;
  clarificationsNeeded : list text;
  suggestedWorkflow : list text
}.

Definition TASK_TYPE_KEYWORDS (t : TaskType) : list text :=
  match t with
  | coding =>
      [ str "implement"; str "build"; str "code"; str "endpoint"; str "refactor";
        str "typescript"; str "function"; str "server" ]
  | debugging =>
      [ str "debug"; str "bug"; str "fix"; str "error"; str "failing"; str "issue";
        str "trace"; str "investigate" ]
  | architecture =>
      [ str "architecture"; str "design"; str "system"; str "scalable"; str "modular";
        str "infrastructure"; str "component" ]
  | planning =>
      [ str "plan"; str "roadmap"; str "phase"; str "milestone"; str "schedule";
        str "sequence"; str "workflow" ]
  | analysis =>
      [ str "analyze"; str "evaluate"; str "assess"; str "compare"; str "review";
        str "research"; str "risk" ]
  | mixed => []
  end.

(** The keys of [TASK_TYPE_KEYWORDS] in insertion order. *)
Definition taskTypes : list TaskType :=
  [coding; debugging; architecture; planning; analysis; mixed].

Definition CONSTRAINT_MARKERS : list text :=
  [ str "must"; str "cannot"; str "can't"; str "only"; str "without"; str "budget";
    str "deadline"; str "required"; str "strict"; str "token"; str "limit"; str "no " ].

Definition keywordScore (lc : text) (keywords : list text) : nat :=
  foldl (fun acc keyword => acc + (if Js.includes lc keyword then 1 else 0)) 0 keywords.

Definition detectTaskType (task : text) : TaskType :=
  let lc := Js.toLowerCase task in
  let scores :=
    Js.sortBy (fun a b => (Z.of_nat (snd b) - Z.of_nat (snd a))%Z)
      (map (fun type => (type, keywordScore lc (TASK_TYPE_KEYWORDS type)))
         (filter (fun type => type <> mixed) taskTypes)) in
  match scores with
  | [] => mixed
  | best :: rest =>
      if decide (snd best = 0) then mixed
      else match rest with
           | second :: _ =>
               if decide (snd best - snd second <= 1 /\ 0 < snd second) then mixed
               else fst best
           | [] => fst best
           end
  end.

Definition isSentenceEnd (c : ascii) : bool :=
  bool_decide (c = "."%char) || bool_decide (c = "!"%char) || bool_decide (c = "?"%char).

Definition fallbackGoal (taskType : TaskType) : text :=
  match taskType with
  | coding => str "Implement a correct and maintainable solution."
  | debugging => str "Identify root cause and deliver a verified fix."
  | architecture => str "Design a robust architecture with clear tradeoffs."
  | planning => str "Build an actionable step-by-step execution plan."
  | analysis => str "Produce a structured analysis with clear recommendations."
  | mixed => str "Complete the task with verified reasoning and clear next actions."
  end.

Definition extractGoal (task : text) (taskType : TaskType) (policy : ResponsePolicy) : text :=
  let firstSentence := default task (head (Js.splitOn isSentenceEnd task)) in
  let normalized := normalizeWhitespace firstSentence in
  if decide (15 < length normalized) then sanitizeText normalized (textMaxChars policy)
  else sanitizeText (fallbackGoal taskType) (textMaxChars policy).

(** The separators of [/[.\n]/]. *)
Definition isChunkEnd (c : ascii) : bool :=
  bool_decide (c = "."%char) || (Js.code c =? 10).

Definition extractConstraints (task : text) (explicitConstraints : option (list text))
    (policy : ResponsePolicy) : list text :=
  let discovered :=
    filter
      (fun chunk =>
         0 < length chunk
         /\ existsb (fun marker => Js.includes (Js.toLowerCase chunk) marker)
              CONSTRAINT_MARKERS = true)
      (map normalizeWhitespace (Js.splitOn isChunkEnd task)) in
  let merged :=
    map (fun value => sanitizeText value (textMaxChars policy))
      (pickUniqueStrings (default [] explicitConstraints ++ discovered)) in
  capItems merged (maxGenericItems policy).

Definition when (b : bool) (x : text) : list text := if b then [x] else [].

Definition extractUnknowns (task : text) (taskType : TaskType) (context : option Context)
    (policy : ResponsePolicy) : list text :=
  let unknowns :=
    when (negb (truthy (context ≫= environment)))
      (str "Target environment details are missing.")
    ++ when (negb (truthy (context ≫= domain))
             && (bool_decide (taskType = architecture) || bool_decide (taskType = analysis)))
         (str "Domain-specific requirements are not provided.")
    ++ when (negb (truthy (context ≫= existingPlan))
             && (bool_decide (taskType = planning) || bool_decide (taskType = mixed)))
         (str "No baseline plan was provided.")
    ++ when (Js.includes task (str "?")) (str "Task contains unresolved questions.")
    ++ when (Js.testI [Js.word "tbd"; Js.word "tba"; Js.word "unknown"; Js.word "unspecified"]
               task)
         (str "Task includes unresolved placeholders.")
    ++ when (negb (Js.testI [Js.word "success"; Js.word "acceptance"; Js.word "done";
                             Js.word "definition of done"] task))
         (str "Explicit acceptance criteria are not stated.") in
  capItems
    (map (fun value => sanitizeText value (textMaxChars policy)) (pickUniqueStrings unknowns))
    (maxUnknowns policy).

Definition extractImplicitAssumptions (task : text) (taskType : TaskType)
    (context : option Context) (policy : ResponsePolicy) : list text :=
  let lc := Js.toLowerCase task in
  let assumptions :=
    when (negb (truthy (context ≫= environment)))
      (str "Execution environment has required runtime and dependencies.")
    ++ when (Js.includes lc (str "docker"))
         (str "Container runtime is available and image builds are permitted.")
    ++ when (Js.includes lc (str "mcp"))
         (str "MCP clients support Streamable HTTP and tool schemas used.")
    ++ when (Js.includes lc (str "sqlite"))
         (str "SQLite file path is writable and persistent across restarts.")
    ++ when (bool_decide (taskType = debugging))
         (str "Observed issue can be reproduced consistently.")
    ++ when (bool_decide (taskType = coding))
         (str "Existing codebase conventions should be preserved.") in
  capItems
    (map (fun value => sanitizeText value (textMaxChars policy))
       (pickUniqueStrings assumptions))
    (maxGenericItems policy).

Definition levelText (l : Level) : text :=
  match l with low => str "low" | medium => str "medium" | high => str "high" end.

(** The severity read back from the first field of a [severity|text]
    key; the keys are built from the three level names. *)
Definition levelOfText (t : text) : Level :=
  if decide (t = str "high") then high
  else if decide (t = str "medium") then medium
  else low.

Definition isBar (c : ascii) : bool := bool_decide (c = "|"%char).

Definition whenRisk (b : bool) (t : text) (s : Level) : list (text * Level) :=
  if b then [(t, s)] else [].

Definition riskItemsOf (task : text) (constraints unknowns assumptions : list text)
    : list (text * Level) :=
  let lc := Js.toLowerCase task in
  let riskItems :=
    whenRisk (bool_decide (1800 < length task))
      (str "Task scope is large and may require phased execution.") high
    ++ whenRisk (bool_decide (4 <= length unknowns))
         (str "High uncertainty due to missing task details.") high
    ++ whenRisk (bool_decide (5 <= length constraints))
         (str "Many constraints increase risk of conflicting requirements.") medium
    ++ whenRisk (bool_decide (4 <= length assumptions))
         (str "Execution depends on multiple unverified assumptions.") medium
    ++ whenRisk (Js.testI [Js.word "production"; Js.word "security"; Js.word "auth";
                           Js.word "migration"; Js.word "payment"] lc)
         (str "Task appears high-impact and requires stricter validation gates.") high
    ++ whenRisk (Js.testI [Js.word "deadline"; Js.word "urgent"; Js.word "asap";
                           Js.word "quickly"] lc)
         (str "Time pressure may reduce verification depth and increase defects.") medium in
  match riskItems with
  | [] => [(str "No critical risks detected from current input.", low)]
  | _ => riskItems
  end.

Section WithIds.

Variable randomUUID : nat -> text.

Definition extractRisks (task : text) (constraints unknowns assumptions : list text)
    (policy : ResponsePolicy) : IdGen (list Risk) :=
  let riskItems := riskItemsOf task constraints unknowns assumptions in
  rs ← mapGen
         (fun value =>
            let parts := Js.splitOn isBar value in
            let severityRaw := default [] (parts !! 0) in
            let text := parts !! 1 in
            i ← newId randomUUID (str "risk");
            mret {| riskId := i;
                    riskText := sanitizeText (default [] text) (textMaxChars policy);
                    severity := levelOfText severityRaw |})
         (pickUniqueStrings
            (map (fun item => levelText (snd item) ++ str "|" ++ fst item) riskItems));
  mret (capItems rs (maxRisks policy)).

Definition successCriteriaByType (taskType : TaskType) (policy : ResponsePolicy) : list text :=
  let criteria :=
    match taskType with
    | coding =>
        [ str "Implementation is complete and aligned with requirements.";
          str "Changes are logically validated and externally testable.";
          str "Outputs and interfaces remain stable and deterministic." ]
    | debugging =>
        [ str "Root cause is identified and documented.";
          str "Fix addresses the root cause without regressions.";
          str "Verification evidence confirms issue is resolved." ]
    | architecture =>
        [ str "Architecture decisions cover constraints and dependencies.";
          str "Tradeoffs and risks are explicitly documented.";
          str "Plan is decomposed into executable, verifiable steps." ]
    | planning =>
        [ str "Plan has clear sequencing, dependencies, and checkpoints.";
          str "High-risk areas include explicit verification gates.";
          str "Next actions are unambiguous and immediately executable." ]
    | analysis =>
        [ str "Conclusions are consistent with stated evidence and assumptions.";
          str "Key risks and unknowns are explicitly tracked.";
          str "Recommendations are actionable and prioritized." ]
    | mixed =>
        [ str "Task is decomposed into clear subtasks and dependencies.";
          str "Assumptions and risks are tracked and reviewed.";
          str "Next best action is selected with clear rationale." ]
    end in
  capItems (map (fun item => sanitizeText item (textMaxChars policy)) criteria)
    (maxSuccessCriteria policy).

Definition workflowByType (taskType : TaskType) : list text :=
  let base := [ str "decompose_task"; str "build_plan"; str "list_assumptions";
                str "consistency_check" ] in
  if decide (taskType = debugging) then base ++ [str "critic_review"; str "next_best_action"]
  else if decide (taskType = planning \/ taskType = architecture)
  then base ++ [str "critic_review"; str "compact_reasoning_state"]
  else base ++ [str "next_best_action"].

Definition analyzeTask (input : AnalyzeTaskInput) : IdGen AnalyzeTaskOutput :=
  let normalizedTask := normalizeWhitespace (task input) in
  let taskType := detectTaskType normalizedTask in
  let goal := extractGoal normalizedTask taskType (policy input) in
  let constraints := extractConstraints normalizedTask (constraints input) (policy input) in
  let unknowns := extractUnknowns normalizedTask taskType (context input) (policy input) in
  let assumptionsImplicit :=
    extractImplicitAssumptions normalizedTask taskType (context input) (policy input) in
  risks ← extractRisks normalizedTask constraints unknowns assumptionsImplicit (policy input);
  let successCriteria := successCriteriaByType taskType (policy input) in
  let clarificationsNeeded :=
    capItems (map (fun unknown => str "Clarify: " ++ unknown) unknowns)
      (maxGenericItems (policy input)) in
  mret {| outTask := sanitizeText normalizedTask (textMaxChars (policy input));
          normalizedGoal := goal;
          taskType := taskType;
          outConstraints := constraints;
          assumptionsImplicit := assumptionsImplicit;
          unknowns := unknowns;
          risks := risks;
          successCriteria := successCriteria;
          clarificationsNeeded := clarificationsNeeded;
          suggestedWorkflow := workflowByType taskType |}.

End WithIds.

End Analyze.

(* ===================================================================== *)
(** ** reasoning/decompose: the Decomposer *)
(* ===================================================================== *)

Module Decompose.

Inductive DecompositionMode := linear | tree | milestone.

Global Instance DecompositionMode_eq_dec : EqDecision DecompositionMode.
Proof. solve_decision. Defined.

Record DecomposeTaskInput := {
  task : text;
  goal : option text;
  constraints : option (list text);
  mode : option DecompositionMode;
  policy : ResponsePolicy
}.

Record Subtask := {
  id : text;
  title : text;
  description : text;
  dependsOn : list text;
  complexity : Level;
  risk : Level;
  verificationHint : option text
}.

Record DecomposeTaskOutput := {
  decompositionMode : DecompositionMode;
  subtasks : list Subtask;
  criticalPath : list text;
  parallelizableGroups : list (list text)
}.

Record TemplateSubtask := {
  tplTitle : text;
  tplDescription : text;
  tplComplexity : Level;
  tplRisk : Level;
  tplVerificationHint : option text
}.

Definition TEMPLATES (t : Analyze.TaskType) : list TemplateSubtask :=
  match t with
  | Analyze.coding =>
    [
    {| tplTitle := str "Clarify implementation scope";
       tplDescription := str "Lock requirements, interfaces, and acceptance conditions.";
       tplComplexity := medium; tplRisk := medium;
       tplVerificationHint := Some (str "Check requirement coverage before coding.") |};
    {| tplTitle := str "Map existing system boundaries";
       tplDescription := str "Identify modules, dependencies, and integration points to avoid regressions.";
       tplComplexity := medium; tplRisk := medium;
       tplVerificationHint := Some (str "List impacted files/components and dependency edges.") |};
    {| tplTitle := str "Design deterministic solution";
       tplDescription := str "Define architecture and failure handling before implementation.";
       tplComplexity := high; tplRisk := high;
       tplVerificationHint := Some (str "Review design against constraints and edge cases.") |};
    {| tplTitle := str "Implement incremental changes";
       tplDescription := str "Deliver scoped updates in small verifiable increments.";
       tplComplexity := high; tplRisk := high;
       tplVerificationHint := Some (str "Each increment should map to a planned verification.") |};
    {| tplTitle := str "Run verification workflow";
       tplDescription := str "Validate behavior with logic checks and external test tooling.";
       tplComplexity := medium; tplRisk := high;
       tplVerificationHint := Some (str "Capture evidence of pass/fail outcomes.") |};
    {| tplTitle := str "Document outcomes and next actions";
       tplDescription := str "Summarize decisions, known risks, and follow-up work.";
       tplComplexity := low; tplRisk := low;
       tplVerificationHint := Some (str "Ensure unresolved risks are tracked in decision log.") |} ]
  | Analyze.debugging =>
    [
    {| tplTitle := str "Define failure signature";
       tplDescription := str "Capture reproducible symptoms and expected behavior mismatch.";
       tplComplexity := medium; tplRisk := medium;
       tplVerificationHint := Some (str "Write reproducibility checklist.") |};
    {| tplTitle := str "Collect diagnostic evidence";
       tplDescription := str "Gather logs, traces, and state transitions around failure path.";
       tplComplexity := medium; tplRisk := medium;
       tplVerificationHint := Some (str "Evidence should isolate at least one suspect layer.") |};
    {| tplTitle := str "Identify root cause";
       tplDescription := str "Validate causal chain from trigger to observed failure.";
       tplComplexity := high; tplRisk := high;
       tplVerificationHint := Some (str "Link every claim to evidence.") |};
    {| tplTitle := str "Implement fix with safeguards";
       tplDescription := str "Apply minimal change that resolves root cause and limits regressions.";
       tplComplexity := high; tplRisk := high;
       tplVerificationHint := Some (str "Include regression guard or verification checks.") |};
    {| tplTitle := str "Verify fix and regressions";
       tplDescription := str "Confirm original issue resolved and nearby flows remain stable.";
       tplComplexity := medium; tplRisk := high;
       tplVerificationHint := Some (str "Run targeted verification scenarios.") |} ]
  | Analyze.architecture =>
    [
    {| tplTitle := str "Define architecture goals";
       tplDescription := str "Align quality attributes, constraints, and non-goals.";
       tplComplexity := medium; tplRisk := medium;
       tplVerificationHint := None |};
    {| tplTitle := str "Model solution components";
       tplDescription := str "Describe modules, boundaries, and data/control flow.";
       tplComplexity := high; tplRisk := high;
       tplVerificationHint := None |};
    {| tplTitle := str "Analyze tradeoffs and risks";
       tplDescription := str "Evaluate alternatives, failure modes, and operational concerns.";
       tplComplexity := high; tplRisk := high;
       tplVerificationHint := None |};
    {| tplTitle := str "Define rollout and verification plan";
       tplDescription := str "Convert architecture into milestones and validation checkpoints.";
       tplComplexity := medium; tplRisk := medium;
       tplVerificationHint := None |} ]
  | Analyze.planning =>
    [
    {| tplTitle := str "Scope objective and boundaries";
       tplDescription := str "Clarify what is in and out of scope.";
       tplComplexity := low; tplRisk := medium;
       tplVerificationHint := None |};
    {| tplTitle := str "Break work into milestones";
       tplDescription := str "Create executable milestones with explicit dependencies.";
       tplComplexity := medium; tplRisk := medium;
       tplVerificationHint := None |};
    {| tplTitle := str "Assign verification checkpoints";
       tplDescription := str "Add gates to detect risk early and avoid late surprises.";
       tplComplexity := medium; tplRisk := medium;
       tplVerificationHint := None |};
    {| tplTitle := str "Define monitoring and fallback";
       tplDescription := str "Track progress and fallback paths for blocked milestones.";
       tplComplexity := medium; tplRisk := high;
       tplVerificationHint := None |} ]
  | Analyze.analysis =>
    [
    {| tplTitle := str "Collect relevant inputs";
       tplDescription := str "Identify datasets, assumptions, and context needed for analysis.";
       tplComplexity := medium; tplRisk := medium;
       tplVerificationHint := None |};
    {| tplTitle := str "Evaluate competing explanations";
       tplDescription := str "Compare candidate interpretations and eliminate weak options.";
       tplComplexity := high; tplRisk := medium;
       tplVerificationHint := None |};
    {| tplTitle := str "Assess risk and confidence";
       tplDescription := str "Classify confidence levels and residual uncertainty.";
       tplComplexity := medium; tplRisk := high;
       tplVerificationHint := None |};
    {| tplTitle := str "Produce recommendations";
       tplDescription := str "Translate findings into prioritized actions and verification needs.";
       tplComplexity := medium; tplRisk := medium;
       tplVerificationHint := None |} ]
  | Analyze.mixed =>
    [
    {| tplTitle := str "Clarify objective and inputs";
       tplDescription := str "Establish goal, context, and explicit constraints.";
       tplComplexity := medium; tplRisk := medium;
       tplVerificationHint := None |};
    {| tplTitle := str "Decompose into executable tracks";
       tplDescription := str "Split work into analysis, implementation, and validation tracks.";
       tplComplexity := high; tplRisk := high;
       tplVerificationHint := None |};
    {| tplTitle := str "Sequence dependencies";
       tplDescription := str "Order tracks to reduce blockers and rework risk.";
       tplComplexity := medium; tplRisk := medium;
       tplVerificationHint := None |};
    {| tplTitle := str "Validate and consolidate outputs";
       tplDescription := str "Run quality checks and merge into final actionable state.";
       tplComplexity := medium; tplRisk := high;
       tplVerificationHint := None |} ]
  end.

Definition constraintCheck : TemplateSubtask :=
  {| tplTitle := str "Validate constraint satisfaction";
     tplDescription := str "Ensure all hard constraints are mapped to specific deliverables.";
     tplComplexity := medium; tplRisk := high;
     tplVerificationHint := Some (str "Create explicit constraint-to-step matrix.") |}.

(** [template.splice(template.length - 1, 0, item)]. *)
Definition spliceBeforeLast {A} (template : list A) (item : A) : list A :=
  take (length template - 1) template ++ [item] ++ drop (length template - 1) template.

Definition withDependsOn (s : Subtask) (deps : list text) : Subtask :=
  {| id := id s; title := title s; description := description s; dependsOn := deps;
     complexity := complexity s; risk := risk s; verificationHint := verificationHint s |}.

(** [[subtasks[j].id]]; every index the source uses is in range. *)
Definition idAt (subtasks : list Subtask) (j : nat) : list text :=
  match subtasks !! j with Some s => [id s] | None => [] end.

(** The source assigns [dependsOn] in place; the ids it reads are never
    assigned, so the update is a map over the positions. *)
Definition applyDependencies (subtasks : list Subtask) (mode : DecompositionMode)
    : list Subtask :=
  let n := length subtasks in
  if decide (n = 0) then subtasks
  else if decide (mode = linear \/ n <= 2) then
    imap (fun i s => if decide (1 <= i) then withDependsOn s (idAt subtasks (i - 1)) else s)
      subtasks
  else if decide (mode = tree) then
    imap (fun i s =>
            if decide (i = n - 1)
            then withDependsOn s (map id (drop 1 (take (n - 1) subtasks)))
            else if decide (1 <= i) then withDependsOn s (idAt subtasks 0)
            else s)
      subtasks
  else
    imap (fun i s =>
            if decide (1 <= i) then
              if decide (i mod 2 = 0) then withDependsOn s (idAt subtasks (i - 1))
              else withDependsOn s (idAt subtasks (i - 2))
            else s)
      subtasks.

Definition byLengthDesc (a b : list text) : Z :=
  (Z.of_nat (length b) - Z.of_nat (length a))%Z.

(** The loop that fills [bestPathById]. *)
Definition bestPaths (subtasks : list Subtask) : list (text * list text) :=
  foldl
    (fun bestPathById subtask =>
       let predecessorPaths :=
         omap (fun depId => Js.omGet depId bestPathById) (dependsOn subtask) in
       let bestPredecessor := default [] (head (Js.sortBy byLengthDesc predecessorPaths)) in
       Js.omSet (id subtask) (bestPredecessor ++ [id subtask]) bestPathById)
    [] subtasks.

Definition indexById (subtasks : list Subtask) : gmap text nat :=
  Js.mapOf (imap (fun index subtask => (id subtask, index)) subtasks).

(** [indexById.get(a[a.length - 1] ?? "") ?? 0]. *)
Definition lastIndex (subtasks : list Subtask) (a : list text) : nat :=
  default 0 (indexById subtasks !! default [] (last a)).

Definition comparePaths (subtasks : list Subtask) (a b : list text) : Z :=
  if decide (length b <> length a) then (Z.of_nat (length b) - Z.of_nat (length a))%Z
  else (Z.of_nat (lastIndex subtasks a) - Z.of_nat (lastIndex subtasks b))%Z.

Definition computeCriticalPath (subtasks : list Subtask) : list text :=
  match subtasks with
  | [] => []
  | _ =>
      let allPaths := Js.sortBy (comparePaths subtasks) (map snd (bestPaths subtasks)) in
      default (map id subtasks) (head allPaths)
  end.

Definition computeParallelGroups (subtasks : list Subtask) : list (list text) :=
  let groups :=
    foldl
      (fun groups subtask =>
         let key := Js.join (str "|") (Js.sortBy Js.compareText (dependsOn subtask)) in
         let list := default [] (Js.omGet key groups) in
         Js.omSet key (list ++ [id subtask]) groups)
      [] subtasks in
  filter (fun group => 1 < length group) (map snd groups).

Definition modeOf (input : DecomposeTaskInput) : DecompositionMode :=
  default linear (mode input).

(** The array [subtasks] of [decomposeTask] after [applyDependencies]. *)
Definition subtasksOf (input : DecomposeTaskInput) : list Subtask :=
  let taskType := Analyze.detectTaskType (task input) in
  let template :=
    if decide (4 <= length (default [] (constraints input)))
    then spliceBeforeLast (TEMPLATES taskType) constraintCheck
    else TEMPLATES taskType in
  let capped := capItems template (maxSubtasks (policy input)) in
  let subtasks :=
    imap (fun index item =>
            {| id := str "subtask_" ++ Js.showNat (index + 1);
               title := sanitizeText (tplTitle item) (shortTextMaxChars (policy input));
               description := sanitizeText (tplDescription item) (textMaxChars (policy input));
               dependsOn := [];
               complexity := tplComplexity item;
               risk := tplRisk item;
               verificationHint :=
                 if truthy (tplVerificationHint item)
                 then Some (sanitizeText (default [] (tplVerificationHint item))
                              (textMaxChars (policy input)))
                 else None |})
         capped in
  applyDependencies subtasks (modeOf input).

Definition decomposeTask (input : DecomposeTaskInput) : DecomposeTaskOutput :=
  let subtasks := subtasksOf input in
  {| decompositionMode := modeOf input;
     subtasks := subtasks;
     criticalPath := computeCriticalPath subtasks;
     parallelizableGroups := computeParallelGroups subtasks |}.

End Decompose.

(* ===================================================================== *)
(** ** storage/repositories: the records the engine reads *)
(* ===================================================================== *)

Module Storage.

Inductive AssumptionType := explicit | implicit.

Inductive AssumptionCategory :=
  technical | environmentCategory | data | dependency | process | user_intent.

Inductive AssumptionStatus := verified | unverified | risky | contradicted.

Inductive DecisionLogKind := decision | observation | riskKind | checkpoint | result | note.

Global Instance AssumptionStatus_eq_dec : EqDecision AssumptionStatus.
Proof. solve_decision. Defined.
Global Instance DecisionLogKind_eq_dec : EqDecision DecisionLogKind.
Proof. solve_decision. Defined.

Record PlanStepRecord := {
  stepId : text;
  planId : text;
  stepSessionId : text;
  orderIndex : nat;
  title : text;
  objective : text;
  dependsOn : list text;
  status : Plan.StepStatus;
  verification : Plan.Verification;
  risk : Level;
  stepNote : option text;
  stepUpdatedAt : text
}.

Record AssumptionRecord := {
  assumptionId : text;
  assumptionSessionId : text;
  assumptionText : text;
  normalizedHash : text;
  assumptionType : AssumptionType;
  category : AssumptionCategory;
  assumptionStatus : AssumptionStatus;
  assumptionRisk : Level;
  evidenceNeeded : option (list text);
  confidence : option Level;
  assumptionUpdatedAt : text
}.

Record DecisionLogDetails := {
  rationale : option text;
  evidence : option (list text);
  impact : option text;
  relatedStepIds : option (list text);
  relatedAssumptionIds : option (list text)
}.

Record DecisionLogRecord := {
  logId : text;
  logSessionId : text;
  kind : DecisionLogKind;
  summary : text;
  details : option DecisionLogDetails;
  importance : Level;
  timestamp : text
}.

Definition kindText (k : DecisionLogKind) : text :=
  match k with
  | decision => str "decision"
  | observation => str "observation"
  | riskKind => str "risk"
  | checkpoint => str "checkpoint"
  | result => str "result"
  | note => str "note"
  end.

End Storage.

(* ===================================================================== *)
(** ** reasoning/compact: the State Compactor *)
(* ===================================================================== *)

Module Compact.

Inductive CompactSection :=
  goalSection | constraintsSection | open_risks | assumptionsSection
  | current_plan | recent_results | decisions.

Definition sectionKey (s : CompactSection) : text :=
  match s with
  | goalSection => str "goal"
  | constraintsSection => str "constraints"
  | open_risks => str "open-risks"
  | assumptionsSection => str "assumptions"
  | current_plan => str "current-plan"
  | recent_results => str "recent-results"
  | decisions => str "decisions"
  end.

Record CompactStateInput := {
  targetTokens : option Z;
  preserve : option (list CompactSection);
  goal : option text;
  constraints : option (list text);
  planSteps : list Storage.PlanStepRecord;
  assumptions : list Storage.AssumptionRecord;
  decisionLogs : list Storage.DecisionLogRecord;
  policy : ResponsePolicy
}.

Record CompactStateOutput := {
  compactState : text;
  beforeEstimatedTokens : nat;
  afterEstimatedTokens : nat;
  preservedSections : list text;
  droppedOrCompressedSections : list text
}.

Record SectionState := {
  key : text;
  label : text;
  text_ : text;
  priority : nat
}.

Definition withText (s : SectionState) (t : text) : SectionState :=
  {| key := key s; label := label s; text_ := t; priority := priority s |}.

Definition resolveTargetTokens (targetTokens : option Z) (policy : ResponsePolicy) : Z :=
  match targetTokens with
  | Some t => t
  | None =>
      match mode policy with
      | small => 300
      | deep => 1400
      | balanced => 700
      end
  end.

Definition line (value : text) : text := Js.trim (Js.collapseSpaces value).

Definition lines (values : list text) (cap : Z) : text :=
  let sliced := capItems (filter (fun value => 0 < length value) (map line values)) cap in
  match sliced with
  | [] => str "none"
  | _ => Js.join (str " ; ") sliced
  end.

Definition countStatus (s : Plan.StepStatus) (steps : list Storage.PlanStepRecord) : nat :=
  length (filter (fun step => Storage.status step = s) steps).

Definition summarizePlanStatus (steps : list Storage.PlanStepRecord) : text :=
  str "pending=" ++ Js.showNat (countStatus Plan.pending steps)
  ++ str ", in_progress=" ++ Js.showNat (countStatus Plan.in_progress steps)
  ++ str ", blocked=" ++ Js.showNat (countStatus Plan.blocked steps)
  ++ str ", done=" ++ Js.showNat (countStatus Plan.done steps)
  ++ str ", skipped=" ++ Js.showNat (countStatus Plan.skipped steps).

Definition buildSections (input : CompactStateInput) : list SectionState :=
  let decisionLogs := decisionLogs input in
  let openRisks :=
    map Storage.summary (filter (fun log => Storage.kind log = Storage.riskKind) decisionLogs)
    ++ map Storage.assumptionText
         (filter (fun item => Storage.assumptionStatus item = Storage.risky
                              \/ Storage.assumptionStatus item = Storage.contradicted)
            (assumptions input)) in
  let verifiedCount :=
    length (filter (fun item => Storage.assumptionStatus item = Storage.verified)
              (assumptions input)) in
  let unverifiedCount := length (assumptions input) - verifiedCount in
  let nextPendingStep :=
    head (filter (fun step => Storage.status step = Plan.pending) (planSteps input)) in
  let nextImmediateActions :=
    match nextPendingStep with
    | Some step => [str "Execute " ++ Storage.stepId step ++ str ": " ++ Storage.title step]
    | None => [str "Run next_best_action to determine follow-up."]
    end in
  let currentPlanStatus := summarizePlanStatus (planSteps input) in
  let recentResults :=
    map Storage.summary
      (take 5 (filter (fun log => Storage.kind log = Storage.result) decisionLogs)) in
  let recentDecisions :=
    map (fun log => Storage.kindText (Storage.kind log) ++ str ":" ++ Storage.summary log)
      (take 6 (filter (fun log => Storage.kind log = Storage.decision
                                  \/ Storage.kind log = Storage.checkpoint)
                 decisionLogs)) in
  [ {| key := str "goal"; label := str "Goal";
       text_ := if truthy (goal input) then line (default [] (goal input)) else line (str "N/A");
       priority := 1 |};
    {| key := str "constraints"; label := str "Constraints";
       text_ := lines (default [] (constraints input)) 6; priority := 2 |};
    {| key := str "current-plan"; label := str "Current Plan Status";
       text_ := lines [currentPlanStatus] 1; priority := 1 |};
    {| key := str "open-risks"; label := str "Open Risks";
       text_ := lines openRisks 6; priority := 2 |};
    {| key := str "assumptions"; label := str "Verified/Unverified Assumptions";
       text_ := lines [ str "verified=" ++ Js.showNat verifiedCount;
                        str "unverified=" ++ Js.showNat unverifiedCount ] 2;
       priority := 2 |};
    {| key := str "recent-results"; label := str "Last Results";
       text_ := lines recentResults 4; priority := 3 |};
    {| key := str "decisions"; label := str "Decisions";
       text_ := lines recentDecisions 4; priority := 3 |};
    {| key := str "next-actions"; label := str "Next Immediate Actions";
       text_ := lines nextImmediateActions 3; priority := 1 |} ].

Definition pickCompressibleSection (sections : list SectionState) (preserve : list text)
    : option SectionState :=
  head
    (Js.sortBy (fun a b => (Z.of_nat (length (text_ b)) - Z.of_nat (length (text_ a)))%Z)
       (filter (fun section => key section ∉ preserve \/ 140 < length (text_ section))
          (filter (fun section => 80 < length (text_ section)) sections))).

(** [b.priority - a.priority || b.text.length - a.text.length]. *)
Definition byPriorityThenLength (a b : SectionState) : Z :=
  if decide (priority b <> priority a)
  then (Z.of_nat (priority b) - Z.of_nat (priority a))%Z
  else (Z.of_nat (length (text_ b)) - Z.of_nat (length (text_ a)))%Z.

Definition pickDroppableSection (sections : list SectionState) (preserve : list text)
    : option SectionState :=
  head
    (Js.sortBy byPriorityThenLength
       (filter (fun section => (key section ∉ preserve) /\ key section <> str "next-actions")
          (filter (fun section => 0 < length (text_ section)) sections))).

(** [Math.max(60, Math.floor(text.length * 0.78))]. *)
Definition trimmedLength (n : nat) : nat := Nat.max 60 (n * 78 / 100).

Definition trimSectionText (t : text) : text :=
  if decide (length t <= 80) then t
  else Js.slice0 t (trimmedLength (length t)) ++ str "...".

Definition sectionsToText (sections : list SectionState) : text :=
  Js.join (str " | ")
    (map (fun section => label section ++ str ": " ++ text_ section)
       (filter (fun section => 0 < length (text_ section)) sections)).

(** [working.findIndex((item) => item.key === k)]. *)
Fixpoint findIndex (k : text) (working : list SectionState) : option nat :=
  match working with
  | [] => None
  | item :: rest => if decide (key item = k) then Some 0 else S <$> findIndex k rest
  end.

(** [working[index] = section]; for a key that is not found the source
    stores under the index [-1], which changes no element. *)
Definition store (working : list SectionState) (index : option nat) (section : SectionState)
    : list SectionState :=
  match index with
  | Some i => <[i := section]> working
  | None => working
  end.

(** [set.add(k)] on an insertion-ordered [Set]. *)
Definition setAdd (k : text) (s : list text) : list text :=
  if decide (k ∈ s) then s else s ++ [k].

Record LoopState := {
  working : list SectionState;
  droppedOrCompressed : list text;
  targetChars : Z
}.

(** The [while] loop.  [fuel] bounds the number of iterations; [None]
    only means that the fuel ran out. *)
Fixpoint compactLoop (fuel : nat) (preserve : list text) (st : LoopState) : option LoopState :=
  match fuel with
  | 0 => None
  | S fuel' =>
      if decide (Z.of_nat (length (sectionsToText (working st))) <= targetChars st)%Z
      then Some st
      else
        match pickCompressibleSection (working st) preserve with
        | Some compressible =>
            let index := findIndex (key compressible) (working st) in
            let trimmed := trimSectionText (text_ compressible) in
            compactLoop fuel' preserve
              {| working := store (working st) index (withText compressible trimmed);
                 droppedOrCompressed := setAdd (key compressible) (droppedOrCompressed st);
                 targetChars := targetChars st |}
        | None =>
            match pickDroppableSection (working st) preserve with
            | None =>
                Some {| working := working st;
                        droppedOrCompressed := droppedOrCompressed st;
                        targetChars := (targetChars st * 11 / 10)%Z |}
            | Some droppable =>
                let index := findIndex (key droppable) (working st) in
                compactLoop fuel' preserve
                  {| working := store (working st) index (withText droppable []);
                     droppedOrCompressed := setAdd (key droppable) (droppedOrCompressed st);
                     targetChars := targetChars st |}
            end
        end
  end.

(** The number of characters the loop can still remove. *)
Definition totalText (sections : list SectionState) : nat :=
  foldr (fun section acc => length (text_ section) + acc) 0 sections.

Definition preserveSet (input : CompactStateInput) : list text :=
  Js.uniq [] (map sectionKey (default [] (preserve input))).

Definition initialState (input : CompactStateInput) : LoopState :=
  {| working := buildSections input;
     droppedOrCompressed := [];
     targetChars := (resolveTargetTokens (targetTokens input) (policy input) * 4)%Z |}.

Definition finish (input : CompactStateInput) (st : LoopState) : CompactStateOutput :=
  let compactState :=
    sanitizeText (sectionsToText (working st)) (Z.max 400 (targetChars st)) in
  {| compactState := compactState;
     beforeEstimatedTokens := estimateTokensFromText (sectionsToText (buildSections input));
     afterEstimatedTokens := estimateTokensFromText compactState;
     preservedSections := capItems (preserveSet input) 7;
     droppedOrCompressedSections := capItems (droppedOrCompressed st) 7 |}.

Definition compactReasoningStateFuel (fuel : nat) (input : CompactStateInput)
    : option CompactStateOutput :=
  finish input <$> compactLoop fuel (preserveSet input) (initialState input).

(** One unit of fuel per character of section text, and one more, always
    suffices (theorem [compactReasoningState_converges] below). *)
Definition compactReasoningState (input : CompactStateInput) : option CompactStateOutput :=
  compactReasoningStateFuel (S (totalText (buildSections input))) input.

End Compact.

(* ===================================================================== *)
(** ** Numbers: IEEE 754 double precision *)
(* ===================================================================== *)

(** A JavaScript number is a binary64 floating-point number.  A finite
    double is modelled by the rational it denotes, and an arithmetic
    operation by the exact operation on rationals followed by [fl], the
    rounding to the nearest double: 53 significant bits, ties to the even
    significand, least exponent -1074 (gradual underflow).  Overflow is
    left out: the numbers of the engine stay far below 2^1024. *)
Module Number.

Definition pow2 (e : Z) : Q := (2 ^ e)%Q.

(** The exponent [e] with [2^e <= x < 2^(e+1)], for a positive [x]. *)
Definition log2floor (x : Q) : Z :=
  let d := (Z.log2 (Qnum x) - Z.log2 (Zpos (Qden x)))%Z in
  if Qle_bool (pow2 d) x then d else (d - 1)%Z.

(** The nearest integer, ties to even. *)
Definition roundHalfEven (q : Q) : Z :=
  let f := Qfloor q in
  match (q - inject_Z f ?= 1 # 2)%Q with
  | Lt => f
  | Gt => (f + 1)%Z
  | Eq => if Z.even f then f else (f + 1)%Z
  end.

(** The exponent of the unit in the last place of the doubles around [x]. *)
Definition ulpExponent (x : Q) : Z :=
  Z.max (-1074) (log2floor (Qabs x) - 52).

Definition fl (x : Q) : Q :=
  if Qeq_bool x 0 then 0%Q
  else Qred (inject_Z (roundHalfEven (x / pow2 (ulpExponent x))) * pow2 (ulpExponent x)).

(** A finite double: a rational that rounding leaves as it is. *)
Record Double := {
  value : Q;
  representable : Qeq_bool (fl value) value = true
}.

Definition add (a b : Q) : Q := fl (a + b).
Definition mul (a b : Q) : Q := fl (a * b).
Definition div (a b : Q) : Q := fl (a / b).

(** [Math.round]: the nearest integer, ties towards plus infinity. *)
Definition round (x : Q) : Z := Qfloor (x + (1 # 2)).

End Number.

(* ===================================================================== *)
(** ** reasoning/critic: the Critic *)
(* ===================================================================== *)

Module Critic.

Inductive CriticCategory :=
  correctness | completeness | riskCategory | testability | simplicity | maintainability.

Inductive SubjectType := planSubject | proposal | draft_answer | approach | decision_set.

Inductive Style := strict | balancedStyle | coaching.

Inductive Verdict := approve | revise | reject.

Global Instance CriticCategory_eq_dec : EqDecision CriticCategory.
Proof. solve_decision. Defined.
Global Instance Style_eq_dec : EqDecision Style.
Proof. solve_decision. Defined.
Global Instance Verdict_eq_dec : EqDecision Verdict.
Proof. solve_decision. Defined.

(** [structured] holds the JSON text of the structured payload. *)
Record Subject := {
  subjectType : SubjectType;
  subjectText : option text;
  structured : option text
}.

(** A partial record of weights; a score or a weight of a category is
    read with the category as the key.  The weights of a rubric are
    doubles (the tool schema admits the numbers from 0 to 5). *)
Record CriticInput := {
  subject : Subject;
  rubric : option (CriticCategory -> option Number.Double);
  style : option Style;
  policy : ResponsePolicy
}.

Record Finding := {
  category : CriticCategory;
  severity : Level;
  issue : text;
  recommendation : text
}.

(** Scores in tenths: the score 7.5 is [75]. *)
Record CriticOutput := {
  scores : CriticCategory -> Z;
  weightedTotal : Z;
  findings : list Finding;
  strengths : list text;
  weaknesses : list text;
  verdict : Verdict
}.

Definition DEFAULT_WEIGHTS (c : CriticCategory) : Q :=
  match c with
  | correctness => 5
  | completeness => 4
  | riskCategory => 4
  | testability => 3
  | simplicity => 2
  | maintainability => 3
  end.

Definition categoryLabels : list CriticCategory :=
  [correctness; completeness; riskCategory; testability; simplicity; maintainability].

Definition categoryName (c : CriticCategory) : text :=
  match c with
  | correctness => str "correctness"
  | completeness => str "completeness"
  | riskCategory => str "risk"
  | testability => str "testability"
  | simplicity => str "simplicity"
  | maintainability => str "maintainability"
  end.

Definition sumWeights (weights : CriticCategory -> Q) : Q :=
  Number.add
    (Number.add
       (Number.add
          (Number.add (Number.add (weights correctness) (weights completeness))
             (weights riskCategory))
          (weights testability))
       (weights simplicity))
    (weights maintainability).

Definition clampQ (value lo hi : Q) : Q := Qmin hi (Qmax lo value).

Definition clamp (value lo hi : Z) : Z := Z.min hi (Z.max lo value).

(** [Math.round(value * 10) / 10], with the result in tenths: the
    double returned is [k / 10] for the integer [k] given here. *)
Definition roundOne (value : Q) : Z := Number.round (Number.mul value 10).

(** The double [k / 10] that holds a score of [k] tenths. *)
Definition scoreValue (k : Z) : Q := Number.div (inject_Z k) 10.

Definition capitalize (value : text) : text :=
  match value with
  | [] => []
  | c :: rest => Js.upperChar c :: rest
  end.

Definition resolveWeights (rubric : option (CriticCategory -> option Number.Double))
    : CriticCategory -> Q :=
  match rubric with
  | None => DEFAULT_WEIGHTS
  | Some r =>
      let resolved := fun key =>
        match r key with
        | Some value => clampQ (Number.value value) 0 5
        | None => DEFAULT_WEIGHTS key
        end in
      if Qeq_bool (sumWeights resolved) 0 then DEFAULT_WEIGHTS else resolved
  end.

Definition bump (b : bool) (delta : Z) : Z := if b then delta else 0%Z.

Definition scoreCorrectness (t : text) : Z :=
  match t with
  | [] => 20
  | _ =>
      clamp
        (65
         + bump (Js.testI [Js.word "verified"; Js.word "evidence"; Js.word "deterministic";
                           Js.word "consistent"; Js.word "validated"] t) 20
         - bump (Js.testI [Js.word "maybe"; Js.word "guess"; Js.word "probably";
                           Js.word "unclear"; Js.word "unsure"] t) 20
         - bump (bool_decide (length t < 120)) 15
         - bump (Js.testI [Js.word "contradict"; Js.word "inconsistent"] t) 20)
        0 100
  end.

Definition completenessSignals : list text :=
  [ str "goal"; str "constraint"; str "assumption"; str "risk"; str "verify";
    str "next action"; str "plan step" ].

Definition signalCount (t : text) : nat :=
  foldl (fun acc term => acc + (if Js.includes (Js.toLowerCase t) term then 1 else 0))
    0 completenessSignals.

Definition scoreCompleteness (t : text) : Z :=
  match t with
  | [] => 15
  | _ =>
      clamp
        (20 + Z.of_nat (signalCount t) * 11
         + bump (bool_decide (800 < length t)) 10
         - bump (bool_decide (length t < 100)) 15)
        0 100
  end.

Definition scoreRisk (t : text) : Z :=
  clamp
    (40
     + bump (Js.testI [Js.word "risk"; Js.word "blocker"; Js.word "mitigation";
                       Js.word "fallback"; Js.word "failure"] t) 30
     + bump (Js.testI [Js.word "high-risk"; Js.word "critical"; Js.word "safety"] t) 10
     - bump (Js.testI [Js.word "ignore risk"; Js.word "skip validation"] t) 30)
    0 100.

Definition scoreTestability (t : text) : Z :=
  clamp
    (30
     + bump (Js.testI [Js.word "test"; Js.word "verify"; Js.word "assert"; Js.word "evidence";
                       Js.word "checkpoint"; Js.word "acceptance"] t) 40
     + bump (Js.testI [Js.word "manual"; Js.word "review"; Js.word "logic-check"] t) 15
     - bump (negb (Js.testI [Js.word "test"; Js.word "verify"; Js.word "check"] t)) 20)
    0 100.

Definition scoreSimplicity (t : text) : Z :=
  let words := length (filter (fun w => 0 < length w) (Js.splitSpaces t)) in
  let sentences :=
    match length (filter (fun s => 0 < length (Js.trim s))
                    (Js.splitOn Analyze.isSentenceEnd t)) with
    | 0 => 1
    | n => n
    end in
  clamp
    (80
     - (if decide (28 * sentences < words) then 30
        else if decide (20 * sentences < words) then 15 else 0)
     - bump (bool_decide (900 < words)) 20
     + bump (Js.testI [Js.word "simple"; Js.word "minimal"; Js.word "focused"] t) 10)
    0 100.

Definition scoreMaintainability (t : text) : Z :=
  clamp
    (40
     + bump (Js.testI [Js.word "modular"; Js.word "schema"; Js.word "stable"; Js.word "typed";
                       Js.word "repository"; Js.word "migration"] t) 30
     + bump (Js.testI [Js.word "document"; Js.word "readme"; Js.word "test"] t) 20
     - bump (Js.testI [Js.word "hack"; Js.word "temporary"; Js.word "quick fix"] t) 20)
    0 100.

Definition styleIssueText (category : CriticCategory) (severity : Level) (style : Style)
    (policy : ResponsePolicy) : text :=
  let prefix :=
    match style with
    | strict => str "Defect:"
    | coaching => str "Improve:"
    | balancedStyle => str "Issue:"
    end in
  sanitizeText
    (prefix ++ str " " ++ capitalize (categoryName category) ++ str " scored "
     ++ Analyze.levelText severity ++ str ".")
    (textMaxChars policy).

Definition actionByCategory (c : CriticCategory) : text :=
  match c with
  | correctness => str "Add objective evidence and remove ambiguous claims."
  | completeness =>
      str "Cover missing sections: goal, constraints, assumptions, and verification."
  | riskCategory => str "Add explicit mitigations and failure handling checkpoints."
  | testability => str "Define concrete verification checks and acceptance criteria."
  | simplicity => str "Reduce scope per step and shorten complex statements."
  | maintainability => str "Improve modularity, schema stability, and test coverage."
  end.

Definition styleRecommendationText (category : CriticCategory) (severity : Level)
    (style : Style) (policy : ResponsePolicy) : text :=
  let suffix :=
    if decide (style = coaching) then str " Focus on one high-impact fix first."
    else if decide (severity = high) then str " Apply before approval."
    else [] in
  sanitizeText (actionByCategory category ++ suffix) (textMaxChars policy).

Definition buildFindings (scores : CriticCategory -> Z) (style : Style)
    (policy : ResponsePolicy) : list Finding :=
  flat_map
    (fun category =>
       let score := scores category in
       if decide (75 <= score)%Z then []
       else
         let severity :=
           if decide (score <= 45)%Z then high
           else if decide (score <= 60)%Z then medium else low in
         [ {| category := category;
              severity := severity;
              issue := styleIssueText category severity style policy;
              recommendation := styleRecommendationText category severity style policy |} ])
    categoryLabels.

Definition isHardBlocker (item : Finding) : bool :=
  bool_decide (severity item = high)
  && (bool_decide (category item = correctness)
      || bool_decide (category item = completeness)
      || bool_decide (category item = riskCategory)).

Definition resolveVerdict (scores : CriticCategory -> Z) (weightedTotal : Z)
    (findings : list Finding) : Verdict :=
  let highCorrectnessFailure :=
    bool_decide (scores correctness < 50)%Z || bool_decide (scores completeness < 50)%Z in
  let hardBlockers := existsb isHardBlocker findings in
  if highCorrectnessFailure || hardBlockers then reject
  else if bool_decide (75 <= weightedTotal)%Z
          && negb (existsb (fun item => bool_decide (severity item = high)) findings)
  then approve
  else revise.

Definition sourceTextOf (input : CriticInput) : text :=
  sanitizeText
    (match subjectText (subject input) with
     | Some t => t
     | None => default (str "{}") (structured (subject input))
     end)
    (match mode (policy input) with small => 1500 | _ => 3500 end).

Definition scoresOf (sourceText : text) (c : CriticCategory) : Z :=
  match c with
  | correctness => scoreCorrectness sourceText
  | completeness => scoreCompleteness sourceText
  | riskCategory => scoreRisk sourceText
  | testability => scoreTestability sourceText
  | simplicity => scoreSimplicity sourceText
  | maintainability => scoreMaintainability sourceText
  end.

(** The weighted total of scores given in tenths, in tenths; every
    product, sum and quotient is a floating-point operation, in the
    order of the source. *)
Definition weightedTotalOf (scores : CriticCategory -> Z) (weights : CriticCategory -> Q) : Z :=
  let s := fun c => scoreValue (scores c) in
  roundOne
    (Number.div
       (Number.add
          (Number.add
             (Number.add
                (Number.add
                   (Number.add (Number.mul (s correctness) (weights correctness))
                      (Number.mul (s completeness) (weights completeness)))
                   (Number.mul (s riskCategory) (weights riskCategory)))
                (Number.mul (s testability) (weights testability)))
             (Number.mul (s simplicity) (weights simplicity)))
          (Number.mul (s maintainability) (weights maintainability)))
       (sumWeights weights)).

Definition runCriticReview (input : CriticInput) : CriticOutput :=
  let sourceText := sourceTextOf input in
  let style := default balancedStyle (style input) in
  let scores := scoresOf sourceText in
  let weights := resolveWeights (rubric input) in
  let weightedTotal := weightedTotalOf scores weights in
  let findings :=
    capItems (buildFindings scores style (policy input))
      (Z.max 4 (maxFindings (policy input))) in
  let strengths :=
    capItems
      (map (fun category =>
              sanitizeText (capitalize (categoryName category) ++ str " quality is strong.")
                (textMaxChars (policy input)))
         (filter (fun category => (80 <= scores category)%Z) categoryLabels))
      (maxGenericItems (policy input)) in
  let weaknesses :=
    capItems
      (map (fun category =>
              sanitizeText
                (capitalize (categoryName category) ++ str " quality needs improvement.")
                (textMaxChars (policy input)))
         (filter (fun category => (scores category <= 60)%Z) categoryLabels))
      (maxGenericItems (policy input)) in
  {| scores := scores;
     weightedTotal := weightedTotal;
     findings := findings;
     strengths := strengths;
     weaknesses := weaknesses;
     verdict := resolveVerdict scores weightedTotal findings |}.

End Critic.

(* ===================================================================== *)
(** ** reasoning/consistency: the Consistency Checker *)
(* ===================================================================== *)

Module Consistency.

Inductive ConsistencyIssueType :=
  contradiction | missing_step | circular_dependency | unsupported_claim | goal_drift.

Inductive CheckTarget :=
  contradictions | missing_steps | circular_deps | unsupported_claims | goal_drift_target.

Global Instance CheckTarget_eq_dec : EqDecision CheckTarget.
Proof. solve_decision. Defined.

Record DraftStep := {
  draftId : option text;
  draftText : text;
  draftDependsOn : option (list text)
}.

Record Draft := {
  claims : option (list text);
  planText : option text;
  draftSteps : option (list DraftStep);
  conclusions : option (list text)
}.

Record ConsistencyCheckInput := {
  draft : option Draft;
  checkTargets : option (list CheckTarget);
  normalizedGoal : option text;
  sessionPlanSteps : option (list Storage.PlanStepRecord);
  sessionAssumptions : option (list Storage.AssumptionRecord);
  recentDecisionLogs : option (list Storage.DecisionLogRecord);
  policy : ResponsePolicy
}.

Record ConsistencyIssue := {
  issueId : text;
  issueType : ConsistencyIssueType;
  severity : Level;
  description : text;
  affectedItems : list text;
  suggestedFix : text
}.

Record Summary := {
  total : nat;
  highSeverity : nat;
  pass : bool
}.

Record ConsistencyCheckOutput := {
  issues : list ConsistencyIssue;
  summary : Summary
}.

(** A step as the checks see it. *)
Record Step := {
  id : text;
  text_ : text;
  dependsOn : list text
}.

Definition stopwords : list text :=
  [ str "the"; str "a"; str "an"; str "and"; str "or"; str "to"; str "for"; str "of";
    str "in"; str "on"; str "with"; str "is"; str "are"; str "be"; str "by"; str "this";
    str "that" ].

(** The members of the keyword [Set], in insertion order. *)
Definition keywordSet (t : text) : list text :=
  Js.uniq []
    (filter (fun token => 4 <= length token /\ token ∉ stopwords)
       (Js.splitSpaces (Js.blankPunctuation (Js.toLowerCase t)))).

Definition extractClaimAnchor (claim : text) : text :=
  default []
    (head (filter (fun token => 5 <= length token)
             (Js.splitSpaces (Js.blankPunctuation (Js.toLowerCase claim))))).

Definition negationWords : list Js.Alt :=
  [ Js.word "no"; Js.word "not"; Js.word "never"; Js.word "cannot"; Js.word "can't";
    Js.word "without"; Js.word "failed" ].

Definition overlapCount (a b : list text) : nat :=
  length (filter (fun keyword => keyword ∈ b) a).

Definition isContradictoryPair (a b : text) : bool :=
  let aHasNegation := Js.testI negationWords a in
  let bHasNegation := Js.testI negationWords b in
  if bool_decide (aHasNegation = bHasNegation) then false
  else bool_decide (2 <= overlapCount (keywordSet a) (keywordSet b)).

(** [/\bdeploy|release|production\b/]: the boundary assertions bind to
    the first and to the last alternative only. *)
Definition deploymentWords : list Js.Alt :=
  [ {| Js.bBefore := true; Js.lit := str "deploy"; Js.bAfter := false |};
    {| Js.bBefore := false; Js.lit := str "release"; Js.bAfter := false |};
    {| Js.bBefore := false; Js.lit := str "production"; Js.bAfter := true |} ].

Section WithIds.

Variable randomUUID : nat -> text.

Definition makeIssue (type : ConsistencyIssueType) (severity : Level) (description : text)
    (affectedItems : list text) (suggestedFix : text) (policy : ResponsePolicy)
    : IdGen ConsistencyIssue :=
  i ← newId randomUUID (str "issue");
  mret {| issueId := i;
          issueType := type;
          severity := severity;
          description := sanitizeText description (textMaxChars policy);
          affectedItems :=
            capItems (map (fun item => sanitizeText item (textMaxChars policy)) affectedItems)
              (maxGenericItems policy);
          suggestedFix := sanitizeText suggestedFix (textMaxChars policy) |}.

Definition detectContradictions (claims conclusions : list text) (policy : ResponsePolicy)
    : IdGen (list ConsistencyIssue) :=
  let allComparisons :=
    flat_map (fun claim => map (fun conclusion => (claim, conclusion)) conclusions) claims in
  mapGen
    (fun ab =>
       makeIssue contradiction high
         (str "Potential contradiction detected between claim and conclusion.")
         [fst ab; snd ab]
         (str "Align conclusion with supporting claim or add missing evidence.")
         policy)
    (filter (fun ab => isContradictoryPair (fst ab) (snd ab) = true) allComparisons).

Definition indexById (steps : list Step) : gmap text nat :=
  Js.mapOf (imap (fun index step => (id step, index)) steps).

(** The dependencies of all steps that raise an issue, in the order of
    the two nested loops, each with the severity it is reported at. *)
Definition brokenDependencies (steps : list Step) : list (Step * text * Level) :=
  concat
    (imap
       (fun index step =>
          omap
            (fun depId =>
               match indexById steps !! depId with
               | None => Some (step, depId, high)
               | Some depIndex =>
                   if decide (index < depIndex) then Some (step, depId, medium) else None
               end)
            (dependsOn step))
       steps).

Definition detectMissingSteps (steps : list Step) (planText : text) (conclusions : list text)
    (policy : ResponsePolicy) : IdGen (list ConsistencyIssue) :=
  if decide (0 < length conclusions /\ length steps = 0) then
    i ← makeIssue missing_step high
          (str "Conclusions provided without supporting execution steps.")
          conclusions
          (str "Add explicit steps that produce evidence for each conclusion.")
          policy;
    mret [i]
  else
    found ← mapGen
      (fun broken =>
         let '(step, depId, sev) := broken in
         match sev with
         | high =>
             makeIssue missing_step high
               (str "Step '" ++ id step ++ str "' depends on undefined step '" ++ depId
                ++ str "'.")
               [id step; depId]
               (str "Define the missing dependency or remove invalid reference.")
               policy
         | _ =>
             makeIssue missing_step medium
               (str "Step '" ++ id step ++ str "' depends on future step '" ++ depId
                ++ str "'.")
               [id step; depId]
               (str "Reorder steps so dependencies complete earlier.")
               policy
         end)
      (brokenDependencies steps);
    let lowerSteps := Js.join (str " ") (map (fun step => Js.toLowerCase (text_ step)) steps) in
    if Js.testI deploymentWords planText && negb (Js.test deploymentWords lowerSteps) then
      i ← makeIssue missing_step medium
            (str "Plan text references deployment but no deployment step was found.")
            [planText]
            (str "Add a deployment or rollout step with verification.")
            policy;
      mret (found ++ [i])
    else mret found.

(** *** Cycle detection

    [dfs] is a closure over the two sets and the issue array; the
    embedding threads them, and the number of identifiers drawn, as a
    state.  [fuel] bounds the depth of the recursion. *)
Record DfsState := {
  visited : gset text;
  stack : gset text;
  found : list ConsistencyIssue;
  drawn : nat
}.

Definition dfsDeps (edges : gmap text (list text))
    (dfs : text -> DfsState -> option DfsState)
    : list text -> DfsState -> option DfsState :=
  fix go (deps : list text) (st : DfsState) : option DfsState :=
    match deps with
    | [] => Some st
    | dep :: rest =>
        if decide (is_Some (edges !! dep)) then
          match dfs dep st with
          | Some st' => go rest st'
          | None => None
          end
        else go rest st
    end.

Fixpoint dfs (edges : gmap text (list text)) (policy : ResponsePolicy) (fuel : nat)
    (node : text) (st : DfsState) : option DfsState :=
  match fuel with
  | 0 => None
  | S fuel' =>
      if decide (node ∈ stack st) then
        let (i, n') :=
          makeIssue circular_dependency high
            (str "Circular dependency detected at '" ++ node ++ str "'.")
            [node]
            (str "Remove cycle by introducing linear dependency progression.")
            policy (drawn st) in
        Some {| visited := visited st; stack := stack st;
                found := found st ++ [i]; drawn := n' |}
      else if decide (node ∈ visited st) then Some st
      else
        let st1 := {| visited := {[ node ]} ∪ visited st;
                      stack := {[ node ]} ∪ stack st;
                      found := found st; drawn := drawn st |} in
        match dfsDeps edges (dfs edges policy fuel') (default [] (edges !! node)) st1 with
        | None => None
        | Some st2 =>
            Some {| visited := visited st2; stack := stack st2 ∖ {[ node ]};
                    found := found st2; drawn := drawn st2 |}
        end
  end.

Fixpoint dfsAll (edges : gmap text (list text)) (policy : ResponsePolicy) (fuel : nat)
    (steps : list Step) (st : DfsState) : option DfsState :=
  match steps with
  | [] => Some st
  | step :: rest =>
      match dfs edges policy fuel (id step) st with
      | Some st' => dfsAll edges policy fuel rest st'
      | None => None
      end
  end.

Definition edgesOf (steps : list Step) : gmap text (list text) :=
  Js.mapOf (map (fun step => (id step, dependsOn step)) steps).

Definition detectCircularDependenciesFuel (fuel : nat) (steps : list Step)
    (policy : ResponsePolicy) (n : nat) : option (list ConsistencyIssue * nat) :=
  (fun st => (found st, drawn st))
  <$> dfsAll (edgesOf steps) policy fuel steps
        {| visited := ∅; stack := ∅; found := []; drawn := n |}.

(** The fuel [S (length steps)] always suffices (lemma
    [detectCircularDependencies_fuel] below). *)
Definition detectCircularDependencies (steps : list Step) (policy : ResponsePolicy)
    : IdGen (list ConsistencyIssue) :=
  fun n => default ([], n) (detectCircularDependenciesFuel (S (length steps)) steps policy n).

Definition evidentialWords : list Js.Alt :=
  [ Js.word "because"; Js.word "therefore"; Js.word "proves"; Js.word "confirmed" ].

Definition logEvidenceText (log : Storage.DecisionLogRecord) : text :=
  Js.toLowerCase
    (Js.join (str " ")
       (Storage.summary log :: default [] (Storage.details log ≫= Storage.evidence))).

Definition hasEvidence (decisionLogs : list Storage.DecisionLogRecord) (claim : text) : bool :=
  existsb (fun log => Js.includes (logEvidenceText log) (extractClaimAnchor claim)) decisionLogs.

Definition detectUnsupportedClaims (claims conclusions : list text)
    (assumptions : option (list Storage.AssumptionRecord))
    (decisionLogs : option (list Storage.DecisionLogRecord))
    (policy : ResponsePolicy) : IdGen (list ConsistencyIssue) :=
  first ←
    (if decide (length claims = 0 /\ 0 < length conclusions) then
       i ← makeIssue unsupported_claim high
             (str "Conclusions exist without explicit supporting claims.")
             conclusions
             (str "Add supporting claims or evidence before finalizing conclusions.")
             policy;
       mret [i]
     else mret []);
  second ←
    (let verifiedAssumptions :=
       filter (fun item => Storage.assumptionStatus item = Storage.verified)
         (default [] assumptions) in
     let evidenceLogs :=
       filter (fun log => Storage.kind log = Storage.result
                          \/ Storage.kind log = Storage.checkpoint)
         (default [] decisionLogs) in
     if decide (0 < length conclusions
                /\ length verifiedAssumptions = 0 /\ length evidenceLogs = 0) then
       i ← makeIssue unsupported_claim high
             (str "Conclusions are not backed by verified assumptions or evidence logs.")
             (take 3 conclusions)
             (str "Verify assumptions and log concrete evidence before final conclusions.")
             policy;
       mret [i]
     else mret []);
  third ←
    mapGen
      (fun claim =>
         makeIssue unsupported_claim medium
           (str "Claim appears evidential but no supporting evidence log was found.")
           [claim]
           (str "Record evidence in decision logs or weaken claim confidence.")
           policy)
      (filter (fun claim => Js.testI evidentialWords claim = true
                            /\ hasEvidence (default [] decisionLogs) claim = false)
         claims);
  mret (first ++ second ++ third).

Definition detectGoalDrift (normalizedGoal : option text) (claims conclusions stepTexts : list text)
    (planText : text) (policy : ResponsePolicy) : IdGen (list ConsistencyIssue) :=
  if negb (truthy normalizedGoal) then mret []
  else
    let goal := default [] normalizedGoal in
    let goalKeywords := keywordSet goal in
    if decide (length goalKeywords = 0) then mret []
    else
      let corpus := Js.join (str " ") (claims ++ conclusions ++ stepTexts ++ [planText]) in
      let corpusKeywords := keywordSet corpus in
      let overlap := overlapCount goalKeywords corpusKeywords in
      (* ratio = overlap / goalKeywords.size, compared with 0.3 and 0.15 *)
      if decide (3 * length goalKeywords <= 10 * overlap) then mret []
      else
        i ← makeIssue goal_drift
              (if decide (100 * overlap < 15 * length goalKeywords) then high else medium)
              (str "Current draft appears to drift from normalized goal keywords.")
              [goal]
              (str "Revise plan and conclusions to align with stated goal.")
              policy;
        mret [i].

Definition allTargets : list CheckTarget :=
  [contradictions; missing_steps; circular_deps; unsupported_claims; goal_drift_target].

Definition stepsOf (input : ConsistencyCheckInput) : list Step :=
  match draft input ≫= draftSteps with
  | Some ds =>
      imap (fun index step =>
              {| id := default (str "draft_step_" ++ Js.showNat (index + 1)) (draftId step);
                 text_ := draftText step;
                 dependsOn := default [] (draftDependsOn step) |})
        ds
  | None =>
      match sessionPlanSteps input with
      | Some ps =>
          map (fun step => {| id := Storage.stepId step;
                              text_ := Storage.title step;
                              dependsOn := Storage.dependsOn step |})
            ps
      | None => []
      end
  end.

Definition whenTarget (targets : list CheckTarget) (t : CheckTarget)
    (check : IdGen (list ConsistencyIssue)) : IdGen (list ConsistencyIssue) :=
  if decide (t ∈ targets) then check else mret [].

(** The array [issues] of [runConsistencyCheck] before it is capped. *)
Definition collectIssues (input : ConsistencyCheckInput) : IdGen (list ConsistencyIssue) :=
  let targets := default allTargets (checkTargets input) in
  let claims := default [] (draft input ≫= claims) in
  let conclusions := default [] (draft input ≫= conclusions) in
  let planText := default [] (draft input ≫= planText) in
  let steps := stepsOf input in
  i1 ← whenTarget targets contradictions
         (detectContradictions claims conclusions (policy input));
  i2 ← whenTarget targets missing_steps
         (detectMissingSteps steps planText conclusions (policy input));
  i3 ← whenTarget targets circular_deps
         (detectCircularDependencies steps (policy input));
  i4 ← whenTarget targets unsupported_claims
         (detectUnsupportedClaims claims conclusions (sessionAssumptions input)
            (recentDecisionLogs input) (policy input));
  i5 ← whenTarget targets goal_drift_target
         (detectGoalDrift (normalizedGoal input) claims conclusions (map text_ steps)
            planText (policy input));
  mret (i1 ++ i2 ++ i3 ++ i4 ++ i5).

Definition summarize (capped : list ConsistencyIssue) : Summary :=
  {| total := length capped;
     highSeverity := length (filter (fun issue => severity issue = high) capped);
     pass := bool_decide (length capped = 0) |}.

Definition runConsistencyCheck (input : ConsistencyCheckInput) : IdGen ConsistencyCheckOutput :=
  issues ← collectIssues input;
  let capped := capItems issues (maxFindings (policy input)) in
  mret {| issues := capped; summary := summarize capped |}.

End WithIds.

End Consistency.

(* ===================================================================== *)
(** ** reasoning/nextAction: the Next-Action Selector *)
(* ===================================================================== *)

Module NextAction.

Inductive ActionType :=
  execute_step | verify_assumption | run_review | resolve_blocker | revise_plan
  | gather_evidence.

Inductive Preference := progress | safety | validation | unblock.

Record CurrentContext := {
  latestResult : option text;
  activeStepId : option text;
  blockers : option (list text);
  openRisks : option (list text)
}.

Record NextActionInput := {
  planSteps : list Storage.PlanStepRecord;
  assumptions : list Storage.AssumptionRecord;
  decisionLogs : list Storage.DecisionLogRecord;
  currentContext : option CurrentContext;
  preference : option Preference;
  policy : ResponsePolicy
}.

Record Recommendation := {
  recType : ActionType;
  recTitle : text;
  recReason : text;
  recTargetStepId : option text
}.

Record Alternative := {
  altType : ActionType;
  altTitle : text;
  altTradeoff : text
}.

Record NextActionOutput := {
  recommendation : Recommendation;
  alternatives : list Alternative;
  prerequisites : list text
}.

Record Candidate := {
  type : ActionType;
  title : text;
  reason : text;
  tradeoff : text;
  score : Z;
  targetStepId : option text;
  candidatePrerequisites : list text
}.

Definition typeName (t : ActionType) : text :=
  match t with
  | execute_step => str "execute-step"
  | verify_assumption => str "verify-assumption"
  | run_review => str "run-review"
  | resolve_blocker => str "resolve-blocker"
  | revise_plan => str "revise-plan"
  | gather_evidence => str "gather-evidence"
  end.

Definition preferenceBoost (preference : Preference) (type : ActionType) : Z :=
  match preference, type with
  | progress, execute_step => 8
  | progress, resolve_blocker => 6
  | safety, verify_assumption => 10
  | safety, gather_evidence => 8
  | safety, run_review => 6
  | validation, run_review => 10
  | validation, verify_assumption => 6
  | unblock, resolve_blocker => 12
  | unblock, revise_plan => 6
  | _, _ => 0
  end.

Definition missingDependencies (step : Storage.PlanStepRecord)
    (allSteps : list Storage.PlanStepRecord) : list text :=
  let byId := Js.mapOf (map (fun item => (Storage.stepId item, item)) allSteps) in
  let missing :=
    filter
      (fun depId =>
         match byId !! depId with
         | None => true
         | Some dep => bool_decide (Storage.status dep <> Plan.done)
         end = true)
      (Storage.dependsOn step) in
  match missing with
  | [] => [str "No unmet prerequisites detected."]
  | _ => map (fun i => str "Complete dependency " ++ i ++ str " before execution.") missing
  end.

Fixpoint dedupeFrom (seen : list text) (candidates : list Candidate) : list Candidate :=
  match candidates with
  | [] => []
  | candidate :: rest =>
      let key := typeName (type candidate) ++ str "|" ++ default [] (targetStepId candidate) in
      if decide (key ∈ seen) then dedupeFrom seen rest
      else candidate :: dedupeFrom (key :: seen) rest
  end.

Definition dedupeCandidates (candidates : list Candidate) : list Candidate :=
  dedupeFrom [] candidates.

Definition whenC (b : bool) (c : Candidate) : list Candidate := if b then [c] else [].

(** The array [candidates] of [buildCandidates], before it is deduplicated. *)
Definition proposedCandidates (input : NextActionInput) : list Candidate :=
  let preference := default progress (preference input) in
  let blockedSteps :=
    filter (fun step => Storage.status step = Plan.blocked) (planSteps input) in
  let inProgress :=
    head (filter (fun step => Storage.status step = Plan.in_progress) (planSteps input)) in
  let pending :=
    head (filter (fun step => Storage.status step = Plan.pending) (planSteps input)) in
  let riskyAssumptions :=
    filter (fun item => Storage.assumptionStatus item = Storage.risky
                        \/ Storage.assumptionStatus item = Storage.contradicted)
      (assumptions input) in
  let highRiskUnverified :=
    filter (fun item => Storage.assumptionStatus item <> Storage.verified
                        /\ Storage.assumptionRisk item = high)
      (assumptions input) in
  let openContextBlockers := default [] (currentContext input ≫= blockers) in
  let openContextRisks := default [] (currentContext input ≫= openRisks) in
  whenC (bool_decide (0 < length blockedSteps \/ 0 < length openContextBlockers))
    (let step := head blockedSteps in
     {| type := resolve_blocker;
        title :=
          match step with
          | Some s => str "Resolve blocker on " ++ Storage.stepId s
          | None => str "Resolve active blocker from current context"
          end;
        reason := str "Blocked execution prevents further progress on plan.";
        tradeoff := str "Unblocking may require scope adjustment before new progress.";
        score := 92 + preferenceBoost preference resolve_blocker;
        targetStepId := Storage.stepId <$> step;
        candidatePrerequisites :=
          [ str "Identify blocker root cause.";
            str "Add mitigation decision log entry.";
            str "Update impacted plan step status." ] |})
  ++ whenC (bool_decide (0 < length riskyAssumptions \/ 0 < length highRiskUnverified))
       {| type := verify_assumption;
          title := str "Verify highest-risk assumption";
          reason := str "Unverified high-risk assumptions can invalidate downstream steps.";
          tradeoff := str "Verification adds short-term overhead but reduces rework.";
          score := 84 + preferenceBoost preference verify_assumption;
          targetStepId :=
            Storage.assumptionId
            <$> (match head riskyAssumptions with
                 | Some a => Some a
                 | None => head highRiskUnverified
                 end);
          candidatePrerequisites :=
            [ str "Gather concrete evidence for assumption status.";
              str "Run assumption_check with strictness='strict'." ] |}
  ++ match inProgress, pending with
     | Some step, _ =>
         [ {| type := execute_step;
              title := str "Advance current in-progress step " ++ Storage.stepId step;
              reason := str "Active work should complete before expanding scope.";
              tradeoff := str "May postpone risk review until this step is completed.";
              score := 80 + preferenceBoost preference execute_step;
              targetStepId := Some (Storage.stepId step);
              candidatePrerequisites := missingDependencies step (planSteps input) |} ]
     | None, Some step =>
         [ {| type := execute_step;
              title := str "Start next pending step " ++ Storage.stepId step;
              reason := str "No active work in progress and pending step is ready.";
              tradeoff := str "Proceeding now may surface unresolved assumptions later.";
              score := 74 + preferenceBoost preference execute_step;
              targetStepId := Some (Storage.stepId step);
              candidatePrerequisites := missingDependencies step (planSteps input) |} ]
     | None, None => []
     end
  ++ whenC (bool_decide
              (length (filter (fun log => Storage.kind log = Storage.result)
                         (decisionLogs input)) = 0
               \/ 0 < length openContextRisks))
       {| type := gather_evidence;
          title := str "Gather supporting evidence for current state";
          reason := str "Evidence is limited relative to open risks and planned conclusions.";
          tradeoff := str "Evidence collection delays execution but improves confidence.";
          score := 72 + preferenceBoost preference gather_evidence;
          targetStepId := None;
          candidatePrerequisites :=
            [ str "Collect result/checkpoint logs tied to active step.";
              str "Link evidence to assumptions or risk entries." ] |}
  ++ whenC (bool_decide
              (Exists (fun step => Storage.status step = Plan.blocked
                                   \/ Storage.status step = Plan.skipped)
                 (planSteps input)))
       {| type := revise_plan;
          title := str "Revise plan for blocked/skipped path";
          reason := str "Plan no longer matches execution reality and needs adaptation.";
          tradeoff := str "Replanning can add overhead but reduces thrash.";
          score := 76 + preferenceBoost preference revise_plan;
          targetStepId := None;
          candidatePrerequisites :=
            [ str "Re-check dependencies and risk levels.";
              str "Rebuild plan checkpoints if strategy changed." ] |}
  ++ [ {| type := run_review;
          title := str "Run structured consistency and critic review";
          reason :=
            str "Review helps prevent latent inconsistencies before execution continues.";
          tradeoff := str "Additional review time, but lower defect risk.";
          score := 65 + preferenceBoost preference run_review;
          targetStepId := None;
          candidatePrerequisites :=
            [str "Run consistency_check and critic_review on current plan state."] |} ].

Definition buildCandidates (input : NextActionInput) : list Candidate :=
  dedupeCandidates (proposedCandidates input).

Definition fallbackCandidate (policy : ResponsePolicy) : Candidate :=
  {| type := run_review;
     title := str "Run minimal review cycle";
     reason := str "Insufficient state to pick stronger recommendation.";
     tradeoff := str "Review first, then continue execution.";
     score := 1;
     targetStepId := None;
     candidatePrerequisites :=
       [str "Capture plan, assumptions, and latest results before proceeding."] |}.

Section WithLocale.

(** [a.localeCompare(b)] depends on the collation of the host; it is a
    parameter of the selector. *)
Variable localeCompare : text -> text -> Z.

(** [b.score - a.score || a.title.localeCompare(b.title)]. *)
Definition byScoreThenTitle (a b : Candidate) : Z :=
  if decide (score b - score a <> 0)%Z then (score b - score a)%Z
  else localeCompare (title a) (title b).

Definition selectNextBestAction (input : NextActionInput) : NextActionOutput :=
  let candidates := buildCandidates input in
  let sorted := Js.sortBy byScoreThenTitle candidates in
  let best := default (fallbackCandidate (policy input)) (head sorted) in
  let alternatives :=
    capItems
      (map (fun candidate =>
              {| altType := type candidate;
                 altTitle := sanitizeText (title candidate) (textMaxChars (policy input));
                 altTradeoff := sanitizeText (tradeoff candidate) (textMaxChars (policy input)) |})
         (drop 1 sorted))
      (maxAlternatives (policy input)) in
  {| recommendation :=
       {| recType := type best;
          recTitle := sanitizeText (title best) (textMaxChars (policy input));
          recReason := sanitizeText (reason best) (textMaxChars (policy input));
          recTargetStepId := targetStepId best |};
     alternatives := alternatives;
     prerequisites :=
       capItems
         (map (fun value => sanitizeText value (textMaxChars (policy input)))
            (candidatePrerequisites best))
         (maxGenericItems (policy input)) |}.

End WithLocale.

End NextAction.

(* ===================================================================== *)
(** ** Vocabulary of the statements *)
(* ===================================================================== *)

(** The position an id-to-index [Map] built from an array holds for an
    id: the position of the last element that carries the id. *)
Definition lastPosition {A} (idOf : A -> text) (l : list A) (d : text) (j : nat) : Prop :=
  (exists item, l !! j = Some item /\ idOf item = d)
  /\ (forall j' item', j < j' -> l !! j' = Some item' -> idOf item' <> d).

(** A dependency id resolves to the position of the last subtask that
    carries it. *)
Definition resolvesTo (ordered : list Plan.NormalizedSubtask) (d : text) (j : nat) : Prop :=
  lastPosition Plan.id ordered d j.

(** The declared dependencies that resolve to an earlier position, as
    step ids, in declared order. *)
Definition earlierDependencies (deps : list text) (ordered : list Plan.NormalizedSubtask)
    (currentIndex : nat) : list text :=
  map Plan.stepIdByIndex
    (filter (fun index => index < currentIndex)
       (omap (fun dependency => Plan.indexById ordered !! dependency) deps)).


(** The dependency graph of a plan, restricted to step ids: an edge leads
    from a step to each step id listed in its [dependsOn]. *)
Definition dependsEdge (out : Plan.BuildPlanOutput) (a b : text) : Prop :=
  exists s s', s ∈ Plan.steps out /\ s' ∈ Plan.steps out
               /\ Plan.stepId s = a /\ Plan.stepId s' = b
               /\ b ∈ Plan.stepDependsOn s.

(** The invariant of the depth-first ordering: the ids marked as visited
    are exactly the ids of the subtasks emitted so far, no id was emitted
    twice, and every emitted subtask is the one [byId] holds for its id. *)
Record TopoInv (byId : gmap text Plan.NormalizedSubtask) (st : Plan.TopoState) : Prop := {
  inv_visited : forall x, x ∈ Plan.visited st <-> x ∈ map Plan.id (Plan.ordered st);
  inv_nodup : NoDup (map Plan.id (Plan.ordered st));
  inv_nodes : forall n, n ∈ Plan.ordered st -> byId !! Plan.id n = Some n
}.

(** What one call of [visit] (or a run of calls) may change: the set of
    ids on the current path is restored, ids are only added to [visited],
    none of them an id of the current path, and the invariant is kept. *)
Definition topoStep (byId : gmap text Plan.NormalizedSubtask) (st st' : Plan.TopoState) : Prop :=
  Plan.visiting st' = Plan.visiting st
  /\ Plan.visited st ⊆ Plan.visited st'
  /\ (forall x, x ∈ Plan.visited st' -> x ∈ Plan.visited st \/ x ∉ Plan.visiting st)
  /\ (TopoInv byId st -> TopoInv byId st').

(** Two subtasks with the same id, used to show what the ordering does
    with repeated ids. *)
Definition twinSubtasks : list Plan.NormalizedSubtask :=
  [ {| Plan.id := str "a"; Plan.title := str "first"; Plan.dependsOn := [] |};
    {| Plan.id := str "a"; Plan.title := str "second"; Plan.dependsOn := [] |} ].

(** A declared dependency is unresolved at position [i] when it resolves
    to no earlier position: its id is unknown, or it is carried by the
    subtask at position [i] or by a later one. *)
Definition unresolvedAt (ordered : list Plan.NormalizedSubtask) (i : nat) (d : text) : Prop :=
  ~ exists j, resolvesTo ordered d j /\ j < i.

(** The fallback dependency list: the immediate predecessor, or nothing
    for the first step. *)
Definition predecessorOnly (i : nat) : list text :=
  if decide (i = 0) then [] else [Plan.stepIdByIndex (i - 1)].

(** A plan request with three subtasks; the third declares one
    dependency on the first subtask and one on an unknown id. *)
Definition mixedInput : Plan.BuildPlanInput :=
  {| Plan.goal := str "Ship the report";
     Plan.subtasks :=
       Some [ {| Plan.inId := str "a"; Plan.inTitle := str "Collect data";
                 Plan.inDependsOn := None |};
              {| Plan.inId := str "b"; Plan.inTitle := str "Draft outline";
                 Plan.inDependsOn := None |};
              {| Plan.inId := str "c"; Plan.inTitle := str "Write summary";
                 Plan.inDependsOn := Some [str "a"; str "zzz"] |} ];
     Plan.constraints := None;
     Plan.strategy := None;
     Plan.includeCheckpoints := None;
     Plan.policy := POLICY_BY_MODE small |}.

Definition mixedThird : Plan.NormalizedSubtask :=
  {| Plan.id := str "c"; Plan.title := str "Write summary";
     Plan.dependsOn := [str "a"; str "zzz"] |}.

(** The task of the end-to-end scenario, analysed under the [small]
    policy and without context. *)
Definition debugScenario : Analyze.AnalyzeTaskInput :=
  {| Analyze.task :=
       str "Debug failing auth endpoint. Must use only SQLite. Cannot use external APIs. Why is it failing?";
     Analyze.constraints := None;
     Analyze.context := None;
     Analyze.policy :=
       getResponsePolicy
         (Some {| profileName := None; maxContextTokens := None; profileMode := Some small |}) |}.

(** The candidate critical paths of a decomposition, in template order:
    the best path that ends in each subtask. *)
Definition candidatePaths (input : Decompose.DecomposeTaskInput) : list (list text) :=
  map snd (Decompose.bestPaths (Decompose.subtasksOf input)).

(** A planning task decomposed in milestone mode: its template has four
    subtasks. *)
Definition milestoneInput : Decompose.DecomposeTaskInput :=
  {| Decompose.task := str "Plan the roadmap";
     Decompose.goal := None;
     Decompose.constraints := None;
     Decompose.mode := Some Decompose.milestone;
     Decompose.policy := POLICY_BY_MODE small |}.

(** What the loop returns: the state it stops in either fits the target,
    which is then unchanged, or carries the target relaxed once. *)
Definition loopResult (st st' : Compact.LoopState) : Prop :=
  (Compact.targetChars st' = Compact.targetChars st
   /\ (Z.of_nat (length (Compact.sectionsToText (Compact.working st')))
       <= Compact.targetChars st)%Z)
  \/ Compact.targetChars st' = (Compact.targetChars st * 11 / 10)%Z.

(** A finding that blocks approval outright: high severity in one of the
    categories correctness, completeness and risk. *)
Definition hardBlocked (fs : list Critic.Finding) : Prop :=
  exists f, f ∈ fs /\ Critic.severity f = high
            /\ (Critic.category f = Critic.correctness
                \/ Critic.category f = Critic.completeness
                \/ Critic.category f = Critic.riskCategory).

Definition anyHigh (fs : list Critic.Finding) : Prop :=
  exists f, f ∈ fs /\ Critic.severity f = high.

(** The condition under which the verdict is [reject]; scores are in
    tenths, so the threshold 5 is [50]. *)
Definition rejectCondition (scores : Critic.CriticCategory -> Z) (fs : list Critic.Finding)
    : Prop :=
  (scores Critic.correctness < 50)%Z \/ (scores Critic.completeness < 50)%Z \/ hardBlocked fs.

Definition approveCondition (weightedTotal : Z) (fs : list Critic.Finding) : Prop :=
  (75 <= weightedTotal)%Z /\ ~ anyHigh fs.

(** A subject on which every category scores at least 8. *)
Definition strongSubject : Critic.CriticInput :=
  {| Critic.subject :=
       {| Critic.subjectType := Critic.planSubject;
          Critic.subjectText :=
            Some (str "Goal and constraint are verified. Each assumption and risk has a mitigation. This is critical. Verify every plan step with a test and a manual review. The next action is to document the modular schema.");
          Critic.structured := None |};
     Critic.rubric := None;
     Critic.style := None;
     Critic.policy := POLICY_BY_MODE balanced |}.

(** A draft whose single step depends on seven undefined steps, checked
    for missing steps only, under the [small] policy (six findings). *)
Definition crowdedDraft : Consistency.ConsistencyCheckInput :=
  {| Consistency.draft :=
       Some {| Consistency.claims := None;
               Consistency.planText := None;
               Consistency.draftSteps :=
                 Some [ {| Consistency.draftId := Some (str "s");
                           Consistency.draftText := str "Assemble the parts";
                           Consistency.draftDependsOn :=
                             Some [ str "d1"; str "d2"; str "d3"; str "d4"; str "d5";
                                    str "d6"; str "d7" ] |} ];
               Consistency.conclusions := None |};
     Consistency.checkTargets := Some [Consistency.missing_steps];
     Consistency.normalizedGoal := None;
     Consistency.sessionPlanSteps := None;
     Consistency.sessionAssumptions := None;
     Consistency.recentDecisionLogs := None;
     Consistency.policy := POLICY_BY_MODE small |}.

(** A text in which every white space character is a single space that
    is not followed by another white space character. *)
Fixpoint singleSpaced (s : text) : bool :=
  match s with
  | [] => true
  | c :: r =>
      (if Js.isSpace c
       then bool_decide (c = " "%char)
            && match r with d :: _ => negb (Js.isSpace d) | [] => true end
       else true)
      && singleSpaced r
  end.

(** A text is trimmed when it neither starts nor ends with white space. *)
Definition trimmed (s : text) : Prop :=
  (forall c, head s = Some c -> Js.isSpace c = false)
  /\ (forall c, last s = Some c -> Js.isSpace c = false).

(** [dependsKnown byId a b]: the subtask that [byId] holds for the id [a]
    declares the dependency [b], and [b] is itself a key of [byId]. *)
Definition dependsKnown (byId : gmap text Plan.NormalizedSubtask) (a b : text) : Prop :=
  exists n, byId !! a = Some n /\ b ∈ Plan.dependsOn n /\ is_Some (byId !! b).

(** A list of subtasks puts dependencies first when every known
    dependency of an element stands before it, unless the dependency
    itself depends (directly or through others) on that element. *)
Definition DepsFirst (byId : gmap text Plan.NormalizedSubtask)
    (l : list Plan.NormalizedSubtask) : Prop :=
  forall p n d, l !! p = Some n -> d ∈ Plan.dependsOn n -> is_Some (byId !! d) ->
    (exists q m, q < p /\ l !! q = Some m /\ Plan.id m = d)
    \/ rtc (dependsKnown byId) d (Plan.id n).

(** A request for the [fastest] strategy over six chained subtasks. *)
Definition fastestInput : Plan.BuildPlanInput :=
  {| Plan.goal := str "Ship the release";
     Plan.subtasks :=
       Some (imap (fun i t =>
                     {| Plan.inId := str "t" ++ Js.showNat (i + 1);
                        Plan.inTitle := t;
                        Plan.inDependsOn :=
                          if decide (i = 0) then None else Some [str "t" ++ Js.showNat i] |})
                  [str "Collect notes"; str "Draft changelog"; str "Tag build";
                   str "Run smoke checks"; str "Publish package"; str "Announce"]);
     Plan.constraints := None;
     Plan.strategy := Some Plan.Fastest;
     Plan.includeCheckpoints := None;
     Plan.policy := POLICY_BY_MODE balanced |}.

(** Two subtasks given in the wrong order: the first depends on the second. *)
Definition reversedSubtasks : list Plan.NormalizedSubtask :=
  [ {| Plan.id := str "b"; Plan.title := str "Second"; Plan.dependsOn := [str "a"] |};
    {| Plan.id := str "a"; Plan.title := str "First"; Plan.dependsOn := [] |} ].

(** A list of ids is a dependency chain of [subtasks] when each of its
    elements but the first names a subtask that depends on the element
    before it. *)
Definition dependencyChain (subtasks : list Decompose.Subtask) (p : list text) : Prop :=
  forall k a b, p !! k = Some a -> p !! S k = Some b ->
    exists s, s ∈ subtasks /\ Decompose.id s = b /\ a ∈ Decompose.dependsOn s.

(** The number of keywords of a task type that occur in a task. *)
Definition scoreOf (task : text) (t : Analyze.TaskType) : nat :=
  Analyze.keywordScore (Js.toLowerCase task) (Analyze.TASK_TYPE_KEYWORDS t).

(** The choice [detectTaskType] makes, as a function of the keyword
    counts of the five proper task types. *)
Definition typeOfScores (sc : Analyze.TaskType -> nat) : Analyze.TaskType :=
  let scores :=
    Js.sortBy (fun a b => (Z.of_nat (snd b) - Z.of_nat (snd a))%Z)
      (map (fun type => (type, sc type))
         [Analyze.coding; Analyze.debugging; Analyze.architecture; Analyze.planning;
          Analyze.analysis]) in
  match scores with
  | [] => Analyze.mixed
  | best :: rest =>
      if decide (snd best = 0) then Analyze.mixed
      else match rest with
           | second :: _ =>
               if decide (snd best - snd second <= 1 /\ 0 < snd second) then Analyze.mixed
               else fst best
           | [] => fst best
           end
  end.

(** An analysis result with the identifiers of its risks blanked. *)
Definition withoutRiskIds (o : Analyze.AnalyzeTaskOutput) : Analyze.AnalyzeTaskOutput :=
  {| Analyze.outTask := Analyze.outTask o;
     Analyze.normalizedGoal := Analyze.normalizedGoal o;
     Analyze.taskType := Analyze.taskType o;
     Analyze.outConstraints := Analyze.outConstraints o;
     Analyze.assumptionsImplicit := Analyze.assumptionsImplicit o;
     Analyze.unknowns := Analyze.unknowns o;
     Analyze.risks :=
       map (fun r => {| Analyze.riskId := [];
                        Analyze.riskText := Analyze.riskText r;
                        Analyze.severity := Analyze.severity r |})
           (Analyze.risks o);
     Analyze.successCriteria := Analyze.successCriteria o;
     Analyze.clarificationsNeeded := Analyze.clarificationsNeeded o;
     Analyze.suggestedWorkflow := Analyze.suggestedWorkflow o |}.

(** The two kinds of bound a response policy sets. *)
Definition withinChars (maxChars : Z) (t : text) : Prop :=
  (Z.of_nat (length t) <= Z.max 0 maxChars)%Z.

Definition withinItems {A} (maxItems : Z) (l : list A) : Prop :=
  (Z.of_nat (length l) <= Z.max 0 maxItems)%Z.

(** [stepEdge edges a b]: the step [a] lists the dependency [b], and [b]
    is itself a key of [edges]. *)
Definition stepEdge (edges : gmap text (list text)) (a b : text) : Prop :=
  exists deps, edges !! a = Some deps /\ b ∈ deps /\ is_Some (edges !! b).

(** Steps with pairwise distinct ids whose dependencies all name steps
    that stand strictly earlier in the list. *)
Definition backwardDeps (steps : list Consistency.Step) : Prop :=
  NoDup (map Consistency.id steps)
  /\ forall i s d, steps !! i = Some s -> d ∈ Consistency.dependsOn s ->
       exists j s', j < i /\ steps !! j = Some s' /\ Consistency.id s' = d.

(** One call of [dfs] (or a run of calls) that reports nothing. *)
Definition quiet (st st' : Consistency.DfsState) : Prop :=
  Consistency.found st' = Consistency.found st
  /\ Consistency.drawn st' = Consistency.drawn st.

(** The steps of a plan as the consistency check reads them. *)
Definition checkedSteps (out : Plan.BuildPlanOutput) : list Consistency.Step :=
  map (fun s => {| Consistency.id := Plan.stepId s;
                   Consistency.text_ := Plan.stepTitle s;
                   Consistency.dependsOn := Plan.stepDependsOn s |})
      (Plan.steps out).

(** Three steps in a row, each depending on the one before. *)
Definition chainedSteps : list Consistency.Step :=
  [ {| Consistency.id := str "s1"; Consistency.text_ := str "Collect";
       Consistency.dependsOn := [] |};
    {| Consistency.id := str "s2"; Consistency.text_ := str "Build";
       Consistency.dependsOn := [str "s1"] |};
    {| Consistency.id := str "s3"; Consistency.text_ := str "Verify";
       Consistency.dependsOn := [str "s1"; str "s2"] |} ].

(** The rows the [build_plan] tool stores for the steps of a plan, as
    they are read back (the columns that do not come from the plan are
    parameters). *)
Definition planRecords (planId sessionId updatedAt : text) (out : Plan.BuildPlanOutput)
    : list Storage.PlanStepRecord :=
  map (fun step =>
         {| Storage.stepId := Plan.stepId step;
            Storage.planId := planId;
            Storage.stepSessionId := sessionId;
            Storage.orderIndex := Plan.order step;
            Storage.title := Plan.stepTitle step;
            Storage.objective := Plan.objective step;
            Storage.dependsOn := Plan.stepDependsOn step;
            Storage.status := Plan.pending;
            Storage.verification := Plan.verification step;
            Storage.risk := Plan.risk step;
            Storage.stepNote := None;
            Storage.stepUpdatedAt := updatedAt |})
      (Plan.steps out).

(** A consistency check of the stored plan of [fastestInput], without a
    draft, for the two dependency targets. *)
Definition storedPlanCheck : Consistency.ConsistencyCheckInput :=
  {| Consistency.draft := None;
     Consistency.checkTargets := Some [Consistency.missing_steps; Consistency.circular_deps];
     Consistency.normalizedGoal := Some (str "Ship the release");
     Consistency.sessionPlanSteps :=
       Some (planRecords (str "plan_1") (str "session_1") (str "2024-01-01T00:00:00.000Z")
               (Plan.buildPlan fastestInput));
     Consistency.sessionAssumptions := None;
     Consistency.recentDecisionLogs := None;
     Consistency.policy := POLICY_BY_MODE balanced |}.

(** The key under which [dedupeCandidates] remembers a candidate. *)
Definition candidateKey (c : NextAction.Candidate) : text :=
  NextAction.typeName (NextAction.type c) ++ str "|"
  ++ default [] (NextAction.targetStepId c).

(** The action types in the order in which [buildCandidates] proposes them. *)
Definition proposalOrder : list NextAction.ActionType :=
  [ NextAction.resolve_blocker; NextAction.verify_assumption; NextAction.execute_step;
    NextAction.gather_evidence; NextAction.revise_plan; NextAction.run_review ].

Global Instance ActionType_eq_dec : EqDecision NextAction.ActionType.
Proof. solve_decision. Defined.

(** The least positive double; the doubles that matter here are its
    integer multiples. *)
Definition leastDouble : Q := Number.pow2 (-1074).

Definition onGrid (x : Q) : Prop := exists n : Z, (x == inject_Z n * leastDouble)%Q.

(** Weights and scores on which the exact weighted total lands on 7.45:
    in floating point it comes out just below and rounds to 7.4. *)
Definition boundaryWeights (c : Critic.CriticCategory) : option Number.Double :=
  match c with
  | Critic.correctness => Some {| Number.value := 29 # 8; Number.representable := eq_refl |}
  | Critic.completeness => Some {| Number.value := 31 # 8; Number.representable := eq_refl |}
  | Critic.riskCategory => Some {| Number.value := 9 # 4; Number.representable := eq_refl |}
  | _ => Some {| Number.value := 0; Number.representable := eq_refl |}
  end.

Definition boundaryScores (c : Critic.CriticCategory) : Z :=
  match c with
  | Critic.correctness => 65
  | Critic.completeness => 86
  | Critic.riskCategory => 70
  | Critic.testability => 85
  | Critic.simplicity => 80
  | Critic.maintainability => 90
  end.

(* ===================================================================== *)
(** ** Vocabulary: identifiers and policy bounds of the entry points *)
(* ===================================================================== *)

(** A text that went through [sanitizeText] with the cap [maxChars]. *)
Definition sanitizedTo (maxChars : Z) (t : text) : Prop :=
  exists source, t = sanitizeText source maxChars.

(** An issue with another identifier, and with its identifier blanked. *)
Definition withIssueId (i : text) (s : Consistency.ConsistencyIssue)
    : Consistency.ConsistencyIssue :=
  {| Consistency.issueId := i;
     Consistency.issueType := Consistency.issueType s;
     Consistency.severity := Consistency.severity s;
     Consistency.description := Consistency.description s;
     Consistency.affectedItems := Consistency.affectedItems s;
     Consistency.suggestedFix := Consistency.suggestedFix s |}.

Definition withoutIssueId (s : Consistency.ConsistencyIssue) : Consistency.ConsistencyIssue :=
  withIssueId [] s.

(** A check result with the identifiers of its issues blanked. *)
Definition withoutIssueIds (o : Consistency.ConsistencyCheckOutput)
    : Consistency.ConsistencyCheckOutput :=
  {| Consistency.issues := map withoutIssueId (Consistency.issues o);
     Consistency.summary := Consistency.summary o |}.

(** The issues [shapes], the one at position [k] under the identifier
    drawn as the [(n + k)]-th of the stream. *)
Definition numberIssues (randomUUID : nat -> text) (n : nat)
    (shapes : list Consistency.ConsistencyIssue) : list Consistency.ConsistencyIssue :=
  imap (fun k s => withIssueId (str "issue_" ++ randomUUID (n + k)) s) shapes.

(** The bounds that an issue made under the policy [p] observes. *)
Definition issueWithin (p : ResponsePolicy) (i : Consistency.ConsistencyIssue) : Prop :=
  sanitizedTo (textMaxChars p) (Consistency.description i)
  /\ sanitizedTo (textMaxChars p) (Consistency.suggestedFix i)
  /\ withinItems (maxGenericItems p) (Consistency.affectedItems i)
  /\ Forall (sanitizedTo (textMaxChars p)) (Consistency.affectedItems i).

(** A check that draws one identifier per issue, in the order of the
    issues, and whose issues are otherwise the same for every stream of
    identifiers and within the bounds of the policy [p]. *)
Definition Numbered (p : ResponsePolicy)
    (check : (nat -> text) -> IdGen (list Consistency.ConsistencyIssue)) : Prop :=
  exists shapes,
    Forall (issueWithin p) shapes
    /\ forall randomUUID n,
         check randomUUID n = (numberIssues randomUUID n shapes, n + length shapes).

(** The stream that is used as the reference: every identifier empty. *)
Definition noIds : nat -> text := fun _ => [].

(** The state of a cycle detection on the stream [randomUUID], begun
    after [n] draws, next to the state [ref] of the same detection on
    another stream: the same sets, the same issues apart from their
    identifiers, which are those drawn from position [n] on; the issues
    are within the bounds of the policy [p]. *)
Definition sameTraversal (p : ResponsePolicy) (randomUUID : nat -> text) (n : nat)
    (st ref : Consistency.DfsState) : Prop :=
  Forall (issueWithin p) (Consistency.found ref)
  /\ Consistency.visited st = Consistency.visited ref
  /\ Consistency.stack st = Consistency.stack ref
  /\ Consistency.found st
     = numberIssues randomUUID n (map withoutIssueId (Consistency.found ref))
  /\ Consistency.drawn st = n + length (Consistency.found ref).

Definition sameOutcome (p : ResponsePolicy) (randomUUID : nat -> text) (n : nat)
    (o ref : option Consistency.DfsState) : Prop :=
  match o, ref with
  | Some st, Some st' => sameTraversal p randomUUID n st st'
  | None, None => True
  | _, _ => False
  end.

(** The seven entry points of the engine, each with its input, and
    their results. *)
Inductive EntryPoint :=
  | AnalyzeTask (input : Analyze.AnalyzeTaskInput)
  | DecomposeTask (input : Decompose.DecomposeTaskInput)
  | BuildPlan (input : Plan.BuildPlanInput)
  | RunConsistencyCheck (input : Consistency.ConsistencyCheckInput)
  | RunCriticReview (input : Critic.CriticInput)
  | SelectNextBestAction (input : NextAction.NextActionInput)
  | CompactReasoningState (input : Compact.CompactStateInput).

Inductive Result :=
  | Analysis (out : Analyze.AnalyzeTaskOutput)
  | Decomposition (out : Decompose.DecomposeTaskOutput)
  | BuiltPlan (out : Plan.BuildPlanOutput)
  | ConsistencyCheck (out : Consistency.ConsistencyCheckOutput)
  | CriticReview (out : Critic.CriticOutput)
  | NextBestAction (out : NextAction.NextActionOutput)
  | CompactState (out : option Compact.CompactStateOutput).

(** A call of an entry point, on the stream [randomUUID] of identifiers
    and under the collation [localeCompare] of the host.  Only
    [analyzeTask] and [runConsistencyCheck] draw identifiers. *)
Definition call (randomUUID : nat -> text) (localeCompare : text -> text -> Z)
    (e : EntryPoint) : IdGen Result :=
  match e with
  | AnalyzeTask input => out ← Analyze.analyzeTask randomUUID input; mret (Analysis out)
  | DecomposeTask input => mret (Decomposition (Decompose.decomposeTask input))
  | BuildPlan input => mret (BuiltPlan (Plan.buildPlan input))
  | RunConsistencyCheck input =>
      out ← Consistency.runConsistencyCheck randomUUID input; mret (ConsistencyCheck out)
  | RunCriticReview input => mret (CriticReview (Critic.runCriticReview input))
  | SelectNextBestAction input =>
      mret (NextBestAction (NextAction.selectNextBestAction localeCompare input))
  | CompactReasoningState input => mret (CompactState (Compact.compactReasoningState input))
  end.

(** A result with the generated identifiers blanked, and the generated
    identifiers of a result, in the order of its risks or issues. *)
Definition withoutIds (r : Result) : Result :=
  match r with
  | Analysis out => Analysis (withoutRiskIds out)
  | ConsistencyCheck out => ConsistencyCheck (withoutIssueIds out)
  | _ => r
  end.

Definition idsOf (r : Result) : list text :=
  match r with
  | Analysis out => map Analyze.riskId (Analyze.risks out)
  | ConsistencyCheck out => map Consistency.issueId (Consistency.issues out)
  | _ => []
  end.












(* ===================================================================== *)
(** * Properties *)
(* ===================================================================== *)

(** ** Text utilities *)

Lemma str_inj (a b : string) : str a = str b -> a = b.
Proof.
  unfold str. intros H.
  rewrite <- (string_of_list_ascii_of_string a), <- (string_of_list_ascii_of_string b).
  by rewrite H.
Qed.

Lemma showNat_inj (n m : nat) : Js.showNat n = Js.showNat m -> n = m.
Proof.
  unfold Js.showNat. intros H%str_inj.
  assert (Hu : Nat.to_uint n = Nat.to_uint m).
  { apply (inj Some). by rewrite <- !NilEmpty.usu, H. }
  by rewrite <- (DecimalNat.Unsigned.of_to n), <- (DecimalNat.Unsigned.of_to m), Hu.
Qed.

Lemma mapOf_snoc {V} (l : list (text * V)) (k : text) (v : V) :
  Js.mapOf (l ++ [(k, v)]) = <[k := v]> (Js.mapOf l).
Proof. unfold Js.mapOf. by rewrite foldl_app. Qed.

Lemma mapOf_lookup_Some {V} (l : list (text * V)) (k : text) (v : V) :
  Js.mapOf l !! k = Some v -> (k, v) ∈ l.
Proof.
  induction l as [|[k' v'] l IH] using rev_ind.
  - unfold Js.mapOf. simpl. by rewrite lookup_empty.
  - rewrite mapOf_snoc. destruct (decide (k' = k)) as [->|Hne].
    + rewrite lookup_insert_eq. intros [= ->]. set_solver.
    + rewrite lookup_insert_ne by done. set_solver.
Qed.

Lemma mapOf_lookup_None {V} (l : list (text * V)) (k : text) :
  Js.mapOf l !! k = None <-> forall v, (k, v) ∉ l.
Proof.
  induction l as [|[k' v'] l IH] using rev_ind.
  - unfold Js.mapOf. simpl. rewrite lookup_empty. set_solver.
  - rewrite mapOf_snoc. destruct (decide (k' = k)) as [->|Hne].
    + rewrite lookup_insert_eq. split; [done|]. intros H. destruct (H v'). set_solver.
    + rewrite lookup_insert_ne by done. rewrite IH. split.
      * intros H v Hin. apply elem_of_app in Hin as [Hin|Hin]; [by eapply H|].
        apply list_elem_of_singleton in Hin. congruence.
      * intros H v Hin. apply (H v). set_solver.
Qed.

(** ** Plan Builder *)

Lemma stepIdByIndex_inj (i j : nat) : Plan.stepIdByIndex i = Plan.stepIdByIndex j -> i = j.
Proof.
  unfold Plan.stepIdByIndex. intros H%app_inv_head%showNat_inj. lia.
Qed.

Section IndexMap.

Context {A : Type} (idOf : A -> text).

Lemma indexMap_snoc (l : list A) (x : A) :
  Js.mapOf (imap (fun index item => (idOf item, index)) (l ++ [x]))
  = <[idOf x := length l]> (Js.mapOf (imap (fun index item => (idOf item, index)) l)).
Proof.
  rewrite imap_app. simpl. rewrite mapOf_snoc. by rewrite Nat.add_0_r.
Qed.

Lemma indexMap_None (l : list A) (d : text) :
  Js.mapOf (imap (fun index item => (idOf item, index)) l) !! d = None
  <-> forall item, item ∈ l -> idOf item <> d.
Proof.
  induction l as [|x l IH] using rev_ind.
  - unfold Js.mapOf. simpl. rewrite lookup_empty. split; [|done].
    by intros _ item ?%elem_of_nil.
  - rewrite indexMap_snoc. destruct (decide (idOf x = d)) as [<-|Hne].
    + rewrite lookup_insert_eq. split; [done|]. intros H. destruct (H x); [|done].
      apply elem_of_app. right. by left.
    + rewrite lookup_insert_ne by done. rewrite IH. split.
      * intros H item [Hin | ->%list_elem_of_singleton]%elem_of_app; [by apply H|done].
      * intros H item Hin. apply H, elem_of_app. by left.
Qed.

Lemma indexMap_Some (l : list A) (d : text) (j : nat) :
  Js.mapOf (imap (fun index item => (idOf item, index)) l) !! d = Some j
  <-> lastPosition idOf l d j.
Proof.
  unfold lastPosition. revert j.
  induction l as [|x l IH] using rev_ind; intros j.
  - unfold Js.mapOf. simpl. rewrite lookup_empty.
    split; [done|]. intros [(item & H & _) _]. by rewrite lookup_nil in H.
  - rewrite indexMap_snoc. destruct (decide (idOf x = d)) as [<-|Hne].
    + rewrite lookup_insert_eq. split.
      * intros [= <-]. split.
        -- exists x. split; [|done]. by rewrite lookup_app_r, Nat.sub_diag by lia.
        -- intros j' item' Hlt Hl. apply lookup_lt_Some in Hl.
           rewrite length_app in Hl. simpl in Hl. lia.
      * intros [(item & Hl & Hid) Hlast]. f_equal.
        destruct (decide (j < length l)) as [Hlt|Hge].
        -- exfalso. apply (Hlast (length l) x Hlt); [|done].
           by rewrite lookup_app_r, Nat.sub_diag by lia.
        -- apply lookup_lt_Some in Hl. rewrite length_app in Hl. simpl in Hl. lia.
    + rewrite lookup_insert_ne by done. rewrite IH. split.
      * intros [(item & Hl & Hid) Hlast]. split.
        -- exists item. split; [|done]. by apply lookup_app_l_Some.
        -- intros j' item' Hlt Hl'. destruct (decide (j' < length l)) as [Hj|Hj].
           ++ rewrite lookup_app_l in Hl' by done. by eapply Hlast.
           ++ rewrite lookup_app_r in Hl' by lia.
              destruct (j' - length l) as [|n] eqn:E; simpl in Hl'; [|by rewrite lookup_nil in Hl'].
              by injection Hl' as <-.
      * intros [(item & Hl & Hid) Hlast].
        assert (Hj : j < length l).
        { destruct (decide (j < length l)) as [|Hge]; [done|].
          rewrite lookup_app_r in Hl by lia.
          destruct (j - length l) as [|n] eqn:E; simpl in Hl; [|by rewrite lookup_nil in Hl].
          injection Hl as <-. done. }
        split.
        -- exists item. split; [|done]. by rewrite lookup_app_l in Hl.
        -- intros j' item' Hlt Hl'. apply (Hlast j' item' Hlt). by apply lookup_app_l_Some.
Qed.

End IndexMap.

Lemma indexById_Some (ordered : list Plan.NormalizedSubtask) (d : text) (j : nat) :
  Plan.indexById ordered !! d = Some j <-> resolvesTo ordered d j.
Proof. apply indexMap_Some. Qed.

Lemma earlierDependencies_elem (deps : list text) (ordered : list Plan.NormalizedSubtask)
    (i : nat) (d : text) :
  d ∈ earlierDependencies deps ordered i <->
  exists dep j, dep ∈ deps /\ resolvesTo ordered dep j /\ j < i /\ d = Plan.stepIdByIndex j.
Proof.
  unfold earlierDependencies. rewrite list_elem_of_fmap. split.
  - intros (j & -> & Hj). apply list_elem_of_filter in Hj as [Hlt Hj].
    apply list_elem_of_omap in Hj as (dep & Hdep & Hl).
    exists dep, j. by rewrite <- indexById_Some.
  - intros (dep & j & Hdep & Hres & Hlt & ->). exists j. split; [done|].
    apply list_elem_of_filter. split; [done|].
    apply list_elem_of_omap. exists dep. by rewrite indexById_Some.
Qed.

Lemma resolveStepDependencies_earlier (deps : list text)
    (ordered : list Plan.NormalizedSubtask) (i : nat) (d : text) :
  d ∈ Plan.resolveStepDependencies deps ordered i ->
  exists j, j < i /\ d = Plan.stepIdByIndex j.
Proof.
  unfold Plan.resolveStepDependencies.
  fold (earlierDependencies deps ordered i).
  destruct (decide (0 < length (earlierDependencies deps ordered i))) as [Hpos|Hpos].
  - intros (dep & j & _ & _ & Hlt & ->)%earlierDependencies_elem. eauto.
  - destruct (decide (i = 0)) as [->|Hi].
    + by intros ?%elem_of_nil.
    + intros ->%list_elem_of_singleton. exists (i - 1). split; [lia|done].
Qed.

Lemma buildPlan_steps_lookup (input : Plan.BuildPlanInput) (i : nat) (s : Plan.Step) :
  Plan.steps (Plan.buildPlan input) !! i = Some s <->
  exists sub, Plan.orderedSubtasks input !! i = Some sub
              /\ s = Plan.makeStep input (Plan.orderedSubtasks input) i sub.
Proof.
  unfold Plan.buildPlan. simpl. rewrite list_lookup_imap.
  destruct (Plan.orderedSubtasks input !! i) as [sub|]; simpl.
  - split; [intros [= <-]; eauto | intros (sub' & [= <-] & ->); done].
  - split; [done | intros (? & ? & _); done].
Qed.

Lemma buildPlan_steps_elem (input : Plan.BuildPlanInput) (s : Plan.Step) :
  s ∈ Plan.steps (Plan.buildPlan input) ->
  exists i sub, Plan.orderedSubtasks input !! i = Some sub
                /\ s = Plan.makeStep input (Plan.orderedSubtasks input) i sub.
Proof.
  intros (i & Hi)%list_elem_of_lookup. exists i. by apply buildPlan_steps_lookup.
Qed.

Lemma dependsEdge_decreases (input : Plan.BuildPlanInput) (a b : text) :
  dependsEdge (Plan.buildPlan input) a b ->
  exists i j, a = Plan.stepIdByIndex i /\ b = Plan.stepIdByIndex j /\ j < i.
Proof.
  intros (s & s' & Hs & _ & <- & _ & Hb).
  apply buildPlan_steps_elem in Hs as (i & sub & _ & ->). simpl in *.
  apply resolveStepDependencies_earlier in Hb as (j & Hlt & ->). eauto.
Qed.

Lemma dependsPath_decreases (input : Plan.BuildPlanInput) (a b : text) :
  tc (dependsEdge (Plan.buildPlan input)) a b ->
  exists i j, a = Plan.stepIdByIndex i /\ b = Plan.stepIdByIndex j /\ j < i.
Proof.
  induction 1 as [a b Hab | a b c Hab _ IH].
  - by apply (dependsEdge_decreases input).
  - apply (dependsEdge_decreases input) in Hab as (i & j & -> & -> & Hji).
    destruct IH as (j' & k & Hj & -> & Hkj). apply stepIdByIndex_inj in Hj as <-.
    exists i, k. repeat split; lia.
Qed.

(** C1. The step dependency graph of every plan built by [buildPlan] has
    no cycle, and every id in a step's [dependsOn] names a step of the plan
    whose order index is strictly smaller than that of the dependent
    step. *)
Theorem buildPlan_acyclic (input : Plan.BuildPlanInput) :
  (forall a, ~ tc (dependsEdge (Plan.buildPlan input)) a a)
  /\ (forall s d, s ∈ Plan.steps (Plan.buildPlan input) -> d ∈ Plan.stepDependsOn s ->
        exists s', s' ∈ Plan.steps (Plan.buildPlan input)
                   /\ Plan.stepId s' = d /\ Plan.order s' < Plan.order s).
Proof.
  split.
  - intros a (i & j & -> & Hij & Hlt)%(dependsPath_decreases input).
    apply stepIdByIndex_inj in Hij. lia.
  - intros s d Hs Hd.
    apply buildPlan_steps_elem in Hs as (i & sub & Hi & ->). simpl in *.
    apply resolveStepDependencies_earlier in Hd as (j & Hlt & ->).
    assert (Hj : j < length (Plan.orderedSubtasks input)).
    { apply lookup_lt_Some in Hi. lia. }
    apply lookup_lt_is_Some in Hj as [sub' Hj].
    exists (Plan.makeStep input (Plan.orderedSubtasks input) j sub'). split; [|split].
    + apply list_elem_of_lookup. exists j. apply buildPlan_steps_lookup. eauto.
    + done.
    + simpl. lia.
Qed.

(** *** The depth-first ordering *)

Section TopologicalOrder.

Variable byId : gmap text Plan.NormalizedSubtask.
Hypothesis byId_key : forall k n, byId !! k = Some n -> Plan.id n = k.

Lemma topoStep_refl (st : Plan.TopoState) : topoStep byId st st.
Proof. unfold topoStep. split; [done|]. split; [done|]. split; [by left|done]. Qed.

Lemma topoStep_trans (st1 st2 st3 : Plan.TopoState) :
  topoStep byId st1 st2 -> topoStep byId st2 st3 -> topoStep byId st1 st3.
Proof.
  intros (Hv1 & Hs1 & Hn1 & Hi1) (Hv2 & Hs2 & Hn2 & Hi2).
  unfold topoStep. split; [congruence|]. split; [set_solver|]. split; [|auto].
  intros x Hx. destruct (Hn2 x Hx) as [Hx2|Hx2]; [auto|].
  right. by rewrite <- Hv1.
Qed.

Lemma visitDeps_spec (v : text -> Plan.TopoState -> option Plan.TopoState)
    (W : gset text) (deps : list text) :
  (forall d st, Plan.visiting st = W ->
     exists st', v d st = Some st' /\ topoStep byId st st') ->
  forall st, Plan.visiting st = W ->
    exists st', Plan.visitDeps byId v deps st = Some st' /\ topoStep byId st st'.
Proof.
  intros Hv. induction deps as [|d deps IH]; intros st HW; simpl.
  - exists st. split; [done|apply topoStep_refl].
  - destruct (decide (is_Some (byId !! d))) as [_|_]; [|by apply IH].
    destruct (Hv d st HW) as (st1 & -> & Hstep1).
    destruct (IH st1) as (st2 & -> & Hstep2).
    { destruct Hstep1 as (-> & _). done. }
    exists st2. split; [done|]. by eapply topoStep_trans.
Qed.

Lemma size_remaining_lt (V : gset text) (i : text) :
  i ∈ dom byId -> i ∉ V ->
  S (size (dom byId ∖ ({[ i ]} ∪ V))) = size (dom byId ∖ V).
Proof.
  intros Hi HV.
  assert (Heq : dom byId ∖ V = {[ i ]} ∪ dom byId ∖ ({[ i ]} ∪ V)).
  { apply set_eq. intros x. rewrite !elem_of_union, !elem_of_difference, elem_of_union,
      elem_of_singleton. destruct (decide (x = i)) as [->|]; naive_solver. }
  rewrite Heq, (size_union {[ i ]} (dom byId ∖ ({[ i ]} ∪ V))), size_singleton; [done|].
  set_solver.
Qed.

Lemma visit_spec (fuel : nat) : forall (i : text) (st : Plan.TopoState),
  size (dom byId ∖ Plan.visiting st) < fuel ->
  exists st', Plan.visit byId fuel i st = Some st'
              /\ topoStep byId st st'
              /\ (is_Some (byId !! i) -> i ∉ Plan.visiting st -> i ∈ Plan.visited st').
Proof.
  induction fuel as [|fuel IH]; intros i st Hfuel; [lia|]. simpl.
  destruct (decide (i ∈ Plan.visited st)) as [Hvis|Hvis].
  { exists st. split; [done|]. split; [apply topoStep_refl|done]. }
  destruct (decide (i ∈ Plan.visiting st)) as [Hing|Hing].
  { exists st. split; [done|]. split; [apply topoStep_refl|done]. }
  destruct (byId !! i) as [node|] eqn:Hnode.
  - pose proof (byId_key _ _ Hnode) as Hid.
    assert (Hdom : i ∈ dom byId) by (apply elem_of_dom; eauto).
    set (st1 := {| Plan.visited := Plan.visited st;
                   Plan.visiting := {[ i ]} ∪ Plan.visiting st;
                   Plan.ordered := Plan.ordered st |}).
    destruct (visitDeps_spec (Plan.visit byId fuel) ({[ i ]} ∪ Plan.visiting st)
                (Plan.dependsOn node)) with (st := st1) as (st2 & -> & Hstep); [|done|].
    { intros d st0 HW. destruct (IH d st0) as (st0' & Hrun & Hst & _).
      - rewrite HW. pose proof (size_remaining_lt (Plan.visiting st) i Hdom Hing). lia.
      - eauto. }
    destruct Hstep as (Hving & Hsub & Hnew & Hinv1). simpl in *.
    assert (Hinv : TopoInv byId st -> TopoInv byId st2).
    { intros [? ? ?]. apply Hinv1. by split. }
    assert (Hfresh : i ∉ Plan.visited st2).
    { intros Hin. destruct (Hnew i Hin) as [?|Hout]; [done|]. apply Hout. set_solver. }
    eexists. split; [done|]. split; [|intros _ _; simpl; set_solver].
    unfold topoStep. simpl. split; [|split; [|split; [|intros H; split]]].
    + rewrite Hving. apply set_eq. intros x. set_solver.
    + set_solver.
    + intros x [->%elem_of_singleton|Hx]%elem_of_union; [by right|].
      destruct (Hnew x Hx) as [?|Hout]; [by left|]. right. set_solver.
    + intros x. simpl. rewrite map_app, elem_of_app, elem_of_union. simpl.
      rewrite list_elem_of_singleton, elem_of_singleton, Hid.
      destruct (Hinv H) as [Hv _ _]. rewrite Hv. tauto.
    + simpl. rewrite map_app. simpl. apply NoDup_app. destruct (Hinv H) as [Hv Hnd _].
      split; [done|]. split; [|apply NoDup_singleton].
      intros x Hx ->%list_elem_of_singleton. apply Hfresh. rewrite Hv. by rewrite <- Hid.
    + simpl. intros n [Hn | ->%list_elem_of_singleton]%elem_of_app.
      * by apply (inv_nodes _ _ (Hinv H)).
      * by rewrite Hid.
  - eexists. split; [done|]. split; [|by intros [? ?]].
    unfold topoStep. simpl. split; [|split; [done|split; [by left|]]].
    + apply set_eq. intros x. set_solver.
    + intros [? ? ?]. by split.
Qed.

Lemma visitAll_spec (fuel : nat) (subtasks : list Plan.NormalizedSubtask) :
  size (dom byId) < fuel ->
  (forall s, s ∈ subtasks -> is_Some (byId !! Plan.id s)) ->
  forall st, Plan.visiting st = ∅ ->
    exists st', Plan.visitAll byId fuel subtasks st = Some st'
                /\ topoStep byId st st'
                /\ (forall s, s ∈ subtasks -> Plan.id s ∈ Plan.visited st').
Proof.
  intros Hfuel. induction subtasks as [|s rest IH]; intros Hkeys st Hempty; simpl.
  - exists st. split; [done|]. split; [apply topoStep_refl|]. by intros s ?%elem_of_nil.
  - destruct (visit_spec fuel (Plan.id s) st) as (st1 & -> & Hstep1 & Hin1).
    { rewrite Hempty. replace (dom byId ∖ ∅) with (dom byId) by set_solver. done. }
    destruct (IH (fun s' Hs' => Hkeys s' (list_elem_of_further _ _ _ Hs')) st1)
      as (st2 & -> & Hstep2 & Hin2).
    { destruct Hstep1 as (-> & _). done. }
    exists st2. split; [done|]. split; [by eapply topoStep_trans|].
    intros s' [-> | Hs']%elem_of_cons; [|by apply Hin2].
    destruct Hstep2 as (_ & Hsub & _). apply Hsub, Hin1.
    + apply Hkeys. by left.
    + rewrite Hempty. set_solver.
Qed.

End TopologicalOrder.

Lemma mapOf_size {V} (l : list (text * V)) : size (Js.mapOf l) <= length l.
Proof.
  induction l as [|[k v] l IH] using rev_ind.
  - unfold Js.mapOf. simpl. by rewrite map_size_empty.
  - rewrite mapOf_snoc, length_app, map_size_insert. simpl.
    destruct (Js.mapOf l !! k); simpl; lia.
Qed.

Lemma byIdOf_lookup (subtasks : list Plan.NormalizedSubtask) (k : text)
    (n : Plan.NormalizedSubtask) :
  Plan.byIdOf subtasks !! k = Some n -> Plan.id n = k /\ n ∈ subtasks.
Proof.
  intros H%mapOf_lookup_Some. apply list_elem_of_fmap in H as (s & [= -> ->] & Hs). done.
Qed.

Lemma byIdOf_has (subtasks : list Plan.NormalizedSubtask) (s : Plan.NormalizedSubtask) :
  s ∈ subtasks -> is_Some (Plan.byIdOf subtasks !! Plan.id s).
Proof.
  intros Hs. destruct (Plan.byIdOf subtasks !! Plan.id s) eqn:E; [eauto|].
  unfold Plan.byIdOf in E. rewrite mapOf_lookup_None in E. destruct (E s).
  apply list_elem_of_fmap. eauto.
Qed.

Lemma topoInit_inv (byId : gmap text Plan.NormalizedSubtask) : TopoInv byId Plan.topoInit.
Proof.
  split; simpl.
  - intros x. split; [by intros ?%not_elem_of_empty | by intros ?%elem_of_nil].
  - apply NoDup_nil_2.
  - by intros n ?%elem_of_nil.
Qed.

(** The run of the ordering on a list of subtasks: the fuel granted by
    [topologicalOrder] suffices, and the final state satisfies the
    invariant and has visited every id of the list. *)
Lemma topologicalOrder_run (subtasks : list Plan.NormalizedSubtask) :
  exists st, Plan.visitAll (Plan.byIdOf subtasks) (S (length subtasks)) subtasks Plan.topoInit
             = Some st
             /\ Plan.topologicalOrder subtasks = Plan.ordered st
             /\ TopoInv (Plan.byIdOf subtasks) st
             /\ (forall s, s ∈ subtasks -> Plan.id s ∈ Plan.visited st).
Proof.
  destruct (visitAll_spec (Plan.byIdOf subtasks)
              (fun k n H => proj1 (byIdOf_lookup subtasks k n H))
              (S (length subtasks)) subtasks) with (st := Plan.topoInit)
    as (st & Hrun & (_ & _ & _ & Hinv) & Hall).
  - rewrite size_dom. unfold Plan.byIdOf.
    pose proof (mapOf_size (map (fun s => (Plan.id s, s)) subtasks)) as Hsz.
    rewrite length_map in Hsz. lia.
  - apply byIdOf_has.
  - done.
  - exists st. split; [done|]. split; [|split; [apply Hinv, topoInit_inv|done]].
    unfold Plan.topologicalOrder, Plan.topologicalOrderFuel. by rewrite Hrun.
Qed.

Lemma topologicalOrder_fuel (subtasks : list Plan.NormalizedSubtask) :
  Plan.topologicalOrderFuel (S (length subtasks)) subtasks
  = Some (Plan.topologicalOrder subtasks).
Proof.
  destruct (topologicalOrder_run subtasks) as (st & Hrun & -> & _).
  unfold Plan.topologicalOrderFuel. by rewrite Hrun.
Qed.

(** The output of the ordering never repeats an id, consists of subtasks
    of the input, and covers every id of the input. *)
Lemma topologicalOrder_ids (subtasks : list Plan.NormalizedSubtask) :
  NoDup (map Plan.id (Plan.topologicalOrder subtasks))
  /\ (forall n, n ∈ Plan.topologicalOrder subtasks ->
        n ∈ subtasks /\ Plan.byIdOf subtasks !! Plan.id n = Some n)
  /\ (forall s, s ∈ subtasks ->
        Plan.id s ∈ map Plan.id (Plan.topologicalOrder subtasks)).
Proof.
  destruct (topologicalOrder_run subtasks) as (st & _ & -> & [Hv Hnd Hnodes] & Hall).
  split; [done|]. split.
  - intros n Hn. pose proof (Hnodes n Hn) as Hl. split; [|done].
    by apply byIdOf_lookup in Hl as [_ ?].
  - intros s Hs. apply Hv. by apply Hall.
Qed.

(** C10 (amended). The ordering never runs out of fuel, and on a list of
    subtasks with pairwise distinct ids (whatever the dependencies are:
    cyclic, or naming unknown ids) it returns a permutation of the
    input. *)
Theorem topologicalOrder_permutation (subtasks : list Plan.NormalizedSubtask) :
  Plan.topologicalOrderFuel (S (length subtasks)) subtasks
  = Some (Plan.topologicalOrder subtasks)
  /\ (NoDup (map Plan.id subtasks) -> Plan.topologicalOrder subtasks ≡ₚ subtasks).
Proof.
  split; [apply topologicalOrder_fuel|]. intros Hdistinct.
  destruct (topologicalOrder_ids subtasks) as (Hnd & Hsub & Hcover).
  apply NoDup_Permutation.
  - by apply NoDup_fmap_1 in Hnd.
  - by apply NoDup_fmap_1 in Hdistinct.
  - intros x. split; [by intros [? _]%Hsub|].
    intros Hx. pose proof (Hcover x Hx) as Hc.
    apply list_elem_of_fmap in Hc as (n & Hid & Hn).
    destruct (Hsub n Hn) as [Hn' _].
    assert (x = n) as ->; [|done].
    apply list_elem_of_lookup in Hx as [i Hi]. apply list_elem_of_lookup in Hn' as [j Hj].
    assert (i = j) as ->; [|congruence].
    eapply NoDup_lookup; [exact Hdistinct| |]; rewrite list_lookup_fmap.
    + by rewrite Hi.
    + rewrite Hj. simpl. by rewrite Hid.
Qed.

Lemma topologicalOrder_permutation_witness :
  NoDup (map Plan.id (Plan.normalizeSubtasks [] None (POLICY_BY_MODE small)))
  /\ Plan.topologicalOrder (Plan.normalizeSubtasks [] None (POLICY_BY_MODE small))
     ≡ₚ Plan.normalizeSubtasks [] None (POLICY_BY_MODE small).
Proof.
  assert (Hnd : NoDup (map Plan.id (Plan.normalizeSubtasks [] None (POLICY_BY_MODE small)))).
  { apply (bool_decide_unpack _). vm_compute. exact I. }
  split; [exact Hnd|].
  exact (proj2 (topologicalOrder_permutation _) Hnd).
Defined.

(** C10, the claim as stated, fails: of two subtasks that share an id only
    the second reaches the output. *)
Lemma topologicalOrder_twins :
  Plan.topologicalOrder twinSubtasks = drop 1 twinSubtasks
  /\ length (Plan.topologicalOrder twinSubtasks) < length twinSubtasks
  /\ ~ Plan.topologicalOrder twinSubtasks ≡ₚ twinSubtasks.
Proof.
  assert (H : Plan.topologicalOrder twinSubtasks = drop 1 twinSubtasks) by (vm_compute; reflexivity).
  split; [exact H|]. rewrite H. split; [simpl; lia|].
  intros Hp%Permutation_length. simpl in Hp. lia.
Qed.

(** *** Remapping of dependencies *)

Lemma earlierDependencies_nil (deps : list text) (ordered : list Plan.NormalizedSubtask)
    (i : nat) :
  earlierDependencies deps ordered i = [] <->
  forall dep, dep ∈ deps -> unresolvedAt ordered i dep.
Proof.
  split.
  - intros Hnil dep Hdep (j & Hres & Hlt).
    assert (Hin : Plan.stepIdByIndex j ∈ earlierDependencies deps ordered i).
    { apply earlierDependencies_elem. eauto 10. }
    rewrite Hnil in Hin. by apply elem_of_nil in Hin.
  - intros Hall. destruct (earlierDependencies deps ordered i) as [|d l] eqn:E; [done|].
    assert (Hin : d ∈ earlierDependencies deps ordered i) by (rewrite E; left).
    apply earlierDependencies_elem in Hin as (dep & j & Hdep & Hres & Hlt & _).
    destruct (Hall dep Hdep). eauto.
Qed.

Lemma resolveStepDependencies_cases (deps : list text)
    (ordered : list Plan.NormalizedSubtask) (i : nat) :
  Plan.resolveStepDependencies deps ordered i =
  match earlierDependencies deps ordered i with
  | [] => predecessorOnly i
  | mapped => mapped
  end.
Proof.
  unfold Plan.resolveStepDependencies, predecessorOnly.
  fold (earlierDependencies deps ordered i).
  destruct (earlierDependencies deps ordered i) as [|d l]; simpl.
  - destruct (decide (0 < 0)); [lia|done].
  - destruct (decide (0 < S (length l))); [done|lia].
Qed.

(** C6 (amended). In [buildPlan] the declared dependencies of a step are
    remapped to final step ids, keeping exactly those that resolve to an
    earlier position of the ordered sequence, in declared order; the step
    falls back to its immediate predecessor (or to no dependency when it
    is first) exactly when none of its declared dependencies resolves to
    an earlier position. *)
Theorem buildPlan_dependencies (input : Plan.BuildPlanInput) (i : nat)
    (sub : Plan.NormalizedSubtask) (s : Plan.Step) :
  Plan.orderedSubtasks input !! i = Some sub ->
  Plan.steps (Plan.buildPlan input) !! i = Some s ->
  let ordered := Plan.orderedSubtasks input in
  ((exists dep j, dep ∈ Plan.dependsOn sub /\ resolvesTo ordered dep j /\ j < i) ->
     Plan.stepDependsOn s = earlierDependencies (Plan.dependsOn sub) ordered i
     /\ forall d, d ∈ Plan.stepDependsOn s <->
          exists dep j, dep ∈ Plan.dependsOn sub /\ resolvesTo ordered dep j /\ j < i
                        /\ d = Plan.stepIdByIndex j)
  /\ ((forall dep, dep ∈ Plan.dependsOn sub -> unresolvedAt ordered i dep) ->
        Plan.stepDependsOn s = predecessorOnly i).
Proof.
  intros Hsub Hs ordered. subst ordered.
  apply buildPlan_steps_lookup in Hs as (sub' & Hsub' & ->).
  assert (sub' = sub) as -> by congruence. simpl.
  rewrite resolveStepDependencies_cases. split.
  - intros (dep & j & Hdep & Hres & Hlt).
    destruct (earlierDependencies (Plan.dependsOn sub) (Plan.orderedSubtasks input) i)
      as [|d l] eqn:E.
    + exfalso. pose proof (proj1 (earlierDependencies_nil _ _ _) E) as E'.
      apply (E' dep Hdep). eauto.
    + split; [done|]. intros d'. rewrite <- E. apply earlierDependencies_elem.
  - intros Hall. by rewrite (proj2 (earlierDependencies_nil _ _ _) Hall).
Qed.

Lemma buildPlan_dependencies_witness :
  Plan.stepDependsOn
    (Plan.makeStep mixedInput (Plan.orderedSubtasks mixedInput) 2 mixedThird)
  = earlierDependencies (Plan.dependsOn mixedThird) (Plan.orderedSubtasks mixedInput) 2.
Proof.
  refine (proj1 (proj1 (buildPlan_dependencies mixedInput 2 mixedThird _ _ _) _)).
  - vm_compute. reflexivity.
  - vm_compute. reflexivity.
  - exists (str "a"), 0. split; [left|]. split; [|lia].
    apply indexById_Some. vm_compute. reflexivity.
Defined.

(** C6, the claim as stated, fails on a mix: the third step of
    [mixedInput] declares the unknown id [zzz], yet it depends on the
    first step and not on its immediate predecessor. *)
Lemma buildPlan_mixed_dependencies :
  exists sub s,
    Plan.orderedSubtasks mixedInput !! 2 = Some sub
    /\ Plan.steps (Plan.buildPlan mixedInput) !! 2 = Some s
    /\ str "zzz" ∈ Plan.dependsOn sub
    /\ unresolvedAt (Plan.orderedSubtasks mixedInput) 2 (str "zzz")
    /\ Plan.stepDependsOn s = [str "step_1"]
    /\ predecessorOnly 2 = [str "step_2"]
    /\ Plan.stepDependsOn s <> predecessorOnly 2.
Proof.
  eexists _, _. split; [vm_compute; reflexivity|]. split; [vm_compute; reflexivity|].
  split; [right; left|]. split.
  - intros (j & Hres%indexById_Some & _). vm_compute in Hres. discriminate.
  - split; [vm_compute; reflexivity|]. split; [vm_compute; reflexivity|].
    vm_compute. discriminate.
Qed.

(** ** Task Analyzer *)

(** C9. On the task of the end-to-end scenario, under the [small] policy
    and without context, [analyzeTask] classifies the task as
    [debugging]; its constraints are the two sentences that carry the
    markers [must] and [cannot] (matched, as the extractor matches them,
    on the lower-cased text); it reports unknowns; and the suggested
    workflow is the debugging workflow.  This holds for every stream of
    identifiers. *)
Theorem analyzeTask_debug_scenario (randomUUID : nat -> text) (n : nat) :
  let out := fst (Analyze.analyzeTask randomUUID debugScenario n) in
  Analyze.taskType out = Analyze.debugging
  /\ Analyze.outConstraints out = [str "Must use only SQLite"; str "Cannot use external APIs"]
  /\ (exists c, c ∈ Analyze.outConstraints out
                /\ Js.includes (Js.toLowerCase c) (str "must") = true)
  /\ (exists c, c ∈ Analyze.outConstraints out
                /\ Js.includes (Js.toLowerCase c) (str "cannot") = true)
  /\ 0 < length (Analyze.unknowns out)
  /\ Analyze.unknowns out
     = [ str "Target environment details are missing.";
         str "Task contains unresolved questions.";
         str "Explicit acceptance criteria are not stated." ]
  /\ Analyze.suggestedWorkflow out
     = [ str "decompose_task"; str "build_plan"; str "list_assumptions";
         str "consistency_check"; str "critic_review"; str "next_best_action" ].
Proof.
  intros out.
  assert (Ht : Analyze.taskType out = Analyze.debugging) by (vm_compute; reflexivity).
  assert (Hc : Analyze.outConstraints out
               = [str "Must use only SQLite"; str "Cannot use external APIs"])
    by (vm_compute; reflexivity).
  assert (Hu : Analyze.unknowns out
               = [ str "Target environment details are missing.";
                   str "Task contains unresolved questions.";
                   str "Explicit acceptance criteria are not stated." ])
    by (vm_compute; reflexivity).
  split; [exact Ht|]. split; [exact Hc|]. rewrite Hc, Hu.
  split; [exists (str "Must use only SQLite"); split; [left|vm_compute; reflexivity]|].
  split; [exists (str "Cannot use external APIs"); split; [right; left|vm_compute; reflexivity]|].
  split; [simpl; lia|]. split; [reflexivity|]. vm_compute. reflexivity.
Qed.

(** ** Stable sorting: the first element of a sorted array *)

Section SortHead.

Context {A : Type} (cmp : A -> A -> Z).
Hypothesis cmp_total : forall x y, (cmp x y <= 0)%Z \/ (cmp y x <= 0)%Z.
Hypothesis cmp_trans : forall x y z, (cmp x y <= 0)%Z -> (cmp y z <= 0)%Z -> (cmp x z <= 0)%Z.

Lemma insertBy_perm (x : A) (l : list A) : Js.insertBy cmp x l ≡ₚ x :: l.
Proof.
  induction l as [|y l IH]; simpl; [done|].
  destruct (cmp x y <=? 0)%Z; [done|]. rewrite IH. apply Permutation_swap.
Qed.

Lemma sortBy_cons (x : A) (l : list A) :
  Js.sortBy cmp (x :: l) = Js.insertBy cmp x (Js.sortBy cmp l).
Proof. reflexivity. Qed.

Lemma sortBy_perm (l : list A) : Js.sortBy cmp l ≡ₚ l.
Proof.
  induction l as [|x l IH]; [done|].
  by rewrite sortBy_cons, insertBy_perm, IH.
Qed.

Lemma sortBy_head_least (l : list A) (h : A) :
  head (Js.sortBy cmp l) = Some h -> forall x, x ∈ l -> (cmp h x <= 0)%Z.
Proof.
  revert h. induction l as [|y l IH]; intros h Hh x Hx; [by apply elem_of_nil in Hx|].
  rewrite sortBy_cons in Hh.
  assert (Hrefl : forall z, (cmp z z <= 0)%Z) by (intros z; by destruct (cmp_total z z)).
  pose proof (sortBy_perm l) as Hp.
  destruct (Js.sortBy cmp l) as [|m r] eqn:Es.
  - simpl in Hh. injection Hh as <-.
    apply Permutation_nil in Hp as ->.
    apply list_elem_of_singleton in Hx as ->. apply Hrefl.
  - simpl in Hh. specialize (IH m eq_refl).
    destruct (cmp y m <=? 0)%Z eqn:Ec; simpl in Hh; injection Hh as <-.
    + apply Z.leb_le in Ec. apply elem_of_cons in Hx as [->|Hx]; [apply Hrefl|].
      eapply cmp_trans; [exact Ec|]. by apply IH.
    + apply Z.leb_gt in Ec. apply elem_of_cons in Hx as [->|Hx]; [|by apply IH].
      destruct (cmp_total m y); [done|lia].
Qed.

Lemma sortBy_head_elem (l : list A) (h : A) :
  head (Js.sortBy cmp l) = Some h -> h ∈ l.
Proof.
  intros Hh. rewrite <- (sortBy_perm l).
  destruct (Js.sortBy cmp l); [done|]. injection Hh as <-. by left.
Qed.

Lemma sortBy_head_is_Some (l : list A) : l <> [] -> is_Some (head (Js.sortBy cmp l)).
Proof.
  intros Hl. destruct (Js.sortBy cmp l) as [|h r] eqn:E; [|by eexists].
  pose proof (sortBy_perm l) as Hp. rewrite E in Hp.
  by apply Permutation_nil in Hp.
Qed.

End SortHead.

(** ** Decomposer *)

Lemma omGet_None {V} (k : text) (m : list (text * V)) :
  k ∉ map fst m -> Js.omGet k m = None.
Proof.
  induction m as [|[k' v'] m IH]; simpl; [done|].
  intros Hk. destruct (decide (k' = k)) as [->|Hne].
  - destruct Hk. by left.
  - apply IH. intros Hin. apply Hk. by right.
Qed.

Lemma omSet_fresh {V} (k : text) (v : V) (m : list (text * V)) :
  k ∉ map fst m -> Js.omSet k v m = m ++ [(k, v)].
Proof.
  induction m as [|[k' v'] m IH]; simpl; [done|].
  intros Hk. destruct (decide (k' = k)) as [->|Hne].
  - destruct Hk. by left.
  - f_equal. apply IH. intros Hin. apply Hk. by right.
Qed.

Lemma bestPaths_snoc (l : list Decompose.Subtask) (x : Decompose.Subtask) :
  exists best, Decompose.bestPaths (l ++ [x])
               = Js.omSet (Decompose.id x) (best ++ [Decompose.id x]) (Decompose.bestPaths l).
Proof. unfold Decompose.bestPaths. rewrite foldl_app. simpl. eauto. Qed.

(** With pairwise distinct ids, the map of best paths holds one entry per
    subtask, in order, and the path of an entry ends in its subtask. *)
Lemma bestPaths_shape (l : list Decompose.Subtask) :
  NoDup (map Decompose.id l) ->
  map fst (Decompose.bestPaths l) = map Decompose.id l
  /\ Forall (fun kp => last (snd kp) = Some (fst kp)) (Decompose.bestPaths l).
Proof.
  induction l as [|x l IH] using rev_ind; intros Hnd; [by split|].
  rewrite map_app in Hnd. apply NoDup_app in Hnd as (Hnd & Hfresh & _).
  destruct (IH Hnd) as [Hkeys Hlast].
  destruct (bestPaths_snoc l x) as [best ->].
  assert (Hx : Decompose.id x ∉ map fst (Decompose.bestPaths l)).
  { rewrite Hkeys. intros Hin. apply (Hfresh _ Hin). simpl. by left. }
  rewrite omSet_fresh by done. split.
  - by rewrite !map_app, Hkeys.
  - apply Forall_app. split; [done|]. apply Forall_singleton. simpl. by rewrite last_snoc.
Qed.

Lemma candidate_lookup (l : list Decompose.Subtask) (j : nat) (p : list text) :
  NoDup (map Decompose.id l) ->
  map snd (Decompose.bestPaths l) !! j = Some p ->
  exists s, l !! j = Some s /\ last p = Some (Decompose.id s)
            /\ Decompose.lastIndex l p = j.
Proof.
  intros Hnd Hp. destruct (bestPaths_shape l Hnd) as [Hkeys Hlast].
  rewrite list_lookup_fmap in Hp.
  destruct (Decompose.bestPaths l !! j) as [[k p']|] eqn:Ej; [|done].
  simpl in Hp. injection Hp as ->.
  assert (Hk : map fst (Decompose.bestPaths l) !! j = Some k).
  { by rewrite list_lookup_fmap, Ej. }
  rewrite Hkeys, list_lookup_fmap in Hk.
  destruct (l !! j) as [s|] eqn:Es; [|done]. simpl in Hk. injection Hk as <-.
  pose proof (proj1 (Forall_lookup _ _) Hlast j _ Ej) as Hl. simpl in Hl.
  exists s. split; [done|]. split; [done|].
  unfold Decompose.lastIndex. rewrite Hl. simpl.
  assert (Hidx : Decompose.indexById l !! Decompose.id s = Some j); [|by rewrite Hidx].
  apply indexMap_Some. split; [eauto|].
  intros j' s' Hlt Hs' Heq.
  assert (j' = j); [|lia].
  eapply NoDup_lookup; [exact Hnd| |]; rewrite list_lookup_fmap.
  - by rewrite Hs'; simpl; rewrite Heq.
  - by rewrite Es.
Qed.

Lemma comparePaths_total (l : list Decompose.Subtask) (a b : list text) :
  (Decompose.comparePaths l a b <= 0)%Z \/ (Decompose.comparePaths l b a <= 0)%Z.
Proof. unfold Decompose.comparePaths. repeat case_decide; lia. Qed.

Lemma comparePaths_trans (l : list Decompose.Subtask) (a b c : list text) :
  (Decompose.comparePaths l a b <= 0)%Z -> (Decompose.comparePaths l b c <= 0)%Z ->
  (Decompose.comparePaths l a c <= 0)%Z.
Proof. unfold Decompose.comparePaths. repeat case_decide; lia. Qed.

Lemma applyDependencies_ids (l : list Decompose.Subtask) (m : Decompose.DecompositionMode) :
  map Decompose.id (Decompose.applyDependencies l m) = map Decompose.id l.
Proof.
  unfold Decompose.applyDependencies.
  repeat case_decide; try done;
    (apply list_eq; intros i; rewrite !list_lookup_fmap, list_lookup_imap;
     destruct (l !! i) as [s|]; simpl; [|done]; repeat case_decide; done).
Qed.

Lemma imap_const_NoDup {A B} (g : nat -> B) (l : list A) :
  (forall i j, g i = g j -> i = j) -> NoDup (imap (fun i _ => g i) l).
Proof.
  intros Hinj. apply NoDup_alt. intros i j y Hi Hj.
  rewrite list_lookup_imap in Hi. rewrite list_lookup_imap in Hj.
  destruct (l !! i); [|done]. destruct (l !! j); [|done]. simpl in *.
  apply Hinj. congruence.
Qed.

Lemma subtasksOf_ids_NoDup (input : Decompose.DecomposeTaskInput) :
  NoDup (map Decompose.id (Decompose.subtasksOf input)).
Proof.
  unfold Decompose.subtasksOf. rewrite applyDependencies_ids.
  rewrite fmap_imap. unfold compose. simpl.
  apply (imap_const_NoDup (fun i => str "subtask_" ++ Js.showNat (i + 1))).
  intros i j H%app_inv_head%showNat_inj. lia.
Qed.

(** C2 (amended). The critical path returned by [decomposeTask] is one
    of the candidate paths ([k] is the position of its final subtask); no
    candidate is longer; and when several candidates have the maximal
    length, the returned one is the candidate whose final subtask comes
    earliest in template order. *)
Theorem decomposeTask_criticalPath (input : Decompose.DecomposeTaskInput) :
  Decompose.subtasksOf input <> [] ->
  exists k,
    candidatePaths input !! k = Some (Decompose.criticalPath (Decompose.decomposeTask input))
    /\ forall j p, candidatePaths input !! j = Some p ->
         (exists s, Decompose.subtasksOf input !! j = Some s /\ last p = Some (Decompose.id s))
         /\ length p <= length (Decompose.criticalPath (Decompose.decomposeTask input))
         /\ (length p = length (Decompose.criticalPath (Decompose.decomposeTask input)) ->
             k <= j).
Proof.
  intros Hne. unfold candidatePaths. simpl.
  set (l := Decompose.subtasksOf input) in *.
  pose proof (subtasksOf_ids_NoDup input) as Hnd. fold l in Hnd.
  assert (Hpaths : map snd (Decompose.bestPaths l) <> []).
  { destruct (bestPaths_shape l Hnd) as [Hkeys _]. intros Hnil.
    apply (f_equal length) in Hkeys, Hnil. rewrite !length_map in Hkeys.
    rewrite length_map in Hnil. destruct l; [done|]. simpl in *. lia. }
  destruct (sortBy_head_is_Some (Decompose.comparePaths l) _ Hpaths)
    as [cp Hcp].
  assert (Hcrit : Decompose.computeCriticalPath l = cp).
  { unfold Decompose.computeCriticalPath. destruct l; [done|]. by rewrite Hcp. }
  rewrite Hcrit.
  pose proof (sortBy_head_elem _ _ _ Hcp) as Hin.
  apply list_elem_of_lookup in Hin as [k Hk]. exists k. split; [done|].
  intros j p Hp.
  destruct (candidate_lookup l j p Hnd Hp) as (s & Hs & Hlast & Hidx).
  destruct (candidate_lookup l k cp Hnd Hk) as (_ & _ & _ & Hidxk).
  split; [eauto|].
  assert (Hle : (Decompose.comparePaths l cp p <= 0)%Z).
  { eapply sortBy_head_least; [apply comparePaths_total|apply comparePaths_trans|exact Hcp|].
    apply list_elem_of_lookup. eauto. }
  unfold Decompose.comparePaths in Hle. rewrite Hidx, Hidxk in Hle.
  case_decide; split; lia.
Qed.

Lemma decomposeTask_criticalPath_witness :
  exists k,
    candidatePaths milestoneInput !! k
    = Some (Decompose.criticalPath (Decompose.decomposeTask milestoneInput))
    /\ forall j p, candidatePaths milestoneInput !! j = Some p ->
         (exists s, Decompose.subtasksOf milestoneInput !! j = Some s
                    /\ last p = Some (Decompose.id s))
         /\ length p <= length (Decompose.criticalPath (Decompose.decomposeTask milestoneInput))
         /\ (length p = length (Decompose.criticalPath (Decompose.decomposeTask milestoneInput))
             -> k <= j).
Proof.
  apply (decomposeTask_criticalPath milestoneInput). vm_compute. discriminate.
Defined.

(** C2, the claim as stated, fails: in milestone mode over a template of
    four subtasks the two longest candidates end in the third and in the
    fourth subtask, and the returned critical path is the one that ends in
    the third, the earlier of the two. *)
Lemma decomposeTask_tie_earliest :
  candidatePaths milestoneInput
  = [ [str "subtask_1"];
      [str "subtask_1"; str "subtask_2"];
      [str "subtask_1"; str "subtask_2"; str "subtask_3"];
      [str "subtask_1"; str "subtask_2"; str "subtask_4"] ]
  /\ Decompose.criticalPath (Decompose.decomposeTask milestoneInput)
     = [str "subtask_1"; str "subtask_2"; str "subtask_3"]
  /\ Decompose.criticalPath (Decompose.decomposeTask milestoneInput)
     <> [str "subtask_1"; str "subtask_2"; str "subtask_4"].
Proof.
  split; [vm_compute; reflexivity|]. split; [vm_compute; reflexivity|].
  vm_compute. discriminate.
Qed.

(** ** Truncation and capping *)

Lemma truncateText_length (input : text) (maxChars : Z) :
  (Z.of_nat (length (truncateText input maxChars)) <= Z.max 0 maxChars)%Z.
Proof.
  unfold truncateText, Js.slice0.
  destruct (maxChars <=? 0)%Z eqn:E0; [simpl; lia|]. apply Z.leb_gt in E0.
  destruct (Z.of_nat (length input) <=? maxChars)%Z eqn:E1; [apply Z.leb_le in E1; lia|].
  destruct (maxChars <=? 3)%Z eqn:E3.
  - rewrite length_take. lia.
  - apply Z.leb_gt in E3. rewrite length_app, length_take. simpl. lia.
Qed.

Lemma sanitizeText_length (input : text) (maxChars : Z) :
  (Z.of_nat (length (sanitizeText input maxChars)) <= Z.max 0 maxChars)%Z.
Proof. apply truncateText_length. Qed.

Lemma capItems_length {T} (items : list T) (maxItems : Z) :
  (Z.of_nat (length (capItems items maxItems)) <= Z.max 0 maxItems)%Z.
Proof.
  unfold capItems. destruct (maxItems <? 0)%Z eqn:E; [simpl; lia|].
  apply Z.ltb_ge in E. rewrite length_take. lia.
Qed.

(** ** State Compactor *)

Lemma trimmedLength_bound (n : nat) :
  80 < n -> Compact.trimmedLength n + 3 < n /\ Compact.trimmedLength n <= n.
Proof.
  intros Hn. unfold Compact.trimmedLength.
  assert (n * 78 / 100 + 3 < n).
  { assert (n * 78 / 100 <= n * 78 / 78) by (apply Nat.div_le_compat_l; lia).
    pose proof (Nat.div_mod_eq (n * 78) 100) as Hd.
    pose proof (Nat.mod_upper_bound (n * 78) 100). lia. }
  lia.
Qed.

Lemma trimSectionText_shorter (t : text) :
  80 < length t -> length (Compact.trimSectionText t) < length t.
Proof.
  intros Hn. unfold Compact.trimSectionText, Js.slice0.
  destruct (decide (length t <= 80)); [lia|].
  rewrite length_app, length_take. simpl.
  pose proof (trimmedLength_bound (length t) Hn). lia.
Qed.

Lemma findIndex_lookup (k : text) (w : list Compact.SectionState) (i : nat) :
  Compact.findIndex k w = Some i -> exists s, w !! i = Some s /\ Compact.key s = k.
Proof.
  revert i. induction w as [|x w IH]; intros i; simpl; [done|].
  destruct (decide (Compact.key x = k)) as [Hk|Hk].
  - intros [= <-]. eauto.
  - destruct (Compact.findIndex k w) as [j|]; simpl; [|done].
    intros [= <-]. destruct (IH j eq_refl) as (s & Hs & Hks). eauto.
Qed.

Lemma findIndex_elem (c : Compact.SectionState) (w : list Compact.SectionState) :
  c ∈ w -> NoDup (map Compact.key w) ->
  exists i, Compact.findIndex (Compact.key c) w = Some i /\ w !! i = Some c.
Proof.
  induction w as [|x w IH]; intros Hc Hnd; [by apply elem_of_nil in Hc|]. simpl.
  apply NoDup_cons in Hnd as [Hx Hnd].
  destruct (decide (Compact.key x = Compact.key c)) as [Hk|Hk].
  - exists 0. split; [done|]. simpl. f_equal.
    apply elem_of_cons in Hc as [->|Hc]; [done|].
    destruct Hx. rewrite Hk. apply list_elem_of_fmap. eauto.
  - apply elem_of_cons in Hc as [->|Hc]; [done|].
    destruct (IH Hc Hnd) as (i & -> & Hi). exists (S i). by split.
Qed.

Lemma store_keys (w : list Compact.SectionState) (c : Compact.SectionState) (t : text) :
  map Compact.key (Compact.store w (Compact.findIndex (Compact.key c) w) (Compact.withText c t))
  = map Compact.key w.
Proof.
  destruct (Compact.findIndex (Compact.key c) w) as [i|] eqn:E; simpl; [|done].
  apply findIndex_lookup in E as (s & Hs & Hk).
  rewrite list_fmap_insert. simpl. apply list_insert_id.
  rewrite list_lookup_fmap, Hs. simpl. by rewrite Hk.
Qed.

Lemma totalText_insert (w : list Compact.SectionState) (i : nat)
    (c c' : Compact.SectionState) :
  w !! i = Some c ->
  Compact.totalText (<[i := c']> w) + length (Compact.text_ c)
  = Compact.totalText w + length (Compact.text_ c').
Proof.
  revert i. induction w as [|x w IH]; intros i Hi; [done|].
  destruct i as [|i]; simpl in *.
  - injection Hi as ->. lia.
  - specialize (IH i Hi). lia.
Qed.

Lemma pickCompressibleSection_elem (w : list Compact.SectionState) (p : list text)
    (c : Compact.SectionState) :
  Compact.pickCompressibleSection w p = Some c -> c ∈ w /\ 80 < length (Compact.text_ c).
Proof.
  unfold Compact.pickCompressibleSection. intros H%sortBy_head_elem.
  apply list_elem_of_filter in H as [_ H]. by apply list_elem_of_filter in H as [? ?].
Qed.

Lemma pickDroppableSection_elem (w : list Compact.SectionState) (p : list text)
    (c : Compact.SectionState) :
  Compact.pickDroppableSection w p = Some c -> c ∈ w /\ 0 < length (Compact.text_ c).
Proof.
  unfold Compact.pickDroppableSection. intros H%sortBy_head_elem.
  apply list_elem_of_filter in H as [_ H]. by apply list_elem_of_filter in H as [? ?].
Qed.

(** One iteration that rewrites the text of a picked section to a shorter
    one keeps the keys and removes at least one character. *)
Lemma store_shrinks (w : list Compact.SectionState) (c : Compact.SectionState) (t : text) :
  c ∈ w -> NoDup (map Compact.key w) -> length t < length (Compact.text_ c) ->
  Compact.totalText
    (Compact.store w (Compact.findIndex (Compact.key c) w) (Compact.withText c t))
  < Compact.totalText w.
Proof.
  intros Hc Hnd Hlt. destruct (findIndex_elem c w Hc Hnd) as (i & -> & Hi). simpl.
  pose proof (totalText_insert w i c (Compact.withText c t) Hi) as Heq. simpl in Heq. lia.
Qed.


Lemma compactLoop_terminates (p : list text) (fuel : nat) : forall st : Compact.LoopState,
  NoDup (map Compact.key (Compact.working st)) ->
  Compact.totalText (Compact.working st) < fuel ->
  exists st', Compact.compactLoop fuel p st = Some st' /\ loopResult st st'.
Proof.
  induction fuel as [|fuel IH]; intros st Hnd Hfuel; [lia|]. simpl.
  destruct (decide (Z.of_nat (length (Compact.sectionsToText (Compact.working st)))
                    <= Compact.targetChars st)%Z) as [Hfit|Hover].
  { exists st. split; [done|]. by left. }
  destruct (Compact.pickCompressibleSection (Compact.working st) p) as [c|] eqn:Ec.
  - apply pickCompressibleSection_elem in Ec as [Hc Hlen].
    pose proof (store_shrinks (Compact.working st) c (Compact.trimSectionText (Compact.text_ c))
                  Hc Hnd (trimSectionText_shorter _ Hlen)) as Hshrink.
    edestruct IH as (st' & Hrun & Hres); [| |exists st'; split; [exact Hrun|]].
    + simpl. by rewrite store_keys.
    + simpl. lia.
    + destruct Hres as [[Ht Hl]|Ht]; [left|right]; simpl in *; auto.
  - destruct (Compact.pickDroppableSection (Compact.working st) p) as [c|] eqn:Ed.
    + apply pickDroppableSection_elem in Ed as [Hc Hlen].
      pose proof (store_shrinks (Compact.working st) c [] Hc Hnd Hlen) as Hshrink.
      edestruct IH as (st' & Hrun & Hres); [| |exists st'; split; [exact Hrun|]].
      * simpl. by rewrite store_keys.
      * simpl. lia.
      * destruct Hres as [[Ht Hl]|Ht]; [left|right]; simpl in *; auto.
    + eexists. split; [done|]. by right.
Qed.

Lemma compactLoop_fuel_mono (p : list text) (fuel extra : nat) (st st' : Compact.LoopState) :
  Compact.compactLoop fuel p st = Some st' ->
  Compact.compactLoop (fuel + extra) p st = Some st'.
Proof.
  revert st. induction fuel as [|fuel IH]; intros st; simpl; [done|].
  destruct (decide _); [done|].
  destruct (Compact.pickCompressibleSection _ _); [apply IH|].
  destruct (Compact.pickDroppableSection _ _); [apply IH|done].
Qed.

Lemma buildSections_keys (input : Compact.CompactStateInput) :
  map Compact.key (Compact.buildSections input)
  = [ str "goal"; str "constraints"; str "current-plan"; str "open-risks";
      str "assumptions"; str "recent-results"; str "decisions"; str "next-actions" ].
Proof. reflexivity. Qed.

(** C3. For every input of [compactReasoningState] (every target budget,
    in particular every budget of at least 50 tokens, and every plan,
    assumption and log state) the compression loop terminates: the fuel
    granted suffices and any larger fuel yields the same output.  The
    returned [compactState] has at most [max 400 target] characters,
    where [target] is [targetTokens * 4], or that number relaxed once by
    ten percent. *)
Theorem compactReasoningState_converges (input : Compact.CompactStateInput) :
  exists out,
    Compact.compactReasoningState input = Some out
    /\ (forall extra,
          Compact.compactReasoningStateFuel
            (S (Compact.totalText (Compact.buildSections input)) + extra) input = Some out)
    /\ exists target,
         let t4 := (Compact.resolveTargetTokens (Compact.targetTokens input)
                      (Compact.policy input) * 4)%Z in
         (target = t4 \/ target = (t4 * 11 / 10)%Z)
         /\ (Z.of_nat (length (Compact.compactState out)) <= Z.max 400 target)%Z.
Proof.
  destruct (compactLoop_terminates (Compact.preserveSet input)
              (S (Compact.totalText (Compact.buildSections input)))
              (Compact.initialState input)) as (st & Hrun & Hres).
  { change (NoDup (map Compact.key (Compact.buildSections input))).
    rewrite buildSections_keys. apply (bool_decide_unpack _). vm_compute. exact I. }
  { change (Compact.totalText (Compact.buildSections input)
            < S (Compact.totalText (Compact.buildSections input))). lia. }
  exists (Compact.finish input st). split; [|split].
  - unfold Compact.compactReasoningState, Compact.compactReasoningStateFuel. by rewrite Hrun.
  - intros extra. unfold Compact.compactReasoningStateFuel.
    by rewrite (compactLoop_fuel_mono _ _ extra _ _ Hrun).
  - exists (Compact.targetChars st). split.
    + destruct Hres as [[-> _]| ->]; [by left|by right].
    + simpl. pose proof (sanitizeText_length (Compact.sectionsToText (Compact.working st))
                           (Z.max 400 (Compact.targetChars st))). lia.
Qed.

(** ** IEEE rounding *)

Section Rounding.

Local Open Scope Q_scope.

Lemma pow2_pos (e : Z) : 0 < Number.pow2 e.
Proof. apply Qpower_0_lt. reflexivity. Qed.

Lemma pow2_add (a b : Z) : Number.pow2 (a + b) == Number.pow2 a * Number.pow2 b.
Proof. apply Qpower_plus. discriminate. Qed.

Lemma pow2_le (a b : Z) : (a <= b)%Z -> Number.pow2 a <= Number.pow2 b.
Proof. intros H. apply Qpower_le_compat_l; [exact H|discriminate]. Qed.

Lemma pow2_Z (n : Z) : (0 <= n)%Z -> Number.pow2 n == inject_Z (2 ^ n).
Proof. intros H. unfold Number.pow2. by rewrite (Zpower_Qpower 2 n H). Qed.

Lemma roundHalfEven_near (q : Q) :
  q - (1 # 2) <= inject_Z (Number.roundHalfEven q) <= q + (1 # 2).
Proof.
  unfold Number.roundHalfEven.
  pose proof (Qfloor_le q) as Hlo. pose proof (Qlt_floor q) as Hhi.
  rewrite inject_Z_plus in Hhi. change (inject_Z 1) with 1 in Hhi.
  destruct (Qcompare_spec (q - inject_Z (Qfloor q)) (1 # 2)) as [He|Hl|Hg].
  - destruct (Z.even (Qfloor q)).
    + split; lra.
    + rewrite inject_Z_plus. change (inject_Z 1) with 1. split; lra.
  - split; lra.
  - rewrite inject_Z_plus. change (inject_Z 1) with 1. split; lra.
Qed.

Lemma roundHalfEven_Z (q : Q) (n : Z) : q == inject_Z n -> Number.roundHalfEven q = n.
Proof.
  intros Hq. unfold Number.roundHalfEven.
  assert (Hf : Qfloor q = n) by (rewrite (Qfloor_comp _ _ Hq); apply Qfloor_Z).
  rewrite Hf.
  destruct (Qcompare_spec (q - inject_Z n) (1 # 2)) as [He|Hl|Hg]; [lra|done|lra].
Qed.

Lemma roundHalfEven_nonneg (q : Q) : 0 <= q -> (0 <= Number.roundHalfEven q)%Z.
Proof.
  intros Hq. unfold Number.roundHalfEven.
  pose proof (Qfloor_resp_le 0 q Hq) as Hf. change (Qfloor 0) with 0%Z in Hf.
  destruct (_ ?= _); [destruct (Z.even _)| |]; lia.
Qed.

Lemma log2floor_le (x : Q) : 0 < x -> Number.pow2 (Number.log2floor x) <= x.
Proof.
  intros Hx. unfold Number.log2floor.
  destruct (Qle_bool _ x) eqn:E; [by apply Qle_bool_iff|].
  destruct x as [a b]. cbn [Qnum Qden].
  assert (Ha : (0 < a)%Z).
  { unfold Qlt in Hx. simpl in Hx. lia. }
  destruct (Z.log2_spec a Ha) as [Hla _].
  destruct (Z.log2_spec (Zpos b) eq_refl) as [_ Hlb].
  pose proof (Z.log2_nonneg a) as Hna. pose proof (Z.log2_nonneg (Zpos b)) as Hnb.
  replace (Z.log2 a - Z.log2 (Z.pos b) - 1)%Z
    with (Z.log2 a + - Z.succ (Z.log2 (Z.pos b)))%Z by lia.
  rewrite pow2_add. unfold Number.pow2 at 2. rewrite Qpower_opp.
  fold (Number.pow2 (Z.succ (Z.log2 (Z.pos b)))).
  rewrite !pow2_Z by lia.
  set (A := (2 ^ Z.log2 a)%Z) in *. set (B := (2 ^ Z.succ (Z.log2 (Z.pos b)))%Z) in *.
  assert (HB : (0 < B)%Z) by lia.
  unfold Qle, Qmult, Qinv. cbn [Qnum Qden inject_Z].
  destruct B as [|B|B]; try lia. cbn [Qnum Qden]. nia.
Qed.

Lemma Qabs_pos_eq (x : Q) : 0 < x -> Qabs x = x.
Proof.
  destruct x as [[|p|p] b]; intros H; try reflexivity; unfold Qlt in H; simpl in H; lia.
Qed.

Lemma ulpExponent_least (x : Q) : (-1074 <= Number.ulpExponent x)%Z.
Proof. unfold Number.ulpExponent. lia. Qed.

Lemma ulp_relative (x : Q) :
  0 < x -> (-1074 < Number.ulpExponent x)%Z ->
  Number.pow2 (Number.ulpExponent x) <= x * Number.pow2 (-52).
Proof.
  intros Hx He. unfold Number.ulpExponent in *. rewrite (Qabs_pos_eq x Hx) in *.
  rewrite Z.max_r by lia.
  replace (Number.log2floor x - 52)%Z with (Number.log2floor x + -52)%Z by lia.
  rewrite pow2_add. apply Qmult_le_compat_r; [by apply log2floor_le|].
  apply Qlt_le_weak, pow2_pos.
Qed.

Lemma fl_zero (x : Q) : x == 0 -> Number.fl x = 0.
Proof. intros H. unfold Number.fl. apply Qeq_bool_iff in H. by rewrite H. Qed.

Lemma fl_value (x : Q) :
  ~ x == 0 ->
  Number.fl x
  == inject_Z (Number.roundHalfEven (x / Number.pow2 (Number.ulpExponent x)))
     * Number.pow2 (Number.ulpExponent x).
Proof.
  intros H. unfold Number.fl. destruct (Qeq_bool x 0) eqn:E.
  - apply Qeq_bool_iff in E. contradiction.
  - apply Qred_correct.
Qed.

Lemma fl_error (x : Q) :
  x - (1 # 2) * Number.pow2 (Number.ulpExponent x) <= Number.fl x
  /\ Number.fl x <= x + (1 # 2) * Number.pow2 (Number.ulpExponent x).
Proof.
  pose proof (pow2_pos (Number.ulpExponent x)) as HP.
  destruct (Qeq_dec x 0) as [Hz|Hnz].
  - rewrite (fl_zero x Hz). split; lra.
  - rewrite (fl_value x Hnz).
    set (P := Number.pow2 (Number.ulpExponent x)) in *.
    destruct (roundHalfEven_near (x / P)) as [Hlo Hhi].
    set (m := inject_Z (Number.roundHalfEven (x / P))) in *.
    assert (Hx : x == x / P * P) by (field; lra).
    split.
    + assert ((x / P - (1 # 2)) * P <= m * P) by (apply Qmult_le_compat_r; lra). lra.
    + assert (m * P <= (x / P + (1 # 2)) * P) by (apply Qmult_le_compat_r; lra). lra.
Qed.

Lemma fl_nonneg (x : Q) : 0 <= x -> 0 <= Number.fl x.
Proof.
  intros Hx. pose proof (pow2_pos (Number.ulpExponent x)) as HP.
  destruct (Qeq_dec x 0) as [Hz|Hnz]; [rewrite (fl_zero x Hz); lra|].
  rewrite (fl_value x Hnz). apply Qmult_le_0_compat; [|lra].
  change 0 with (inject_Z 0). rewrite <- Zle_Qle. apply roundHalfEven_nonneg.
  apply Qle_shift_div_l; lra.
Qed.

Lemma pow2_grid (e : Z) :
  (-1074 <= e)%Z -> Number.pow2 e == inject_Z (2 ^ (e + 1074)) * leastDouble.
Proof.
  intros He. unfold leastDouble. rewrite <- pow2_Z by lia. rewrite <- pow2_add.
  by replace (e + 1074 + -1074)%Z with e by lia.
Qed.

Lemma onGrid_proper (x y : Q) : x == y -> onGrid x -> onGrid y.
Proof. intros Hxy [n Hn]. exists n. by rewrite <- Hxy. Qed.

Lemma onGrid_add (x y : Q) : onGrid x -> onGrid y -> onGrid (x + y).
Proof.
  intros [n Hn] [m Hm]. exists (n + m)%Z. rewrite inject_Z_plus, Hn, Hm. ring.
Qed.

Lemma onGrid_Z (k : Z) : onGrid (inject_Z k).
Proof.
  exists (k * 2 ^ 1074)%Z. rewrite inject_Z_mult.
  pose proof (pow2_grid 0 ltac:(lia)) as H. change (Number.pow2 0) with 1 in H.
  change (0 + 1074)%Z with 1074%Z in H. rewrite <- Qmult_assoc, <- H. ring.
Qed.

Lemma fl_grid (x : Q) : onGrid (Number.fl x).
Proof.
  destruct (Qeq_dec x 0) as [Hz|Hnz].
  - rewrite (fl_zero x Hz). apply (onGrid_Z 0).
  - exists (Number.roundHalfEven (x / Number.pow2 (Number.ulpExponent x))
            * 2 ^ (Number.ulpExponent x + 1074))%Z.
    rewrite (fl_value x Hnz), inject_Z_mult.
    rewrite (pow2_grid _ (ulpExponent_least x)) at 2. ring.
Qed.

Lemma onGrid_least (w : Q) : onGrid w -> 0 < w -> leastDouble <= w.
Proof.
  intros [n Hn] Hw. pose proof (pow2_pos (-1074)) as Hu. fold leastDouble in Hu.
  assert (Hn1 : (1 <= n)%Z).
  { destruct (Z_lt_le_dec n 1) as [Hlt|]; [|done]. exfalso.
    assert (inject_Z n <= 0) by (change 0 with (inject_Z 0); rewrite <- Zle_Qle; lia).
    assert (inject_Z n * leastDouble <= 0 * leastDouble)
      by (apply Qmult_le_compat_r; lra).
    lra. }
  assert (1 * leastDouble <= inject_Z n * leastDouble).
  { apply Qmult_le_compat_r; [|lra]. change 1 with (inject_Z 1). by rewrite <- Zle_Qle. }
  lra.
Qed.

Lemma fl_exact (x : Q) :
  onGrid x -> Number.ulpExponent x = (-1074)%Z -> Number.fl x == x.
Proof.
  intros [n Hn] He. destruct (Qeq_dec x 0) as [Hz|Hnz]; [by rewrite (fl_zero x Hz), Hz|].
  rewrite (fl_value x Hnz), He. fold leastDouble.
  pose proof (pow2_pos (-1074)) as Hu. fold leastDouble in Hu.
  rewrite (roundHalfEven_Z _ n); [by rewrite Hn|].
  rewrite Hn. field. lra.
Qed.

Lemma pow2_small : Number.pow2 (-52) <= 1 # 1000000.
Proof. vm_compute. discriminate. Qed.

Lemma leastDouble_small : leastDouble <= 1 # 1000000.
Proof.
  eapply Qle_trans; [apply (pow2_le (-1074) (-52)); lia|apply pow2_small].
Qed.

(** Rounding a non-negative real loses at most a millionth of it and
    half the least double. *)
Lemma fl_lower (x : Q) :
  0 <= x -> (999999 # 1000000) * x - (1 # 2) * leastDouble <= Number.fl x.
Proof.
  intros Hx. pose proof (pow2_pos (-1074)) as Hu. fold leastDouble in Hu.
  destruct (Qeq_dec x 0) as [Hz|Hnz]; [rewrite (fl_zero x Hz); lra|].
  assert (Hpos : 0 < x) by (apply Qle_lteq in Hx as [|]; [done|by symmetry in H]).
  destruct (fl_error x) as [Hlo _].
  destruct (Z.eq_dec (Number.ulpExponent x) (-1074)%Z) as [He|He].
  - rewrite He in Hlo. fold leastDouble in Hlo. lra.
  - pose proof (ulpExponent_least x).
    pose proof (ulp_relative x Hpos ltac:(lia)) as Hrel.
    assert (x * Number.pow2 (-52) <= x * (1 # 1000000))
      by (apply Qmult_le_l; [done|apply pow2_small]).
    lra.
Qed.

(** Rounding a non-negative real of the grid (a sum of doubles) changes
    it by at most a millionth. *)
Lemma fl_relative (x : Q) :
  0 <= x -> onGrid x ->
  (999999 # 1000000) * x <= Number.fl x /\ Number.fl x <= (1000001 # 1000000) * x.
Proof.
  intros Hx Hg.
  destruct (Qeq_dec x 0) as [Hz|Hnz]; [rewrite (fl_zero x Hz); split; lra|].
  assert (Hpos : 0 < x) by (apply Qle_lteq in Hx as [|]; [done|by symmetry in H]).
  destruct (Z.eq_dec (Number.ulpExponent x) (-1074)%Z) as [He|He].
  - rewrite (fl_exact x Hg He). split; lra.
  - pose proof (ulpExponent_least x).
    pose proof (ulp_relative x Hpos ltac:(lia)) as Hrel.
    destruct (fl_error x) as [Hlo Hhi].
    assert (x * Number.pow2 (-52) <= x * (1 # 1000000))
      by (apply Qmult_le_l; [done|apply pow2_small]).
    split; lra.
Qed.

End Rounding.

(** ** Critic *)

Lemma existsb_hardBlocked (fs : list Critic.Finding) :
  existsb Critic.isHardBlocker fs = true <-> hardBlocked fs.
Proof.
  rewrite existsb_exists. unfold hardBlocked, Critic.isHardBlocker. split.
  - intros (f & Hin%list_elem_of_In & H). exists f. split; [done|].
    apply andb_true_iff in H as [Hs Hc]. apply bool_decide_eq_true in Hs. split; [done|].
    apply orb_true_iff in Hc as [Hc|Hc]; [apply orb_true_iff in Hc as [Hc|Hc]|];
      apply bool_decide_eq_true in Hc; auto.
  - intros (f & Hin & Hs & Hc). exists f. split; [by apply list_elem_of_In|].
    apply andb_true_iff. split; [by apply bool_decide_eq_true|].
    rewrite !orb_true_iff, !bool_decide_eq_true. tauto.
Qed.

Lemma existsb_anyHigh (fs : list Critic.Finding) :
  existsb (fun item => bool_decide (Critic.severity item = high)) fs = true <-> anyHigh fs.
Proof.
  rewrite existsb_exists. unfold anyHigh. split.
  - intros (f & Hin%list_elem_of_In & H%bool_decide_eq_true). eauto.
  - intros (f & Hin & Hs). exists f. split; [by apply list_elem_of_In|].
    by apply bool_decide_eq_true.
Qed.

Lemma resolveVerdict_spec (scores : Critic.CriticCategory -> Z) (wt : Z)
    (fs : list Critic.Finding) :
  (Critic.resolveVerdict scores wt fs = Critic.reject <-> rejectCondition scores fs)
  /\ (Critic.resolveVerdict scores wt fs = Critic.approve
      <-> ~ rejectCondition scores fs /\ approveCondition wt fs)
  /\ (Critic.resolveVerdict scores wt fs = Critic.revise
      <-> ~ rejectCondition scores fs /\ ~ approveCondition wt fs).
Proof.
  unfold Critic.resolveVerdict, rejectCondition, approveCondition.
  pose proof (existsb_hardBlocked fs) as Hb. pose proof (existsb_anyHigh fs) as Hh.
  destruct (existsb Critic.isHardBlocker fs);
    destruct (existsb (fun item => bool_decide (Critic.severity item = high)) fs);
    repeat case_bool_decide; simpl;
    (split; [|split]); split; try discriminate; try done; intuition (try lia; try discriminate).
Qed.

Section WeightedTotal.

Local Open Scope Q_scope.

Lemma double_grid (d : Number.Double) : onGrid (Number.value d).
Proof.
  destruct d as [v H]. simpl. apply Qeq_bool_iff in H.
  eapply onGrid_proper; [exact H|apply fl_grid].
Qed.

Lemma resolveWeights_spec (rubric : option (Critic.CriticCategory -> option Number.Double))
    (c : Critic.CriticCategory) :
  0 <= Critic.resolveWeights rubric c /\ onGrid (Critic.resolveWeights rubric c).
Proof.
  assert (Hd : forall c, 0 <= Critic.DEFAULT_WEIGHTS c /\ onGrid (Critic.DEFAULT_WEIGHTS c)).
  { intros []; (split; [done|]).
    - apply (onGrid_Z 5). - apply (onGrid_Z 4). - apply (onGrid_Z 4).
    - apply (onGrid_Z 3). - apply (onGrid_Z 2). - apply (onGrid_Z 3). }
  unfold Critic.resolveWeights. destruct rubric as [r|]; [|apply Hd].
  destruct (Qeq_bool _ _); [apply Hd|].
  destruct (r c) as [d|]; [|apply Hd]. unfold Critic.clampQ.
  split; [apply Q.min_glb; [done|apply Q.le_max_l]|].
  destruct (Q.min_spec 5 (Qmax 0 (Number.value d))) as [[_ Hm]|[_ Hm]];
    (eapply onGrid_proper; [symmetry; exact Hm|]); [apply (onGrid_Z 5)|].
  destruct (Q.max_spec 0 (Number.value d)) as [[_ Hx]|[_ Hx]];
    (eapply onGrid_proper; [symmetry; exact Hx|]); [apply double_grid|apply (onGrid_Z 0)].
Qed.

Lemma resolveWeights_sum (rubric : option (Critic.CriticCategory -> option Number.Double)) :
  ~ Critic.sumWeights (Critic.resolveWeights rubric) == 0.
Proof.
  assert (Hd : ~ Critic.sumWeights Critic.DEFAULT_WEIGHTS == 0).
  { apply Qeq_bool_neq. vm_compute. reflexivity. }
  unfold Critic.resolveWeights. destruct rubric as [r|]; [|apply Hd].
  destruct (Qeq_bool _ _) eqn:E; [apply Hd|]. by apply Qeq_bool_neq.
Qed.

(** The double that holds a score of at least 8 is at least 7.99. *)
Lemma scoreValue_high (k : Z) : (80 <= k)%Z -> 799 # 100 <= Critic.scoreValue k.
Proof.
  intros Hk. unfold Critic.scoreValue, Number.div.
  assert (Hq : 80 <= inject_Z k) by (change 80 with (inject_Z 80); by rewrite <- Zle_Qle).
  assert (Hx : 8 <= inject_Z k / 10) by (apply Qle_shift_div_l; lra).
  pose proof (fl_lower (inject_Z k / 10) ltac:(lra)) as Hfl.
  pose proof leastDouble_small. lra.
Qed.

(** The product of a weight with a score of at least 8. *)
Lemma product_high (k : Z) (w : Q) :
  (80 <= k)%Z -> 0 <= w -> onGrid w ->
  (748 # 100) * w <= Number.mul (Critic.scoreValue k) w
  /\ 0 <= Number.mul (Critic.scoreValue k) w
  /\ onGrid (Number.mul (Critic.scoreValue k) w).
Proof.
  intros Hk Hw Hg. pose proof (scoreValue_high k Hk) as Hs. unfold Number.mul.
  set (s := Critic.scoreValue k) in *.
  assert (Hx : (799 # 100) * w <= s * w) by (apply Qmult_le_compat_r; lra).
  assert (Hnn : 0 <= s * w) by lra.
  split; [|split; [by apply fl_nonneg|apply fl_grid]].
  pose proof (fl_lower (s * w) Hnn) as Hfl.
  destruct (Qeq_dec w 0) as [Hz|Hnz].
  - pose proof (fl_nonneg (s * w) Hnn). lra.
  - assert (Hpos : 0 < w) by (apply Qle_lteq in Hw as [|]; [done|by symmetry in H]).
    pose proof (onGrid_least w Hg Hpos). lra.
Qed.

(** One step of the two running sums: the sum of the products stays
    above [c'] times the sum of the weights. *)
Lemma sums_step (c c' N S p w : Q) :
  0 <= N -> 0 <= S -> 0 <= p -> 0 <= w ->
  onGrid N -> onGrid S -> onGrid p -> onGrid w ->
  (N + p) * (999999 # 1000000) >= c' * ((S + w) * (1000001 # 1000000)) ->
  c' >= 0 ->
  c' * Number.add S w <= Number.add N p
  /\ 0 <= Number.add N p /\ 0 <= Number.add S w
  /\ onGrid (Number.add N p) /\ onGrid (Number.add S w).
Proof.
  intros HN HS Hp Hw GN GS Gp Gw Hc Hc'. unfold Number.add.
  destruct (fl_relative (N + p) ltac:(lra) (onGrid_add _ _ GN Gp)) as [HloN _].
  destruct (fl_relative (S + w) ltac:(lra) (onGrid_add _ _ GS Gw)) as [_ HhiS].
  split; [|split; [apply fl_nonneg; lra|split; [apply fl_nonneg; lra|split; apply fl_grid]]].
  assert (Number.fl (S + w) * c' <= (1000001 # 1000000) * (S + w) * c')
    by (apply Qmult_le_compat_r; lra).
  lra.
Qed.

(** A quotient of at least 7.475 is rounded to one decimal as 7.5 or more. *)
Lemma roundOne_high (n s : Q) :
  0 < s -> (7475 # 1000) * s <= n -> (75 <= Critic.roundOne (Number.div n s))%Z.
Proof.
  intros Hpos Hn. unfold Critic.roundOne, Number.round, Number.div, Number.mul.
  assert (Hr : 7475 # 1000 <= n / s) by (apply Qle_shift_div_l; lra).
  pose proof leastDouble_small as Hu.
  pose proof (pow2_pos (-1074)) as Hu0. fold leastDouble in Hu0.
  pose proof (fl_lower (n / s) ltac:(lra)) as HT.
  generalize dependent (Number.fl (n / s)). intros T HT.
  pose proof (fl_lower (T * 10) ltac:(lra)) as HY.
  generalize dependent (Number.fl (T * 10)). intros Y HY.
  generalize dependent leastDouble. intros u Hu Hu0 HT HY.
  rewrite <- (Qfloor_Z 75). apply Qfloor_resp_le.
  change (inject_Z 75) with 75. lra.
Qed.

(** The running sums of [weightedTotalOf]: with every product at least
    7.48 times its weight, the sum of the products is at least 7.475
    times the sum of the weights as the doubles compute them. *)
Lemma sums_high (p1 p2 p3 p4 p5 p6 w1 w2 w3 w4 w5 w6 : Q) :
  ((748 # 100) * w1 <= p1 /\ 0 <= p1 /\ onGrid p1) -> (0 <= w1 /\ onGrid w1) ->
  ((748 # 100) * w2 <= p2 /\ 0 <= p2 /\ onGrid p2) -> (0 <= w2 /\ onGrid w2) ->
  ((748 # 100) * w3 <= p3 /\ 0 <= p3 /\ onGrid p3) -> (0 <= w3 /\ onGrid w3) ->
  ((748 # 100) * w4 <= p4 /\ 0 <= p4 /\ onGrid p4) -> (0 <= w4 /\ onGrid w4) ->
  ((748 # 100) * w5 <= p5 /\ 0 <= p5 /\ onGrid p5) -> (0 <= w5 /\ onGrid w5) ->
  ((748 # 100) * w6 <= p6 /\ 0 <= p6 /\ onGrid p6) -> (0 <= w6 /\ onGrid w6) ->
  (7475 # 1000)
    * Number.add (Number.add (Number.add (Number.add (Number.add w1 w2) w3) w4) w5) w6
  <= Number.add (Number.add (Number.add (Number.add (Number.add p1 p2) p3) p4) p5) p6
  /\ 0 <= Number.add (Number.add (Number.add (Number.add (Number.add w1 w2) w3) w4) w5) w6.
Proof.
  intros (P1 & Q1 & R1) (W1 & G1) (P2 & Q2 & R2) (W2 & G2) (P3 & Q3 & R3) (W3 & G3)
         (P4 & Q4 & R4) (W4 & G4) (P5 & Q5 & R5) (W5 & G5) (P6 & Q6 & R6) (W6 & G6).
  assert (C1 : 7479 # 1000 >= 0) by done. assert (C2 : 7478 # 1000 >= 0) by done.
  assert (C3 : 7477 # 1000 >= 0) by done. assert (C4 : 7476 # 1000 >= 0) by done.
  assert (C5 : 7475 # 1000 >= 0) by done.
  destruct (sums_step (748 # 100) (7479 # 1000) p1 w1 p2 w2 Q1 W1 Q2 W2 R1 G1 R2 G2
              ltac:(lra) C1) as (I2 & N2 & S2 & GN2 & GS2).
  generalize dependent (Number.add p1 p2). generalize dependent (Number.add w1 w2).
  intros s2 S2 GS2 n2 I2 N2 GN2.
  destruct (sums_step (7479 # 1000) (7478 # 1000) n2 s2 p3 w3 N2 S2 Q3 W3 GN2 GS2 R3 G3
              ltac:(lra) C2) as (I3 & N3 & S3 & GN3 & GS3).
  generalize dependent (Number.add n2 p3). generalize dependent (Number.add s2 w3).
  intros s3 S3 GS3 n3 I3 N3 GN3.
  destruct (sums_step (7478 # 1000) (7477 # 1000) n3 s3 p4 w4 N3 S3 Q4 W4 GN3 GS3 R4 G4
              ltac:(lra) C3) as (I4 & N4 & S4 & GN4 & GS4).
  generalize dependent (Number.add n3 p4). generalize dependent (Number.add s3 w4).
  intros s4 S4 GS4 n4 I4 N4 GN4.
  destruct (sums_step (7477 # 1000) (7476 # 1000) n4 s4 p5 w5 N4 S4 Q5 W5 GN4 GS4 R5 G5
              ltac:(lra) C4) as (I5 & N5 & S5 & GN5 & GS5).
  generalize dependent (Number.add n4 p5). generalize dependent (Number.add s4 w5).
  intros s5 S5 GS5 n5 I5 N5 GN5.
  destruct (sums_step (7476 # 1000) (7475 # 1000) n5 s5 p6 w6 N5 S5 Q6 W6 GN5 GS5 R6 G6
              ltac:(lra) C5) as (I6 & N6 & S6 & GN6 & GS6).
  by split.
Qed.

(** With every score at least 8, the weighted total computed in
    floating point is at least 7.5, whatever the (non-negative, not all
    zero) weights are. *)
Lemma weightedTotalOf_high (scores : Critic.CriticCategory -> Z)
    (weights : Critic.CriticCategory -> Q) :
  (forall c, (80 <= scores c)%Z) ->
  (forall c, 0 <= weights c /\ onGrid (weights c)) ->
  ~ Critic.sumWeights weights == 0 ->
  (75 <= Critic.weightedTotalOf scores weights)%Z.
Proof.
  intros Hs Hw Hsum. unfold Critic.weightedTotalOf.
  destruct (sums_high _ _ _ _ _ _ _ _ _ _ _ _
     (product_high _ _ (Hs Critic.correctness)
        (proj1 (Hw Critic.correctness)) (proj2 (Hw Critic.correctness)))
     (Hw Critic.correctness)
     (product_high _ _ (Hs Critic.completeness)
        (proj1 (Hw Critic.completeness)) (proj2 (Hw Critic.completeness)))
     (Hw Critic.completeness)
     (product_high _ _ (Hs Critic.riskCategory)
        (proj1 (Hw Critic.riskCategory)) (proj2 (Hw Critic.riskCategory)))
     (Hw Critic.riskCategory)
     (product_high _ _ (Hs Critic.testability)
        (proj1 (Hw Critic.testability)) (proj2 (Hw Critic.testability)))
     (Hw Critic.testability)
     (product_high _ _ (Hs Critic.simplicity)
        (proj1 (Hw Critic.simplicity)) (proj2 (Hw Critic.simplicity)))
     (Hw Critic.simplicity)
     (product_high _ _ (Hs Critic.maintainability)
        (proj1 (Hw Critic.maintainability)) (proj2 (Hw Critic.maintainability)))
     (Hw Critic.maintainability)) as [Hn Hnn].
  apply roundOne_high; [|exact Hn].
  apply Qle_lteq in Hnn as [Hlt|Heq]; [exact Hlt|].
  exfalso. apply Hsum. symmetry. exact Heq.
Qed.

(** The weighted total is computed as the doubles of the source compute
    it: on [boundaryScores] and [boundaryWeights] the exact total is 7.45,
    the floating-point total lies just below and is rounded to 7.4. *)
Lemma weightedTotalOf_boundary :
  Critic.weightedTotalOf boundaryScores (Critic.resolveWeights (Some boundaryWeights)) = 74%Z
  /\ (inject_Z 65 / 10 * (29 # 8) + inject_Z 86 / 10 * (31 # 8) + inject_Z 70 / 10 * (9 # 4))
     / ((29 # 8) + (31 # 8) + (9 # 4)) == 745 # 100.
Proof. split; vm_compute; reflexivity. Qed.

End WeightedTotal.

Lemma buildFindings_high (scores : Critic.CriticCategory -> Z) (st : Critic.Style)
    (policy : ResponsePolicy) (f : Critic.Finding) :
  f ∈ Critic.buildFindings scores st policy ->
  (scores (Critic.category f) < 75)%Z
  /\ (Critic.severity f = high <-> (scores (Critic.category f) <= 45)%Z).
Proof.
  unfold Critic.buildFindings. intros Hf%list_elem_of_In%in_flat_map.
  destruct Hf as (c & _ & Hf).
  destruct (decide (75 <= scores c)%Z); [done|].
  destruct Hf as [<-|[]]. simpl. split; [lia|].
  repeat case_decide; split; try done; lia.
Qed.

Lemma capItems_elem {T} (items : list T) (maxItems : Z) (x : T) :
  x ∈ capItems items maxItems -> x ∈ items.
Proof.
  unfold capItems. destruct (maxItems <? 0)%Z; [by intros ?%elem_of_nil|].
  apply subseteq_take.
Qed.

(** C4. For every critic input the verdict is [reject] exactly when
    correctness or completeness scores below 5 or some finding is of high
    severity in correctness, completeness or risk; otherwise it is
    [approve] exactly when the weighted total is at least 7.5 and no
    finding is of high severity; otherwise it is [revise].  In particular
    a correctness score of 4 yields [reject] whatever the other scores,
    the total and the findings are, and a subject whose six scores are
    all at least 8 is approved (it has no finding at all). *)
Theorem criticVerdict :
  (forall input : Critic.CriticInput,
     let out := Critic.runCriticReview input in
     (Critic.verdict out = Critic.reject
      <-> rejectCondition (Critic.scores out) (Critic.findings out))
     /\ (Critic.verdict out = Critic.approve
         <-> ~ rejectCondition (Critic.scores out) (Critic.findings out)
             /\ approveCondition (Critic.weightedTotal out) (Critic.findings out))
     /\ (Critic.verdict out = Critic.revise
         <-> ~ rejectCondition (Critic.scores out) (Critic.findings out)
             /\ ~ approveCondition (Critic.weightedTotal out) (Critic.findings out)))
  /\ (forall (scores : Critic.CriticCategory -> Z) (weightedTotal : Z)
        (findings : list Critic.Finding),
        scores Critic.correctness = 40%Z ->
        Critic.resolveVerdict scores weightedTotal findings = Critic.reject)
  /\ (forall input : Critic.CriticInput,
        let out := Critic.runCriticReview input in
        (forall c, (80 <= Critic.scores out c)%Z) ->
        Critic.findings out = [] /\ Critic.verdict out = Critic.approve).
Proof.
  split; [|split].
  - intros input out. subst out. unfold Critic.runCriticReview.
    cbn [Critic.verdict Critic.scores Critic.weightedTotal Critic.findings].
    apply resolveVerdict_spec.
  - intros scores wt fs Hc.
    apply (proj1 (resolveVerdict_spec scores wt fs)). left. lia.
  - intros input out Hall. subst out. unfold Critic.runCriticReview in *.
    cbn [Critic.verdict Critic.scores Critic.weightedTotal Critic.findings] in *.
    set (scores := Critic.scoresOf (Critic.sourceTextOf input)) in *.
    set (fs := capItems _ _).
    assert (Hnone : fs = []).
    { destruct fs as [|f rest] eqn:E; [done|]. exfalso.
      assert (Hf : f ∈ fs) by (rewrite E; left).
      apply capItems_elem, buildFindings_high in Hf as [Hlt _].
      specialize (Hall (Critic.category f)). lia. }
    split; [done|]. rewrite Hnone.
    apply (proj1 (proj2 (resolveVerdict_spec _ _ _))). split.
    + intros [H|[H|(f & Hf & _)]].
      * specialize (Hall Critic.correctness). lia.
      * specialize (Hall Critic.completeness). lia.
      * by apply elem_of_nil in Hf.
    + split.
      * apply weightedTotalOf_high.
        -- intros c. specialize (Hall c). lia.
        -- apply resolveWeights_spec.
        -- apply resolveWeights_sum.
      * intros (f & Hf & _). by apply elem_of_nil in Hf.
Qed.

Lemma criticVerdict_witness :
  Critic.scores (Critic.runCriticReview strongSubject) Critic.correctness = 85%Z
  /\ Critic.verdict (Critic.runCriticReview strongSubject) = Critic.approve.
Proof.
  split; [vm_compute; reflexivity|].
  refine (proj2 (proj2 (proj2 criticVerdict) strongSubject _)).
  intros c. destruct c; vm_compute; discriminate.
Defined.

(** ** Consistency Checker *)

Section CycleDetection.

Variable randomUUID : nat -> text.
Variable edges : gmap text (list text).
Variable policy : ResponsePolicy.

Lemma size_unvisited_mono (V V' : gset text) :
  V ⊆ V' -> size (dom edges ∖ V') <= size (dom edges ∖ V).
Proof. intros H. apply subseteq_size. set_solver. Qed.

Lemma size_unvisited_lt (V : gset text) (node : text) :
  node ∈ dom edges -> node ∉ V ->
  size (dom edges ∖ ({[ node ]} ∪ V)) < size (dom edges ∖ V).
Proof.
  intros Hd Hv. apply subset_size. apply strict_spec. split; [set_solver|].
  intros Hsub. assert (Hin : node ∈ dom edges ∖ V) by set_solver.
  apply Hsub in Hin. set_solver.
Qed.

Lemma dfsDeps_spec (v : text -> Consistency.DfsState -> option Consistency.DfsState)
    (V : gset text) (deps : list text) :
  (forall d st, d ∈ dom edges -> V ⊆ Consistency.visited st ->
     exists st', v d st = Some st' /\ Consistency.visited st ⊆ Consistency.visited st') ->
  forall st, V ⊆ Consistency.visited st ->
    exists st', Consistency.dfsDeps edges v deps st = Some st'
                /\ Consistency.visited st ⊆ Consistency.visited st'.
Proof.
  intros Hv. induction deps as [|d deps IH]; intros st HV; simpl; [by exists st|].
  destruct (decide (is_Some (edges !! d))) as [Hd|_]; [|by apply IH].
  apply elem_of_dom in Hd.
  destruct (Hv d st Hd HV) as (st1 & -> & Hsub1).
  destruct (IH st1) as (st2 & -> & Hsub2); [set_solver|].
  exists st2. split; [done|set_solver].
Qed.

Lemma dfs_spec (fuel : nat) : forall (node : text) (st : Consistency.DfsState),
  node ∈ dom edges ->
  size (dom edges ∖ Consistency.visited st) < fuel ->
  exists st', Consistency.dfs randomUUID edges policy fuel node st = Some st'
              /\ Consistency.visited st ⊆ Consistency.visited st'.
Proof.
  induction fuel as [|fuel IH]; intros node st Hdom Hfuel; [lia|]. simpl.
  destruct (decide (node ∈ Consistency.stack st)); [by eexists|].
  destruct (decide (node ∈ Consistency.visited st)) as [|Hnew]; [by exists st|].
  set (st1 := {| Consistency.visited := {[ node ]} ∪ Consistency.visited st;
                 Consistency.stack := {[ node ]} ∪ Consistency.stack st;
                 Consistency.found := Consistency.found st;
                 Consistency.drawn := Consistency.drawn st |}).
  destruct (dfsDeps_spec (Consistency.dfs randomUUID edges policy fuel)
              ({[ node ]} ∪ Consistency.visited st) (default [] (edges !! node)))
    with (st := st1) as (st2 & -> & Hsub); [|done|].
  - intros d st0 Hd HV. apply IH; [done|].
    pose proof (size_unvisited_mono _ _ HV).
    pose proof (size_unvisited_lt (Consistency.visited st) node Hdom Hnew). lia.
  - eexists. split; [done|]. simpl in *. set_solver.
Qed.

Lemma dfsAll_spec (fuel : nat) (steps : list Consistency.Step) :
  size (dom edges) < fuel ->
  (forall s, s ∈ steps -> Consistency.id s ∈ dom edges) ->
  forall st, exists st', Consistency.dfsAll randomUUID edges policy fuel steps st = Some st'.
Proof.
  intros Hfuel. induction steps as [|s rest IH]; intros Hkeys st; simpl; [by eexists|].
  destruct (dfs_spec fuel (Consistency.id s) st) as (st1 & -> & _).
  - apply Hkeys. by left.
  - pose proof (size_unvisited_mono ∅ (Consistency.visited st)) as Hm.
    replace (dom edges ∖ ∅) with (dom edges) in Hm by set_solver.
    assert (∅ ⊆ Consistency.visited st) by set_solver. specialize (Hm H). lia.
  - apply IH. intros s' Hs'. apply Hkeys. by right.
Qed.

End CycleDetection.

Lemma edgesOf_dom (steps : list Consistency.Step) (s : Consistency.Step) :
  s ∈ steps -> Consistency.id s ∈ dom (Consistency.edgesOf steps).
Proof.
  intros Hs. apply elem_of_dom.
  destruct (Consistency.edgesOf steps !! Consistency.id s) eqn:E; [eauto|].
  unfold Consistency.edgesOf in E. rewrite mapOf_lookup_None in E.
  destruct (E (Consistency.dependsOn s)). apply list_elem_of_fmap. eauto.
Qed.

(** The traversal never runs out of the fuel that
    [detectCircularDependencies] grants. *)
Lemma detectCircularDependencies_fuel (randomUUID : nat -> text)
    (steps : list Consistency.Step) (policy : ResponsePolicy) (n : nat) :
  Consistency.detectCircularDependenciesFuel randomUUID (S (length steps)) steps policy n
  = Some (Consistency.detectCircularDependencies randomUUID steps policy n).
Proof.
  unfold Consistency.detectCircularDependencies, Consistency.detectCircularDependenciesFuel.
  edestruct (dfsAll_spec randomUUID (Consistency.edgesOf steps) policy (S (length steps)) steps)
    as (st & ->).
  - rewrite size_dom. unfold Consistency.edgesOf.
    pose proof (mapOf_size (map (fun s => (Consistency.id s, Consistency.dependsOn s)) steps)) as Hsz.
    rewrite length_map in Hsz. lia.
  - apply edgesOf_dom.
  - done.
Qed.

(** C5. The issues returned by [runConsistencyCheck] are the collected
    issues capped to the policy's [maxFindings]; [pass] is true exactly
    when that capped list is empty, and [total] and [highSeverity] count
    the capped list.  On [crowdedDraft] seven issues are collected, all
    of high severity, and the summary counts the six that survive the
    cap. *)
Theorem runConsistencyCheck_summary :
  (forall (randomUUID : nat -> text) (input : Consistency.ConsistencyCheckInput) (n : nat),
     let out := fst (Consistency.runConsistencyCheck randomUUID input n) in
     let collected := fst (Consistency.collectIssues randomUUID input n) in
     Consistency.issues out = capItems collected (maxFindings (Consistency.policy input))
     /\ (Consistency.pass (Consistency.summary out) = true <-> Consistency.issues out = [])
     /\ Consistency.total (Consistency.summary out) = length (Consistency.issues out)
     /\ Consistency.highSeverity (Consistency.summary out)
        = length (filter (fun issue => Consistency.severity issue = high)
                    (Consistency.issues out)))
  /\ (forall (randomUUID : nat -> text) (n : nat),
        let out := fst (Consistency.runConsistencyCheck randomUUID crowdedDraft n) in
        let collected := fst (Consistency.collectIssues randomUUID crowdedDraft n) in
        length collected = 7
        /\ length (filter (fun issue => Consistency.severity issue = high) collected) = 7
        /\ Consistency.total (Consistency.summary out) = 6
        /\ Consistency.highSeverity (Consistency.summary out) = 6
        /\ Consistency.pass (Consistency.summary out) = false).
Proof.
  split.
  - intros randomUUID input n out collected. subst out collected.
    unfold Consistency.runConsistencyCheck, mbind, IdGen_bind, mret, IdGen_ret.
    destruct (Consistency.collectIssues randomUUID input n) as [collected n'] eqn:E. simpl.
    split; [done|]. split; [|done].
    rewrite bool_decide_eq_true. split.
    + by intros ?%nil_length_inv.
    + by intros ->.
  - intros randomUUID n. repeat split; vm_compute; reflexivity.
Qed.


(* ===================================================================== *)
(** * Further properties of the utilities and of the engine *)
(* ===================================================================== *)

(** ** Truncation and capping *)

(** X1. [truncateText] returns the input unchanged when it fits; a text
    that does not fit is cut to exactly [maxChars] characters, the last
    three being the ellipsis marker when [maxChars] exceeds 3 and a plain
    prefix of the input otherwise; a cap of zero or less gives the empty
    text. *)
Theorem truncateText_spec (input : text) (maxChars : Z) :
  ((maxChars <= 0)%Z -> truncateText input maxChars = [])
  /\ ((0 < maxChars)%Z -> (Z.of_nat (length input) <= maxChars)%Z ->
      truncateText input maxChars = input)
  /\ ((3 < maxChars)%Z -> (maxChars < Z.of_nat (length input))%Z ->
      truncateText input maxChars = take (Z.to_nat maxChars - 3) input ++ str "..."
      /\ Z.of_nat (length (truncateText input maxChars)) = maxChars)
  /\ ((0 < maxChars <= 3)%Z -> (maxChars < Z.of_nat (length input))%Z ->
      truncateText input maxChars = take (Z.to_nat maxChars) input
      /\ Z.of_nat (length (truncateText input maxChars)) = maxChars).
Proof.
  unfold truncateText, Js.slice0. repeat split.
  - intros H. apply Z.leb_le in H. by rewrite H.
  - intros H0 H1. apply Z.leb_gt in H0. apply Z.leb_le in H1. by rewrite H0, H1.
  - assert (E0 : (maxChars <=? 0)%Z = false) by (apply Z.leb_gt; lia).
    assert (E1 : (Z.of_nat (length input) <=? maxChars)%Z = false) by (apply Z.leb_gt; lia).
    assert (E3 : (maxChars <=? 3)%Z = false) by (apply Z.leb_gt; lia).
    rewrite E0, E1, E3. do 2 f_equal. lia.
  - assert (E0 : (maxChars <=? 0)%Z = false) by (apply Z.leb_gt; lia).
    assert (E1 : (Z.of_nat (length input) <=? maxChars)%Z = false) by (apply Z.leb_gt; lia).
    assert (E3 : (maxChars <=? 3)%Z = false) by (apply Z.leb_gt; lia).
    rewrite E0, E1, E3, length_app, length_take. simpl. lia.
  - assert (E0 : (maxChars <=? 0)%Z = false) by (apply Z.leb_gt; lia).
    assert (E1 : (Z.of_nat (length input) <=? maxChars)%Z = false) by (apply Z.leb_gt; lia).
    assert (E3 : (maxChars <=? 3)%Z = true) by (apply Z.leb_le; lia).
    by rewrite E0, E1, E3.
  - assert (E0 : (maxChars <=? 0)%Z = false) by (apply Z.leb_gt; lia).
    assert (E1 : (Z.of_nat (length input) <=? maxChars)%Z = false) by (apply Z.leb_gt; lia).
    assert (E3 : (maxChars <=? 3)%Z = true) by (apply Z.leb_le; lia).
    rewrite E0, E1, E3, length_take. lia.
Qed.

Lemma truncateText_spec_witness :
  truncateText (str "abcdefghij") 8 = str "abcde..."
  /\ Z.of_nat (length (truncateText (str "abcdefghij") 8)) = 8%Z.
Proof.
  apply (proj1 (proj2 (proj2 (truncateText_spec (str "abcdefghij") 8)))); simpl; lia.
Defined.

(** X2. [truncateArray] reports [truncated] exactly when it returns
    fewer items than it was given; the items it returns are a prefix of
    the input, at most [maxItems] of them. *)
Theorem truncateArray_spec {T} (items : list T) (maxItems : Z) :
  let r := truncateArray items maxItems in
  (snd r = true <-> length (fst r) < length items)
  /\ fst r = take (length (fst r)) items
  /\ (Z.of_nat (length (fst r)) <= Z.max 0 maxItems)%Z.
Proof.
  unfold truncateArray.
  destruct (maxItems <? 0)%Z eqn:E0; simpl.
  - rewrite bool_decide_eq_true. split; [done|]. split; [done|lia].
  - apply Z.ltb_ge in E0.
    destruct (Z.of_nat (length items) <=? maxItems)%Z eqn:E1; simpl.
    + apply Z.leb_le in E1. split; [split; [done|lia]|].
      split; [by rewrite firstn_all|lia].
    + apply Z.leb_gt in E1. rewrite length_take.
      split; [split; [lia|done]|]. split; [|lia].
      f_equal. lia.
Qed.

(** X3. The token estimate is the number of characters divided by four
    and rounded up, and never less than one. *)
Theorem estimateTokensFromText_bounds (t : text) :
  1 <= estimateTokensFromText t
  /\ length t <= 4 * estimateTokensFromText t
  /\ (1 <= length t -> 4 * estimateTokensFromText t < length t + 4).
Proof.
  unfold estimateTokensFromText.
  pose proof (Nat.div_mod_eq (length t + 3) 4) as Hd.
  pose proof (Nat.mod_upper_bound (length t + 3) 4). lia.
Qed.

(** ** White space normalization *)

Lemma collapseSpaces_cons_word (c : ascii) (r : text) :
  Js.isSpace c = false -> Js.collapseSpaces (c :: r) = c :: Js.collapseSpaces r.
Proof. intros H. simpl. by rewrite H. Qed.

Lemma collapseSpaces_head (s : text) (c : ascii) :
  head s = Some c -> Js.isSpace c = false -> head (Js.collapseSpaces s) = Some c.
Proof. destruct s as [|d r]; [done|]. intros [= ->] H. simpl. by rewrite H. Qed.

Lemma collapseSpaces_singleSpaced (s : text) : singleSpaced (Js.collapseSpaces s) = true.
Proof.
  induction s as [|c r IH]; [done|].
  destruct (Js.isSpace c) eqn:Ec.
  - simpl. rewrite Ec. destruct r as [|c2 r']; [done|].
    destruct (Js.isSpace c2) eqn:E2; [exact IH|].
    rewrite collapseSpaces_cons_word in * by done.
    simpl. simpl in IH. rewrite E2 in *. exact IH.
  - rewrite collapseSpaces_cons_word by done. simpl. by rewrite Ec, IH.
Qed.

Lemma collapseSpaces_fixed (s : text) : singleSpaced s = true -> Js.collapseSpaces s = s.
Proof.
  induction s as [|c r IH]; [done|]. simpl.
  destruct (Js.isSpace c) eqn:Ec.
  - intros [[Hc Hr]%andb_true_iff Hs]%andb_true_iff. apply bool_decide_eq_true in Hc as ->.
    destruct r as [|c2 r']; [done|]. apply negb_true_iff in Hr. rewrite Hr.
    by rewrite IH.
  - intros Hs. by rewrite IH.
Qed.

Lemma singleSpaced_app_l (a b : text) : singleSpaced (a ++ b) = true -> singleSpaced a = true.
Proof.
  induction a as [|c r IH]; [done|]. simpl.
  intros [Hc Hs]%andb_true_iff. rewrite (IH Hs), andb_true_r.
  destruct (Js.isSpace c); [|done].
  apply andb_true_iff in Hc as [-> Hn]. simpl.
  destruct r; [done|]. exact Hn.
Qed.

Lemma singleSpaced_app_r (a b : text) : singleSpaced (a ++ b) = true -> singleSpaced b = true.
Proof.
  induction a as [|c r IH]; [done|]. simpl. intros [_ Hs]%andb_true_iff. by apply IH.
Qed.

Lemma trimStart_split (s : text) :
  exists p, s = p ++ Js.trimStart s /\ Forall (fun c => Js.isSpace c = true) p.
Proof.
  induction s as [|c r (p & Hp & Hall)]; [by exists []|]. simpl.
  destruct (Js.isSpace c) eqn:Ec.
  - exists (c :: p). split; [simpl; by f_equal|]. by constructor.
  - by exists [].
Qed.

Lemma trimStart_head (s : text) (c : ascii) :
  head (Js.trimStart s) = Some c -> Js.isSpace c = false.
Proof.
  induction s as [|d r IH]; [done|]. simpl.
  destruct (Js.isSpace d) eqn:Ed; [exact IH|]. by intros [= <-].
Qed.

Lemma trimStart_fixed (s : text) :
  (forall c, head s = Some c -> Js.isSpace c = false) -> Js.trimStart s = s.
Proof. destruct s as [|c r]; [done|]. intros H. simpl. by rewrite (H c eq_refl). Qed.

Lemma trimEnd_split (s : text) :
  exists q, s = Js.trimEnd s ++ q /\ Forall (fun c => Js.isSpace c = true) q.
Proof.
  unfold Js.trimEnd. destruct (trimStart_split (rev s)) as (p & Hp & Hall).
  exists (rev p). split; [|by apply Forall_rev].
  rewrite <- rev_app_distr, <- Hp. by rewrite rev_involutive.
Qed.

Lemma last_rev_head (s : text) : last (rev s) = head s.
Proof. destruct s as [|c r]; [done|]. simpl. by rewrite last_snoc. Qed.

Lemma head_rev_last (s : text) : head (rev s) = last s.
Proof. by rewrite <- last_rev_head, rev_involutive. Qed.

Lemma trimEnd_last (s : text) (c : ascii) :
  last (Js.trimEnd s) = Some c -> Js.isSpace c = false.
Proof. unfold Js.trimEnd. rewrite last_rev_head. apply trimStart_head. Qed.

Lemma trimEnd_fixed (s : text) :
  (forall c, last s = Some c -> Js.isSpace c = false) -> Js.trimEnd s = s.
Proof.
  intros H. unfold Js.trimEnd. rewrite trimStart_fixed; [apply rev_involutive|].
  intros c. rewrite head_rev_last. apply H.
Qed.

Lemma trimEnd_head (s : text) (c : ascii) :
  (forall d, head s = Some d -> Js.isSpace d = false) ->
  head (Js.trimEnd s) = Some c -> Js.isSpace c = false.
Proof.
  intros Hs. destruct (trimEnd_split s) as (q & Hq & _).
  destruct (Js.trimEnd s) as [|d r] eqn:E; [done|].
  intros [= ->]. apply Hs. by rewrite Hq.
Qed.

Lemma trim_trimmed (s : text) : trimmed (Js.trim s).
Proof.
  unfold trimmed, Js.trim. split.
  - intros c. apply trimEnd_head. apply trimStart_head.
  - apply trimEnd_last.
Qed.

Lemma trim_singleSpaced (s : text) :
  singleSpaced s = true -> singleSpaced (Js.trim s) = true.
Proof.
  intros Hs. unfold Js.trim.
  destruct (trimStart_split s) as (p & Hp & _).
  destruct (trimEnd_split (Js.trimStart s)) as (q & Hq & _).
  rewrite Hp in Hs. apply singleSpaced_app_r in Hs.
  rewrite Hq in Hs. by apply singleSpaced_app_l in Hs.
Qed.

(** X4. [normalizeWhitespace] yields a text that neither starts nor
    ends with white space and in which white space occurs only as single
    spaces; such a text is left unchanged, so normalizing twice is the
    same as normalizing once. *)
Theorem normalizeWhitespace_normal (input : text) :
  singleSpaced (normalizeWhitespace input) = true
  /\ trimmed (normalizeWhitespace input)
  /\ normalizeWhitespace (normalizeWhitespace input) = normalizeWhitespace input.
Proof.
  assert (Hs : singleSpaced (normalizeWhitespace input) = true).
  { apply trim_singleSpaced, collapseSpaces_singleSpaced. }
  pose proof (trim_trimmed (Js.collapseSpaces input)) as Ht.
  split; [done|]. split; [done|].
  unfold normalizeWhitespace at 1. fold (normalizeWhitespace input).
  rewrite (collapseSpaces_fixed _ Hs). unfold Js.trim.
  destruct Ht as [Hh Hl]. fold (normalizeWhitespace input) in Hh, Hl.
  rewrite (trimStart_fixed _ Hh). by apply trimEnd_fixed.
Qed.

(** ** Case-insensitive deduplication *)

Lemma pickUniqueFrom_spec (seen values : list text) :
  sublist (pickUniqueFrom seen values) values
  /\ NoDup (map Js.toLowerCase (pickUniqueFrom seen values))
  /\ (forall w, w ∈ pickUniqueFrom seen values -> Js.toLowerCase w ∉ seen)
  /\ (forall v, v ∈ values ->
        Js.toLowerCase v ∈ seen
        \/ Js.toLowerCase v ∈ map Js.toLowerCase (pickUniqueFrom seen values)).
Proof.
  revert seen. induction values as [|v rest IH]; intros seen; simpl.
  - split; [constructor|]. split; [constructor|]. split; [by intros w ?%elem_of_nil|].
    by intros v ?%elem_of_nil.
  - destruct (bool_decide (Js.toLowerCase v ∈ seen)) eqn:E.
    + apply bool_decide_eq_true in E.
      destruct (IH seen) as (Hsub & Hnd & Hfresh & Hcov).
      split; [by apply sublist_cons|]. split; [done|]. split; [done|].
      intros x [->|Hx]%elem_of_cons; [by left|by apply Hcov].
    + apply bool_decide_eq_false in E.
      destruct (IH (Js.toLowerCase v :: seen)) as (Hsub & Hnd & Hfresh & Hcov).
      split; [by apply sublist_skip|]. split; [|split].
      * simpl. apply NoDup_cons. split; [|done].
        intros (w & Hw & Hin)%list_elem_of_fmap. apply (Hfresh w Hin). rewrite <- Hw. by left.
      * intros w [->|Hw]%elem_of_cons; [done|].
        intros Hin. apply (Hfresh w Hw). by right.
      * intros x [->|Hx]%elem_of_cons; [right; simpl; by left|].
        destruct (Hcov x Hx) as [[Heq|Hs]%elem_of_cons|Hin].
        -- right. simpl. rewrite Heq. by left.
        -- by left.
        -- right. simpl. by right.
Qed.

(** X5. [pickUniqueStrings] keeps a subsequence of its input in which no
    two values are equal up to letter case, and every input value has a
    representative (equal up to case) in the result. *)
Theorem pickUniqueStrings_spec (values : list text) :
  sublist (pickUniqueStrings values) values
  /\ NoDup (map Js.toLowerCase (pickUniqueStrings values))
  /\ (forall v, v ∈ values ->
        exists w, w ∈ pickUniqueStrings values /\ Js.toLowerCase w = Js.toLowerCase v).
Proof.
  destruct (pickUniqueFrom_spec [] values) as (Hsub & Hnd & _ & Hcov).
  split; [done|]. split; [done|].
  intros v Hv. destruct (Hcov v Hv) as [Hin|Hin]; [by apply elem_of_nil in Hin|].
  apply list_elem_of_fmap in Hin as (w & Hw & Hin). eauto.
Qed.

(** X6. [sanitizeTextList] returns at most [maxItems] texts, none of
    them empty and none longer than [maxChars]. *)
Theorem sanitizeTextList_bounds (values : option (list text)) (maxItems maxChars : Z) :
  (Z.of_nat (length (sanitizeTextList values maxItems maxChars)) <= Z.max 0 maxItems)%Z
  /\ Forall (fun v => 0 < length v /\ (Z.of_nat (length v) <= Z.max 0 maxChars)%Z)
       (sanitizeTextList values maxItems maxChars).
Proof.
  unfold sanitizeTextList. destruct values as [[|v vs]|]; try (split; [simpl; lia|constructor]).
  split; [apply capItems_length|].
  apply Forall_forall. intros x Hx%capItems_elem.
  apply list_elem_of_filter in Hx as [Hpos Hx].
  apply list_elem_of_fmap in Hx as (raw & -> & _).
  split; [done|apply sanitizeText_length].
Qed.

(** ** Plan Builder: shape of a plan *)

Lemma topologicalOrder_length (subtasks : list Plan.NormalizedSubtask) :
  length (Plan.topologicalOrder subtasks) <= length subtasks.
Proof.
  destruct (topologicalOrder_ids subtasks) as (Hnd & Hsub & _).
  rewrite <- (length_map Plan.id (Plan.topologicalOrder subtasks)).
  rewrite <- (length_map Plan.id subtasks).
  apply submseteq_length, NoDup_submseteq; [done|].
  intros x (n & -> & Hn)%list_elem_of_fmap. apply list_elem_of_fmap.
  exists n. split; [done|]. by apply Hsub.
Qed.

Lemma buildPlan_stepIds_NoDup (input : Plan.BuildPlanInput) :
  NoDup (map Plan.stepId (Plan.steps (Plan.buildPlan input))).
Proof.
  apply NoDup_alt. intros i j x Hi Hj.
  rewrite list_lookup_fmap in Hi. rewrite list_lookup_fmap in Hj.
  destruct (Plan.steps (Plan.buildPlan input) !! i) as [si|] eqn:Ei; [|done].
  destruct (Plan.steps (Plan.buildPlan input) !! j) as [sj|] eqn:Ej; [|done].
  apply buildPlan_steps_lookup in Ei as (? & _ & ->).
  apply buildPlan_steps_lookup in Ej as (? & _ & ->).
  simpl in *. apply stepIdByIndex_inj. congruence.
Qed.

(** X7. The steps of a plan are numbered from one in output order: the
    step at position [i] has order [i + 1], the id [step_(i+1)] and the
    status [pending]; step ids are pairwise distinct; there are at most
    [max 3 maxSubtasks] steps, and the summary counts them. *)
Theorem buildPlan_shape (input : Plan.BuildPlanInput) :
  let out := Plan.buildPlan input in
  (forall i s, Plan.steps out !! i = Some s ->
     Plan.order s = i + 1
     /\ Plan.stepId s = str "step_" ++ Js.showNat (i + 1)
     /\ Plan.status s = Plan.pending)
  /\ NoDup (map Plan.stepId (Plan.steps out))
  /\ (Z.of_nat (length (Plan.steps out)) <= Z.max 3 (maxSubtasks (Plan.policy input)))%Z
  /\ Plan.totalSteps (Plan.planSummary out) = length (Plan.steps out)
  /\ Plan.highRiskSteps (Plan.planSummary out) <= length (Plan.steps out).
Proof.
  intros out. split; [|split; [|split; [|split]]].
  - intros i s Hs. apply buildPlan_steps_lookup in Hs as (sub & _ & ->). by simpl.
  - apply buildPlan_stepIds_NoDup.
  - unfold out, Plan.buildPlan. cbn [Plan.steps]. rewrite length_imap.
    unfold Plan.orderedSubtasks.
    etransitivity; [apply inj_le, topologicalOrder_length|].
    etransitivity; [apply capItems_length|]. lia.
  - reflexivity.
  - unfold out, Plan.buildPlan. cbn [Plan.planSummary Plan.highRiskSteps Plan.steps].
    apply length_filter.
Qed.

(** ** Plan Builder: strategy transforms *)

Lemma compressPairs_length (policy : ResponsePolicy) (n : nat) :
  forall subtasks compressed : list Plan.NormalizedSubtask,
    length subtasks <= n ->
    length (Plan.compressPairs policy subtasks compressed)
    = length compressed + (length subtasks + 1) / 2.
Proof.
  induction n as [n IH] using lt_wf_ind. intros subtasks compressed Hn.
  destruct subtasks as [|a [|b rest]].
  - simpl. lia.
  - simpl. rewrite length_app. simpl. lia.
  - cbn [Plan.compressPairs]. rewrite (IH (length rest)); [|simpl in Hn; lia|done].
    rewrite length_app. cbn [length].
    replace (S (S (length rest)) + 1) with (length rest + 1 + 1 * 2) by lia.
    rewrite Nat.div_add by lia. lia.
Qed.

Lemma compressForFastest_cases (subtasks : list Plan.NormalizedSubtask)
    (policy : ResponsePolicy) :
  (length subtasks <= 4
   /\ length (Plan.compressForFastest subtasks policy) = length subtasks)
  \/ (4 < length subtasks
      /\ length (Plan.compressForFastest subtasks policy) = (length subtasks + 1) / 2).
Proof.
  unfold Plan.compressForFastest.
  destruct (decide (length subtasks <= 4)); [by left|right].
  split; [lia|]. by rewrite (compressPairs_length policy (length subtasks)).
Qed.

Lemma expandForRisk_sublist (subtasks : list Plan.NormalizedSubtask)
    (policy : ResponsePolicy) :
  sublist subtasks (Plan.expandForRisk subtasks policy).
Proof.
  unfold Plan.expandForRisk. induction subtasks as [|s rest IH]; [constructor|].
  cbn [flat_map]. destruct (decide _); cbn [app].
  - by apply sublist_skip.
  - by apply sublist_skip, sublist_cons.
Qed.

Lemma compressPairs_lookup (policy : ResponsePolicy) (n : nat) :
  forall subtasks compressed : list Plan.NormalizedSubtask,
    length subtasks <= n ->
    (forall k, k < length compressed ->
       Plan.compressPairs policy subtasks compressed !! k = compressed !! k)
    /\ (forall k first second,
          subtasks !! (2 * k) = Some first ->
          subtasks !! (2 * k + 1) = Some second ->
          Plan.compressPairs policy subtasks compressed !! (length compressed + k)
          = Some {| Plan.id := str "merged_" ++ Js.showNat (length compressed + k + 1);
                    Plan.title :=
                      sanitizeText (Plan.title first ++ str " + " ++ Plan.title second)
                        (textMaxChars policy);
                    Plan.dependsOn :=
                      Js.uniq [] (Plan.dependsOn first ++ Plan.dependsOn second) |})
    /\ (forall k first,
          subtasks !! (2 * k) = Some first ->
          subtasks !! (2 * k + 1) = None ->
          Plan.compressPairs policy subtasks compressed !! (length compressed + k)
          = Some first).
Proof.
  induction n as [n IH] using lt_wf_ind. intros subtasks compressed Hn.
  destruct subtasks as [|a [|b rest]].
  - cbn [Plan.compressPairs]. split; [done|]. split; intros k ?; intros; by destruct k.
  - cbn [Plan.compressPairs]. split; [|split].
    + intros k Hk. by rewrite lookup_app_l.
    + intros [|k] first second H1 H2; [done|].
      by replace (2 * S k) with (S (S (2 * k))) in H1 by lia.
    + intros [|k] first H1 H2.
      * injection H1 as <-. rewrite Nat.add_0_r, lookup_app_r by lia.
        by rewrite Nat.sub_diag.
      * by replace (2 * S k) with (S (S (2 * k))) in H1 by lia.
  - cbn [Plan.compressPairs].
    destruct (IH (length rest) ltac:(simpl in Hn; lia) rest
                (compressed ++
                 [ {| Plan.id := str "merged_" ++ Js.showNat (length compressed + 1);
                      Plan.title :=
                        sanitizeText (Plan.title a ++ str " + " ++ Plan.title b)
                          (textMaxChars policy);
                      Plan.dependsOn :=
                        Js.uniq [] (Plan.dependsOn a ++ Plan.dependsOn b) |} ])
                ltac:(done)) as (Hkeep & Hpair & Hlast).
    rewrite length_app in Hkeep, Hpair, Hlast. cbn [length] in Hkeep, Hpair, Hlast.
    split; [|split].
    + intros k Hk. rewrite Hkeep by lia. by rewrite lookup_app_l.
    + intros [|k] first second H1 H2.
      * injection H1 as <-. injection H2 as <-.
        rewrite Nat.add_0_r, Hkeep by lia.
        rewrite lookup_app_r by lia. by rewrite Nat.sub_diag.
      * replace (2 * S k) with (S (S (2 * k))) in H1 by lia.
        replace (2 * S k + 1) with (S (S (2 * k + 1))) in H2 by lia.
        cbn [lookup list_lookup] in H1, H2.
        specialize (Hpair k first second H1 H2).
        replace (length compressed + S k) with (length compressed + 1 + k) by lia.
        exact Hpair.
    + intros [|k] first H1 H2; [done|].
      replace (2 * S k) with (S (S (2 * k))) in H1 by lia.
      replace (2 * S k + 1) with (S (S (2 * k + 1))) in H2 by lia.
      cbn [lookup list_lookup] in H1, H2.
      replace (length compressed + S k) with (length compressed + 1 + k) by lia.
      by apply Hlast.
Qed.

(** X8. Under the [fastest] strategy a list of at most four subtasks is
    left as it is.  A longer list is merged pairwise into half as many
    subtasks (rounded up): the subtask at position [k] of the result
    merges the given subtasks at positions [2k] and [2k+1]; its id is
    [merged_] followed by [k+1], its title is the two titles joined by
    [" + "] and cut to the policy's text size, and its dependencies are
    those of the first followed by those of the second, each kept once.
    A last subtask without a partner is kept unchanged. *)
Theorem compressForFastest_merged (subtasks : list Plan.NormalizedSubtask)
    (policy : ResponsePolicy) :
  (length subtasks <= 4 -> Plan.compressForFastest subtasks policy = subtasks)
  /\ (4 < length subtasks ->
      length (Plan.compressForFastest subtasks policy) = (length subtasks + 1) / 2
      /\ (forall k first second,
            subtasks !! (2 * k) = Some first ->
            subtasks !! (2 * k + 1) = Some second ->
            Plan.compressForFastest subtasks policy !! k
            = Some {| Plan.id := str "merged_" ++ Js.showNat (k + 1);
                      Plan.title :=
                        sanitizeText (Plan.title first ++ str " + " ++ Plan.title second)
                          (textMaxChars policy);
                      Plan.dependsOn :=
                        Js.uniq [] (Plan.dependsOn first ++ Plan.dependsOn second) |})
      /\ (forall k first,
            subtasks !! (2 * k) = Some first ->
            subtasks !! (2 * k + 1) = None ->
            Plan.compressForFastest subtasks policy !! k = Some first)).
Proof.
  unfold Plan.compressForFastest. split; intros H.
  - by destruct (decide (length subtasks <= 4)).
  - destruct (decide (length subtasks <= 4)); [lia|].
    destruct (compressPairs_lookup policy (length subtasks) subtasks [] ltac:(done))
      as (_ & Hpair & Hlast).
    split; [by rewrite (compressPairs_length policy (length subtasks))|].
    split; [exact Hpair|exact Hlast].
Qed.

(** X9. Under the [minimum-risk] strategy the given subtasks are all
    kept, in their order; at most one validation subtask is added per
    subtask, and every added one depends on exactly the subtask it
    validates. *)
Theorem expandForRisk_keeps (subtasks : list Plan.NormalizedSubtask)
    (policy : ResponsePolicy) :
  sublist subtasks (Plan.expandForRisk subtasks policy)
  /\ length (Plan.expandForRisk subtasks policy) <= 2 * length subtasks
  /\ (forall e, e ∈ Plan.expandForRisk subtasks policy ->
        e ∈ subtasks
        \/ exists s, s ∈ subtasks
                     /\ Plan.id e = Plan.id s ++ str "_verify"
                     /\ Plan.dependsOn e = [Plan.id s]).
Proof.
  unfold Plan.expandForRisk. induction subtasks as [|s rest (Hsub & Hlen & Hel)].
  - split; [constructor|]. split; [simpl; lia|]. by intros e ?%elem_of_nil.
  - cbn [flat_map]. destruct (decide _) as [Hlow|Hrisk]; cbn [app length].
    + split; [by apply sublist_skip|]. split; [lia|].
      intros e [->|He]%elem_of_cons; [left; by left|].
      destruct (Hel e He) as [?|(s' & ? & ?)]; [left; by right|].
      right. exists s'. split; [by right|done].
    + split; [by apply sublist_skip, sublist_cons|]. split; [lia|].
      intros e [->|[->|He]%elem_of_cons]%elem_of_cons.
      * left. by left.
      * right. exists s. split; [by left|done].
      * destruct (Hel e He) as [?|(s' & ? & ?)]; [left; by right|].
        right. exists s'. split; [by right|done].
Qed.

(** ** Plan Builder: dependencies come first *)

Section DependenciesFirst.

Variable byId : gmap text Plan.NormalizedSubtask.
Hypothesis byId_key : forall k n, byId !! k = Some n -> Plan.id n = k.

Lemma depsFirst_snoc (l : list Plan.NormalizedSubtask) (node : Plan.NormalizedSubtask) :
  DepsFirst byId l ->
  (forall d, d ∈ Plan.dependsOn node -> is_Some (byId !! d) ->
     d ∈ map Plan.id l \/ rtc (dependsKnown byId) d (Plan.id node)) ->
  DepsFirst byId (l ++ [node]).
Proof.
  intros HJ Hnew p n d Hp Hd Hk.
  destruct (decide (p < length l)) as [Hlt|Hge].
  - rewrite lookup_app_l in Hp by done.
    destruct (HJ p n d Hp Hd Hk) as [(q & m & Hq & Hm & Hid)|Hr]; [left|by right].
    exists q, m. split; [done|]. split; [|done]. rewrite lookup_app_l; [done|lia].
  - rewrite lookup_app_r in Hp by lia.
    destruct (p - length l) eqn:Ep; simpl in Hp; [|done].
    injection Hp as <-. destruct (Hnew d Hd Hk) as [Hin|Hr]; [left|by right].
    apply list_elem_of_fmap in Hin as (m & -> & Hm).
    apply list_elem_of_lookup in Hm as [q Hq].
    pose proof (lookup_lt_Some _ _ _ Hq) as Hql.
    exists q, m. split; [lia|]. split; [|done]. by rewrite lookup_app_l.
Qed.

Lemma visitDeps_depsFirst (v : text -> Plan.TopoState -> option Plan.TopoState)
    (W : gset text) (i : text) :
  (forall d st st', Plan.visiting st = W -> dependsKnown byId i d -> v d st = Some st' ->
     topoStep byId st st'
     /\ (d ∉ W -> d ∈ Plan.visited st')
     /\ (TopoInv byId st -> DepsFirst byId (Plan.ordered st) ->
         DepsFirst byId (Plan.ordered st'))) ->
  forall deps st st',
    (forall d, d ∈ deps -> is_Some (byId !! d) -> dependsKnown byId i d) ->
    Plan.visiting st = W ->
    Plan.visitDeps byId v deps st = Some st' ->
    topoStep byId st st'
    /\ (forall d, d ∈ deps -> is_Some (byId !! d) -> d ∈ Plan.visited st' \/ d ∈ W)
    /\ (TopoInv byId st -> DepsFirst byId (Plan.ordered st) ->
        DepsFirst byId (Plan.ordered st')).
Proof.
  intros Hv. induction deps as [|d deps IH]; intros st st' HE HW Hrun; simpl in Hrun.
  - injection Hrun as <-. split; [apply topoStep_refl|].
    split; [by intros d ?%elem_of_nil|done].
  - assert (HE' : forall d', d' ∈ deps -> is_Some (byId !! d') -> dependsKnown byId i d').
    { intros d' Hd'. apply HE. by right. }
    destruct (decide (is_Some (byId !! d))) as [Hk|Hk].
    + destruct (v d st) as [st1|] eqn:Hv1; [|done].
      assert (Hid : dependsKnown byId i d) by (apply HE; [by left|done]).
      destruct (Hv d st st1 HW Hid Hv1) as (Hs1 & Hin1 & HJ1).
      assert (HW1 : Plan.visiting st1 = W) by (destruct Hs1 as (-> & _); done).
      destruct (IH st1 st' HE' HW1 Hrun) as (Hs2 & Hin2 & HJ2).
      split; [by eapply topoStep_trans|]. split.
      * intros d' Hd' Hk'. apply elem_of_cons in Hd' as [->|Hd']; [|by apply Hin2].
        destruct (decide (d ∈ W)) as [?|Hout]; [by right|left].
        destruct Hs2 as (_ & Hsub & _). by apply Hsub, Hin1.
      * intros Hinv HJ. apply HJ2; [by apply Hs1|by apply HJ1].
    + destruct (IH st st' HE' HW Hrun) as (Hs & Hin & HJ).
      split; [done|]. split; [|done].
      intros d' Hd' Hk'. apply elem_of_cons in Hd' as [->|Hd']; [done|by apply Hin].
Qed.

Lemma visit_depsFirst (fuel : nat) : forall (i : text) (st st' : Plan.TopoState),
  size (dom byId ∖ Plan.visiting st) < fuel ->
  Plan.visit byId fuel i st = Some st' ->
  (forall a, a ∈ Plan.visiting st -> rtc (dependsKnown byId) a i) ->
  TopoInv byId st ->
  DepsFirst byId (Plan.ordered st) ->
  DepsFirst byId (Plan.ordered st').
Proof.
  induction fuel as [|fuel IH]; intros i st st' Hfuel Hrun Hanc Hinv HJ; [lia|].
  simpl in Hrun.
  destruct (decide (i ∈ Plan.visited st)); [by injection Hrun as <-|].
  destruct (decide (i ∈ Plan.visiting st)) as [|Hing]; [by injection Hrun as <-|].
  destruct (byId !! i) as [node|] eqn:Hnode; [|by injection Hrun as <-].
  pose proof (byId_key _ _ Hnode) as Hid.
  assert (Hdom : i ∈ dom byId) by (apply elem_of_dom; eauto).
  destruct (Plan.visitDeps _ _ _ _) as [st2|] eqn:Hdeps; [|done].
  injection Hrun as <-. simpl.
  assert (Hv : forall d st0 st0',
             Plan.visiting st0 = {[ i ]} ∪ Plan.visiting st ->
             dependsKnown byId i d -> Plan.visit byId fuel d st0 = Some st0' ->
             topoStep byId st0 st0'
             /\ (d ∉ {[ i ]} ∪ Plan.visiting st -> d ∈ Plan.visited st0')
             /\ (TopoInv byId st0 -> DepsFirst byId (Plan.ordered st0) ->
                 DepsFirst byId (Plan.ordered st0'))).
  { intros d st0 st0' HW HEd Hv0.
    assert (Hf : size (dom byId ∖ Plan.visiting st0) < fuel).
    { rewrite HW. pose proof (size_remaining_lt byId byId_key (Plan.visiting st) i Hdom Hing). lia. }
    destruct (visit_spec byId byId_key fuel d st0 Hf) as (st'' & Hrun'' & Hstep & Hvis).
    rewrite Hv0 in Hrun''. injection Hrun'' as <-.
    split; [done|]. split.
    - intros HdW. apply Hvis; [|by rewrite HW].
      by destruct HEd as (? & _ & _ & ?).
    - intros Hinv0 HJ0. apply (IH d st0 st0' Hf Hv0); [|done|done].
      rewrite HW. intros a [->%elem_of_singleton|Ha]%elem_of_union.
      + by apply rtc_once.
      + eapply rtc_r; [by apply Hanc|done]. }
  set (st1 := {| Plan.visited := Plan.visited st;
                 Plan.visiting := {[ i ]} ∪ Plan.visiting st;
                 Plan.ordered := Plan.ordered st |}) in *.
  assert (HE : forall d, d ∈ Plan.dependsOn node -> is_Some (byId !! d) ->
                         dependsKnown byId i d).
  { intros d Hd Hk. by exists node. }
  destruct (visitDeps_depsFirst (Plan.visit byId fuel) ({[ i ]} ∪ Plan.visiting st) i Hv
              (Plan.dependsOn node) st1 st2 HE eq_refl Hdeps) as (Hs & Hin & HJ2).
  assert (Hinv1 : TopoInv byId st1).
  { destruct Hinv as [? ? ?]. by split. }
  apply depsFirst_snoc; [by apply HJ2|].
  intros d Hd Hk. destruct (Hin d Hd Hk) as [Hvis|HW].
  - left. destruct Hs as (_ & _ & _ & Hkeep). by apply (inv_visited _ _ (Hkeep Hinv1)).
  - right. rewrite Hid. apply elem_of_union in HW as [->%elem_of_singleton|Ha]; [done|].
    by apply Hanc.
Qed.

Lemma visitAll_depsFirst (fuel : nat) (subtasks : list Plan.NormalizedSubtask) :
  size (dom byId) < fuel ->
  forall st st', Plan.visiting st = ∅ ->
    Plan.visitAll byId fuel subtasks st = Some st' ->
    TopoInv byId st ->
    DepsFirst byId (Plan.ordered st) ->
    DepsFirst byId (Plan.ordered st').
Proof.
  intros Hfuel. induction subtasks as [|s rest IH]; intros st st' Hempty Hrun Hinv HJ;
    simpl in Hrun.
  - by injection Hrun as <-.
  - destruct (Plan.visit byId fuel (Plan.id s) st) as [st1|] eqn:Hv; [|done].
    assert (Hf : size (dom byId ∖ Plan.visiting st) < fuel).
    { rewrite Hempty. replace (dom byId ∖ ∅) with (dom byId) by set_solver. done. }
    destruct (visit_spec byId byId_key fuel (Plan.id s) st Hf) as (st'' & Hrun'' & Hstep & _).
    rewrite Hv in Hrun''. injection Hrun'' as <-.
    destruct Hstep as (Hving & _ & _ & Hkeep).
    apply (IH st1 st'); [by rewrite Hving|done|by apply Hkeep|].
    apply (visit_depsFirst fuel (Plan.id s) st st1 Hf Hv); [|done|done].
    rewrite Hempty. by intros a ?%not_elem_of_empty.
Qed.

End DependenciesFirst.

(** X10. [topologicalOrder] puts dependencies first: when a subtask of
    the output declares a dependency on a known id, the subtask with that
    id stands earlier in the output, unless the dependency itself
    depends, directly or through other subtasks, on that subtask (the two
    lie on a dependency cycle). *)
Theorem topologicalOrder_dependencies_first (subtasks : list Plan.NormalizedSubtask)
    (p : nat) (n : Plan.NormalizedSubtask) (d : text) :
  Plan.topologicalOrder subtasks !! p = Some n ->
  d ∈ Plan.dependsOn n ->
  is_Some (Plan.byIdOf subtasks !! d) ->
  (exists q m, q < p /\ Plan.topologicalOrder subtasks !! q = Some m /\ Plan.id m = d)
  \/ rtc (dependsKnown (Plan.byIdOf subtasks)) d (Plan.id n).
Proof.
  destruct (topologicalOrder_run subtasks) as (st & Hrun & -> & _ & _).
  revert p n d. change (DepsFirst (Plan.byIdOf subtasks) (Plan.ordered st)).
  apply (visitAll_depsFirst (Plan.byIdOf subtasks)
           (fun k n H => proj1 (byIdOf_lookup subtasks k n H))
           (S (length subtasks)) subtasks) with (st := Plan.topoInit);
    [|done|done|apply topoInit_inv|].
  - rewrite size_dom. unfold Plan.byIdOf.
    pose proof (mapOf_size (map (fun s => (Plan.id s, s)) subtasks)) as Hsz.
    rewrite length_map in Hsz. lia.
  - intros p n d Hp. done.
Qed.

Lemma topologicalOrder_dependencies_first_witness :
  Plan.topologicalOrder reversedSubtasks !! 1
  = Some {| Plan.id := str "b"; Plan.title := str "Second"; Plan.dependsOn := [str "a"] |}
  /\ (exists q m, q < 1 /\ Plan.topologicalOrder reversedSubtasks !! q = Some m
                  /\ Plan.id m = str "a").
Proof.
  assert (H1 : Plan.topologicalOrder reversedSubtasks !! 1
               = Some {| Plan.id := str "b"; Plan.title := str "Second";
                         Plan.dependsOn := [str "a"] |}) by (vm_compute; reflexivity).
  split; [exact H1|].
  destruct (topologicalOrder_dependencies_first reversedSubtasks 1 _ (str "a") H1)
    as [Hfirst|Hcycle].
  - simpl. by left.
  - vm_compute. eauto.
  - exact Hfirst.
  - exists 0, {| Plan.id := str "a"; Plan.title := str "First"; Plan.dependsOn := [] |}.
    split; [lia|]. split; [vm_compute; reflexivity|reflexivity].
Defined.

(** ** Plan Builder: checkpoints *)

Lemma checkpointsFrom_spec (strategy : Plan.PlanStrategy) (policy : ResponsePolicy)
    (nSteps : nat) :
  forall (rest : list Plan.Step) (index : nat) (acc : list Plan.Checkpoint),
    exists new,
      Plan.checkpointsFrom strategy policy nSteps index rest acc = acc ++ new
      /\ sublist (map Plan.afterStepId new) (map Plan.stepId rest)
      /\ (forall k cp, new !! k = Some cp ->
            Plan.checkpointId cp = str "checkpoint_" ++ Js.showNat (length acc + k + 1)).
Proof.
  induction rest as [|s rest IH]; intros index acc; cbn [Plan.checkpointsFrom].
  - exists []. rewrite app_nil_r. split; [done|]. split; [constructor|]. by intros [|k] cp.
  - destruct (Plan.shouldInsert strategy nSteps s index).
    + destruct (IH (S index)
                  (acc ++
                   [ {| Plan.checkpointId :=
                          str "checkpoint_" ++ Js.showNat (length acc + 1);
                        Plan.afterStepId := Plan.stepId s;
                        Plan.purpose :=
                          sanitizeText
                            (if decide (Plan.risk s = high)
                             then str "High-risk gate: verify assumptions and consistency."
                             else str "Progress gate: confirm readiness for next phase.")
                            (textMaxChars policy) |} ]))
        as (new & -> & Hsub & Hid).
      eexists (_ :: new). rewrite <- app_assoc. split; [reflexivity|].
      split; [simpl; by apply sublist_skip|].
      intros [|k] cp Hk; simpl in Hk.
      * injection Hk as <-. cbn [Plan.checkpointId]. by rewrite Nat.add_0_r.
      * rewrite (Hid k cp Hk), length_app. cbn [length]. do 2 f_equal. lia.
    + destruct (IH (S index) acc) as (new & -> & Hsub & Hid).
      exists new. split; [done|]. split; [by apply sublist_cons|done].
Qed.

(** X11. Checkpoints follow the steps: the steps they are placed after
    form a subsequence of the plan's steps (so there is at most one
    checkpoint per step, in step order), and the checkpoint at position
    [k] is named [checkpoint_(k+1)]. *)
Theorem generateCheckpoints_shape (steps : list Plan.Step) (strategy : Plan.PlanStrategy)
    (policy : ResponsePolicy) :
  sublist (map Plan.afterStepId (Plan.generateCheckpoints steps strategy policy))
          (map Plan.stepId steps)
  /\ length (Plan.generateCheckpoints steps strategy policy) <= length steps
  /\ (forall k cp, Plan.generateCheckpoints steps strategy policy !! k = Some cp ->
        Plan.checkpointId cp = str "checkpoint_" ++ Js.showNat (k + 1)).
Proof.
  unfold Plan.generateCheckpoints.
  destruct (checkpointsFrom_spec strategy policy (length steps) steps 0 [])
    as (new & -> & Hsub & Hid).
  rewrite app_nil_l. split; [done|]. split; [|exact Hid].
  apply sublist_length in Hsub. by rewrite !length_map in Hsub.
Qed.

Lemma checkpointsFrom_fastest (policy : ResponsePolicy) (nSteps : nat) :
  forall (rest : list Plan.Step) (index : nat) (acc : list Plan.Checkpoint),
    index + length rest = nSteps ->
    map (fun cp => (Plan.checkpointId cp, Plan.afterStepId cp))
        (Plan.checkpointsFrom Plan.Fastest policy nSteps index rest acc)
    = map (fun cp => (Plan.checkpointId cp, Plan.afterStepId cp)) acc
      ++ match last rest with
         | Some s => [(str "checkpoint_" ++ Js.showNat (length acc + 1), Plan.stepId s)]
         | None => []
         end.
Proof.
  induction rest as [|s rest IH]; intros index acc Hlen.
  - simpl. by rewrite app_nil_r.
  - cbn [Plan.checkpointsFrom Plan.shouldInsert]. destruct rest as [|s2 rest'].
    + rewrite bool_decide_eq_true_2 by (simpl in Hlen; lia).
      cbn [Plan.checkpointsFrom last]. by rewrite map_app.
    + rewrite bool_decide_eq_false_2 by (simpl in Hlen; lia).
      rewrite IH by (simpl in *; lia). reflexivity.
Qed.

Lemma capItems_nonempty {T} (items : list T) (maxItems : Z) :
  (0 < maxItems)%Z -> items <> [] -> capItems items maxItems <> [].
Proof.
  intros Hm Hne. unfold capItems. destruct (maxItems <? 0)%Z eqn:E; [lia|].
  destruct items as [|x items]; [done|].
  destruct (Z.to_nat maxItems) eqn:En; [lia|]. done.
Qed.

Lemma topologicalOrder_nonempty (subtasks : list Plan.NormalizedSubtask) :
  subtasks <> [] -> Plan.topologicalOrder subtasks <> [].
Proof.
  intros Hne Hnil. destruct subtasks as [|s rest]; [done|].
  destruct (topologicalOrder_ids (s :: rest)) as (_ & _ & Hcover).
  specialize (Hcover s (list_elem_of_here _ _)). rewrite Hnil in Hcover.
  by apply elem_of_nil in Hcover.
Qed.

Lemma orderedSubtasks_nonempty (input : Plan.BuildPlanInput) :
  Plan.orderedSubtasks input <> [].
Proof.
  unfold Plan.orderedSubtasks.
  apply topologicalOrder_nonempty, capItems_nonempty; [lia|].
  assert (Hbase : 0 < length (Plan.normalizeSubtasks (Plan.goal input) (Plan.subtasks input)
                                (Plan.policy input))).
  { unfold Plan.normalizeSubtasks. destruct (Plan.subtasks input) as [[|p ps]|]; simpl; lia. }
  intros Hnil. apply (f_equal length) in Hnil. simpl in Hnil.
  destruct (Plan.strategyOf input).
  - pose proof (expandForRisk_sublist
                  (Plan.normalizeSubtasks (Plan.goal input) (Plan.subtasks input)
                     (Plan.policy input)) (Plan.policy input)) as Hsub.
    apply sublist_length in Hsub. lia.
  - destruct (compressForFastest_cases
                (Plan.normalizeSubtasks (Plan.goal input) (Plan.subtasks input)
                   (Plan.policy input)) (Plan.policy input))
      as [[_ Heq]|[Hgt Heq]]; rewrite Heq in Hnil; [lia|].
    assert (1 <= (length (Plan.normalizeSubtasks (Plan.goal input) (Plan.subtasks input)
                            (Plan.policy input)) + 1) / 2); [|lia].
    apply Nat.div_le_lower_bound; lia.
  - lia.
Qed.

(** X12. Under the [fastest] strategy, unless checkpoints are switched
    off, a plan has exactly one checkpoint: [checkpoint_1], placed after
    the plan's last step. *)
Theorem buildPlan_fastest_checkpoint (input : Plan.BuildPlanInput) :
  Plan.strategy input = Some Plan.Fastest ->
  Plan.includeCheckpoints input <> Some false ->
  map (fun cp => (Plan.checkpointId cp, Plan.afterStepId cp))
      (Plan.checkpoints (Plan.buildPlan input))
  = [ (str "checkpoint_1",
       Plan.stepIdByIndex (length (Plan.steps (Plan.buildPlan input)) - 1)) ].
Proof.
  intros Hs Hc.
  assert (Hlast : exists s, last (Plan.steps (Plan.buildPlan input)) = Some s
                            /\ Plan.stepId s
                               = Plan.stepIdByIndex
                                   (length (Plan.steps (Plan.buildPlan input)) - 1)).
  { rewrite last_lookup.
    destruct (Plan.steps (Plan.buildPlan input) !! _) as [s|] eqn:E.
    - exists s. split; [done|].
      apply buildPlan_steps_lookup in E as (sub & _ & ->). cbn [Plan.makeStep Plan.stepId].
      f_equal. lia.
    - apply lookup_ge_None in E.
      pose proof (orderedSubtasks_nonempty input) as Hne.
      unfold Plan.buildPlan in E. cbn [Plan.steps] in E. rewrite length_imap in E.
      destruct (Plan.orderedSubtasks input); [done|simpl in E; lia]. }
  destruct Hlast as (s & Hlast & Hid).
  revert Hlast Hid. unfold Plan.buildPlan. cbn [Plan.steps Plan.checkpoints].
  unfold Plan.strategyOf. rewrite Hs. cbn [default from_option id].
  set (steps := imap _ _). intros Hlast Hid.
  destruct (Plan.includeCheckpoints input) as [[|]|] eqn:Ei; [|congruence|];
    cbn [default from_option id]; unfold Plan.generateCheckpoints;
    rewrite (checkpointsFrom_fastest _ (length steps)) by done;
    rewrite Hlast, Hid; reflexivity.
Qed.

Lemma buildPlan_fastest_checkpoint_witness :
  map (fun cp => (Plan.checkpointId cp, Plan.afterStepId cp))
      (Plan.checkpoints (Plan.buildPlan fastestInput))
  = [ (str "checkpoint_1",
       Plan.stepIdByIndex (length (Plan.steps (Plan.buildPlan fastestInput)) - 1)) ].
Proof.
  apply (buildPlan_fastest_checkpoint fastestInput); [reflexivity|discriminate].
Defined.

(** X13. A plan always has at least one step; and under the [fastest]
    strategy more than four given subtasks yield at most half as many
    steps (rounded up). *)
Theorem buildPlan_step_count (input : Plan.BuildPlanInput) :
  1 <= length (Plan.steps (Plan.buildPlan input))
  /\ (forall given,
        Plan.subtasks input = Some given -> 4 < length given ->
        Plan.strategy input = Some Plan.Fastest ->
        length (Plan.steps (Plan.buildPlan input)) <= (length given + 1) / 2).
Proof.
  unfold Plan.buildPlan. cbn [Plan.steps]. rewrite length_imap. split.
  - pose proof (orderedSubtasks_nonempty input).
    destruct (Plan.orderedSubtasks input); [done|simpl; lia].
  - intros given Hg Hlen Hs. unfold Plan.orderedSubtasks, Plan.strategyOf.
    rewrite Hs, Hg. cbn [default from_option id].
    etransitivity; [apply topologicalOrder_length|].
    assert (Hcap : forall (l : list Plan.NormalizedSubtask) m,
               length (capItems l m) <= length l).
    { intros l m. unfold capItems. destruct (m <? 0)%Z; [simpl; lia|].
      rewrite length_take. lia. }
    etransitivity; [apply Hcap|].
    assert (Hn : length (Plan.normalizeSubtasks (Plan.goal input) (Some given)
                           (Plan.policy input)) = length given).
    { unfold Plan.normalizeSubtasks. destruct given; [simpl in Hlen; lia|].
      by rewrite length_map. }
    destruct (compressForFastest_cases
                (Plan.normalizeSubtasks (Plan.goal input) (Some given) (Plan.policy input))
                (Plan.policy input))
      as [[Hle Heq]|[Hgt Heq]]; [lia|by rewrite Heq, Hn].
Qed.

(** ** Decomposer *)

Lemma applyDependencies_lookup (l : list Decompose.Subtask) (m : Decompose.DecompositionMode)
    (i : nat) (s : Decompose.Subtask) :
  Decompose.applyDependencies l m !! i = Some s ->
  exists s0, l !! i = Some s0
    /\ Decompose.id s = Decompose.id s0
    /\ (forall d, d ∈ Decompose.dependsOn s ->
          d ∈ Decompose.dependsOn s0
          \/ exists j s', j < i /\ l !! j = Some s' /\ Decompose.id s' = d).
Proof.
  assert (HidAt : forall j d, j < i -> d ∈ Decompose.idAt l j ->
            exists j' s', j' < i /\ l !! j' = Some s' /\ Decompose.id s' = d).
  { intros j d Hj Hd. unfold Decompose.idAt in Hd.
    destruct (l !! j) as [s'|] eqn:Ej; [|by apply elem_of_nil in Hd].
    apply list_elem_of_singleton in Hd as ->. eauto. }
  unfold Decompose.applyDependencies. intros Hs.
  destruct (decide (length l = 0)) as [Hz|Hz].
  { exists s. split; [done|]. split; [done|]. intros d Hd. by left. }
  destruct (decide (m = Decompose.linear \/ length l <= 2)) as [Hlin|Hlin].
  { rewrite list_lookup_imap in Hs. destruct (l !! i) as [s0|] eqn:Ei; [|done].
    simpl in Hs. injection Hs as <-. exists s0. split; [done|].
    destruct (decide (1 <= i)); simpl; [|split; [done|by left]].
    split; [done|]. intros d Hd. right. apply (HidAt (i - 1)); [lia|done]. }
  destruct (decide (m = Decompose.tree)) as [Htree|Htree].
  { rewrite list_lookup_imap in Hs. destruct (l !! i) as [s0|] eqn:Ei; [|done].
    simpl in Hs. injection Hs as <-. exists s0. split; [done|].
    destruct (decide (i = length l - 1)) as [Hlast|Hlast]; simpl.
    - split; [done|]. intros d Hd. right.
      apply list_elem_of_fmap in Hd as (s' & -> & Hs').
      apply list_elem_of_lookup in Hs' as [k Hk].
      rewrite lookup_drop in Hk.
      pose proof (lookup_lt_Some _ _ _ Hk) as Hlt. rewrite length_take in Hlt.
      rewrite lookup_take_lt in Hk by lia.
      exists (1 + k), s'. split; [lia|done].
    - destruct (decide (1 <= i)); simpl; [|split; [done|by left]].
      split; [done|]. intros d Hd. right. apply (HidAt 0); [lia|done]. }
  rewrite list_lookup_imap in Hs. destruct (l !! i) as [s0|] eqn:Ei; [|done].
  cbv [fmap option_fmap option_map] in Hs. injection Hs as <-. exists s0. split; [done|].
  destruct (decide (1 <= i)); [|split; [done|by left]].
  case_decide; cbn [Decompose.withDependsOn Decompose.dependsOn Decompose.id].
  - split; [done|]. intros d Hd. right. apply (HidAt (i - 1)); [lia|done].
  - split; [done|]. intros d Hd. right. apply (HidAt (i - 2)); [lia|done].
Qed.

(** X14. In every decomposition mode the dependencies of a subtask are
    ids of subtasks that stand strictly earlier in the returned list (so
    the first subtask has none and the dependency graph has no cycle),
    and the subtask at position [i] is named [subtask_(i+1)]. *)
Theorem decomposeTask_dependencies_earlier (input : Decompose.DecomposeTaskInput)
    (i : nat) (s : Decompose.Subtask) :
  Decompose.subtasks (Decompose.decomposeTask input) !! i = Some s ->
  Decompose.id s = str "subtask_" ++ Js.showNat (i + 1)
  /\ (forall d, d ∈ Decompose.dependsOn s ->
        exists j s', j < i
          /\ Decompose.subtasks (Decompose.decomposeTask input) !! j = Some s'
          /\ Decompose.id s' = d).
Proof.
  unfold Decompose.decomposeTask. cbn [Decompose.subtasks]. unfold Decompose.subtasksOf.
  set (base := imap _ _). intros Hs.
  destruct (applyDependencies_lookup base _ i s Hs) as (s0 & Hs0 & Hid & Hdeps).
  assert (Hbase : forall j x, base !! j = Some x ->
            Decompose.id x = str "subtask_" ++ Js.showNat (j + 1)
            /\ Decompose.dependsOn x = []).
  { intros j x Hx. unfold base in Hx. rewrite list_lookup_imap in Hx.
    destruct (capItems _ _ !! j); [|done]. simpl in Hx. by injection Hx as <-. }
  destruct (Hbase i s0 Hs0) as [Hid0 Hnil]. split; [congruence|].
  intros d Hd. destruct (Hdeps d Hd) as [Hin|(j & s' & Hj & Hs' & Hd')].
  { rewrite Hnil in Hin. by apply elem_of_nil in Hin. }
  assert (Hj' : map Decompose.id (Decompose.applyDependencies base (Decompose.modeOf input)) !! j
                = Some d).
  { rewrite applyDependencies_ids, list_lookup_fmap, Hs'. simpl. by rewrite Hd'. }
  rewrite list_lookup_fmap in Hj'.
  destruct (Decompose.applyDependencies base (Decompose.modeOf input) !! j) as [t|] eqn:Et;
    [|done].
  simpl in Hj'. injection Hj' as Ht. eauto.
Qed.

Lemma decomposeTask_dependencies_earlier_witness :
  exists j s', j < 1
    /\ Decompose.subtasks (Decompose.decomposeTask milestoneInput) !! j = Some s'
    /\ Decompose.id s' = str "subtask_1".
Proof.
  destruct (Decompose.subtasks (Decompose.decomposeTask milestoneInput) !! 1) as [s|] eqn:E;
    [|by vm_compute in E].
  refine (proj2 (decomposeTask_dependencies_earlier milestoneInput 1 s E) (str "subtask_1") _).
  vm_compute in E. injection E as <-. simpl. by left.
Defined.

Lemma omGet_Some_elem {V} (k : text) (m : list (text * V)) (v : V) :
  Js.omGet k m = Some v -> (k, v) ∈ m.
Proof.
  induction m as [|[k' v'] m IH]; simpl; [done|].
  destruct (decide (k' = k)) as [->|Hne].
  - intros [= ->]. by left.
  - intros H. right. by apply IH.
Qed.

Lemma omSet_elem {V} (k : text) (v : V) (m : list (text * V)) (e : text * V) :
  e ∈ Js.omSet k v m -> e = (k, v) \/ e ∈ m.
Proof.
  induction m as [|[k' v'] m IH]; simpl.
  - intros ->%list_elem_of_singleton. by left.
  - destruct (decide (k' = k)) as [->|Hne].
    + intros [->|He]%elem_of_cons; [by left|right; by right].
    + intros [->|He]%elem_of_cons; [right; by left|].
      destruct (IH He) as [?|?]; [by left|right; by right].
Qed.

Lemma omSet_nonempty {V} (k : text) (v : V) (m : list (text * V)) : Js.omSet k v m <> [].
Proof. destruct m as [|[k' v'] m]; simpl; [done|]. by destruct (decide (k' = k)). Qed.

Lemma bestPaths_snoc_eq (l : list Decompose.Subtask) (x : Decompose.Subtask) :
  Decompose.bestPaths (l ++ [x])
  = Js.omSet (Decompose.id x)
      (default []
         (head (Js.sortBy Decompose.byLengthDesc
                  (omap (fun depId => Js.omGet depId (Decompose.bestPaths l))
                        (Decompose.dependsOn x))))
       ++ [Decompose.id x])
      (Decompose.bestPaths l).
Proof. unfold Decompose.bestPaths. by rewrite foldl_app. Qed.

Lemma dependencyChain_mono (l l' : list Decompose.Subtask) (p : list text) :
  l ⊆ l' -> dependencyChain l p -> dependencyChain l' p.
Proof.
  intros Hsub Hc k a b Ha Hb. destruct (Hc k a b Ha Hb) as (s & Hs & ?). eauto.
Qed.

Lemma dependencyChain_snoc (l : list Decompose.Subtask) (p : list text) (b : text) :
  dependencyChain l p ->
  (forall d, last p = Some d ->
     exists s, s ∈ l /\ Decompose.id s = b /\ d ∈ Decompose.dependsOn s) ->
  dependencyChain l (p ++ [b]).
Proof.
  intros Hc Hlast k a c Ha Hc'.
  destruct (decide (S k < length p)) as [Hlt|Hge].
  - rewrite lookup_app_l in Ha by lia. rewrite lookup_app_l in Hc' by lia. eauto.
  - pose proof (lookup_lt_Some _ _ _ Hc') as Hk. rewrite length_app in Hk. simpl in Hk.
    assert (S k = length p) as Hk' by lia.
    rewrite lookup_app_l in Ha by lia.
    rewrite lookup_app_r in Hc' by lia.
    replace (S k - length p) with 0 in Hc' by lia. simpl in Hc'. injection Hc' as <-.
    apply Hlast. rewrite last_lookup. rewrite <- Hk'. simpl. done.
Qed.

Lemma bestPaths_chain (l : list Decompose.Subtask) :
  Forall (fun kp => last (snd kp) = Some (fst kp)
                    /\ dependencyChain l (snd kp)
                    /\ (forall e, e ∈ snd kp -> e ∈ map Decompose.id l))
         (Decompose.bestPaths l).
Proof.
  induction l as [|x l IH] using rev_ind; [constructor|].
  rewrite bestPaths_snoc_eq. apply Forall_forall. intros [k p] Hkp.
  apply omSet_elem in Hkp as [Heq|Hold].
  - injection Heq as -> ->. simpl. rewrite last_snoc. split; [done|].
    destruct (head _) as [best|] eqn:Eh; simpl.
    + apply sortBy_head_elem in Eh.
      apply list_elem_of_omap in Eh as (d & Hd & Hget).
      apply omGet_Some_elem in Hget.
      pose proof (proj1 (Forall_forall _ _) IH _ Hget) as (Hlast & Hchain & Hids).
      simpl in *. split.
      * apply dependencyChain_snoc.
        -- eapply dependencyChain_mono; [|done]. set_solver.
        -- intros d' Hd'. exists x. rewrite Hlast in Hd'. injection Hd' as <-.
           split; [set_solver|done].
      * intros e [He | ->%list_elem_of_singleton]%elem_of_app; rewrite map_app, elem_of_app.
        -- left. by apply Hids.
        -- right. simpl. by left.
    + split.
      * intros j a b Ha Hb. by destruct j.
      * intros e ->%list_elem_of_singleton. rewrite map_app, elem_of_app. right. simpl. by left.
  - pose proof (proj1 (Forall_forall _ _) IH _ Hold) as (Hlast & Hchain & Hids).
    simpl in *. split; [done|]. split.
    + eapply dependencyChain_mono; [|done]. set_solver.
    + intros e He. rewrite map_app, elem_of_app. left. by apply Hids.
Qed.

(** X15. The critical path returned by [decomposeTask] is a dependency
    chain: it consists of ids of returned subtasks, each element but the
    first names a subtask that depends on the element before it, and the
    path is empty only when there are no subtasks. *)
Theorem decomposeTask_criticalPath_chain (input : Decompose.DecomposeTaskInput) :
  let out := Decompose.decomposeTask input in
  dependencyChain (Decompose.subtasks out) (Decompose.criticalPath out)
  /\ (forall e, e ∈ Decompose.criticalPath out -> e ∈ map Decompose.id (Decompose.subtasks out))
  /\ (Decompose.criticalPath out = [] <-> Decompose.subtasks out = []).
Proof.
  intros out. unfold out, Decompose.decomposeTask.
  cbn [Decompose.subtasks Decompose.criticalPath].
  set (l := Decompose.subtasksOf input). unfold Decompose.computeCriticalPath.
  destruct l as [|x0 l0] eqn:El.
  { split; [by intros [|k] a b|]. split; [by intros e ?%elem_of_nil|done]. }
  rewrite <- El.
  assert (Hne : map snd (Decompose.bestPaths l) <> []).
  { assert (exists l' x, l = l' ++ [x]) as (l' & x & ->).
    { destruct (l) as [|y l1] using rev_ind; [by subst|eauto]. }
    rewrite bestPaths_snoc_eq. intros Hnil%fmap_nil_inv. by apply omSet_nonempty in Hnil. }
  destruct (sortBy_head_is_Some (Decompose.comparePaths l) _ Hne) as [h Hh].
  rewrite Hh. simpl. apply sortBy_head_elem in Hh.
  apply list_elem_of_fmap in Hh as ([k p] & -> & Hkp). simpl.
  pose proof (proj1 (Forall_forall _ _) (bestPaths_chain l) _ Hkp) as (Hlast & Hchain & Hids).
  simpl in *. split; [done|]. split; [done|].
  split; [|by rewrite El]. intros ->. done.
Qed.

(** ** Task Analyzer *)

Lemma typeOfScores_decisive (sc : Analyze.TaskType -> nat) (t : Analyze.TaskType) :
  t <> Analyze.mixed ->
  typeOfScores sc = t <->
  0 < sc t
  /\ (forall t', t' <> t -> t' <> Analyze.mixed -> sc t' = 0 \/ sc t' + 2 <= sc t).
Proof.
  intros Hm.
  assert (Hall : (forall t', t' <> t -> t' <> Analyze.mixed -> sc t' = 0 \/ sc t' + 2 <= sc t)
                 <-> (Analyze.coding <> t -> sc Analyze.coding = 0 \/ sc Analyze.coding + 2 <= sc t)
                     /\ (Analyze.debugging <> t ->
                         sc Analyze.debugging = 0 \/ sc Analyze.debugging + 2 <= sc t)
                     /\ (Analyze.architecture <> t ->
                         sc Analyze.architecture = 0 \/ sc Analyze.architecture + 2 <= sc t)
                     /\ (Analyze.planning <> t ->
                         sc Analyze.planning = 0 \/ sc Analyze.planning + 2 <= sc t)
                     /\ (Analyze.analysis <> t ->
                         sc Analyze.analysis = 0 \/ sc Analyze.analysis + 2 <= sc t)).
  { split.
    - intros H. repeat split; intros; apply H; done.
    - intros (H1 & H2 & H3 & H4 & H5) t' Ht Hm'. destruct t'; auto. done. }
  rewrite Hall. clear Hall. unfold typeOfScores. cbn [map].
  destruct t; [| | | | |done];
    generalize (sc Analyze.coding) (sc Analyze.debugging) (sc Analyze.architecture)
               (sc Analyze.planning) (sc Analyze.analysis);
    intros a b c d e; unfold Js.sortBy; cbn [foldr Js.insertBy snd fst];
    repeat (match goal with
            | |- context [(?x <=? ?y)%Z] => destruct (Z.leb_spec x y)
            end; cbn [Js.insertBy snd fst]);
    repeat case_decide;
    (split;
     [ intros Heq;
       first [ discriminate Heq
             | split; [lia|]; repeat split; intros Hne; first [by destruct Hne | lia] ]
     | intros (Hp & Q1 & Q2 & Q3 & Q4 & Q5);
       first [ reflexivity
             | exfalso;
               repeat match goal with
                      | H : ?x <> ?y -> _ |- _ =>
                          first [ specialize (H ltac:(discriminate)) | clear H ]
                      end; lia ] ]).
Qed.

(** X16. [detectTaskType] returns a proper task type exactly when that
    type is decisive: at least one of its keywords occurs in the task,
    and every other type either has no keyword in the task or has at
    least two keyword hits fewer.  (In all other cases the result is
    [mixed].) *)
Theorem detectTaskType_decisive (task : text) (t : Analyze.TaskType) :
  t <> Analyze.mixed ->
  Analyze.detectTaskType task = t <->
  0 < scoreOf task t
  /\ (forall t', t' <> t -> t' <> Analyze.mixed ->
        scoreOf task t' = 0 \/ scoreOf task t' + 2 <= scoreOf task t).
Proof.
  intros Hm. rewrite <- (typeOfScores_decisive (scoreOf task) t Hm). reflexivity.
Qed.

Lemma detectTaskType_decisive_witness :
  Analyze.detectTaskType (str "Fix the failing login bug") = Analyze.debugging <->
  0 < scoreOf (str "Fix the failing login bug") Analyze.debugging
  /\ (forall t', t' <> Analyze.debugging -> t' <> Analyze.mixed ->
        scoreOf (str "Fix the failing login bug") t' = 0
        \/ scoreOf (str "Fix the failing login bug") t' + 2
           <= scoreOf (str "Fix the failing login bug") Analyze.debugging).
Proof.
  apply (detectTaskType_decisive (str "Fix the failing login bug") Analyze.debugging).
  discriminate.
Defined.

Lemma mapGen_run {A B} (f : A -> IdGen B) (h : A -> nat -> B) :
  (forall x n, f x n = (h x n, S n)) ->
  forall xs n, mapGen f xs n = (imap (fun k x => h x (n + k)) xs, n + length xs).
Proof.
  intros Hf. induction xs as [|x xs IH]; intros n.
  - simpl. unfold mret, IdGen_ret. f_equal. lia.
  - cbn [mapGen]. unfold mbind, IdGen_bind. rewrite Hf, IH.
    unfold mret, IdGen_ret. cbn [imap length]. f_equal; [|lia]. f_equal.
    + by rewrite Nat.add_0_r.
    + apply imap_ext. intros k y _. simpl. f_equal. lia.
Qed.

Lemma capItems_fmap {A B} (f : A -> B) (l : list A) (m : Z) :
  map f (capItems l m) = capItems (map f l) m.
Proof. unfold capItems. destruct (m <? 0)%Z; [done|]. by rewrite fmap_take. Qed.

Lemma capItems_lookup {A} (l : list A) (m : Z) (k : nat) (x : A) :
  capItems l m !! k = Some x -> l !! k = Some x.
Proof.
  unfold capItems. destruct (m <? 0)%Z; [done|].
  intros H. by apply lookup_take_Some in H as [? _].
Qed.

Lemma extractRisks_run (randomUUID : nat -> text) (task : text)
    (constraints unknowns assumptions : list text) (policy : ResponsePolicy) (n : nat) :
  let keys :=
    pickUniqueStrings
      (map (fun item => Analyze.levelText (snd item) ++ str "|" ++ fst item)
         (Analyze.riskItemsOf task constraints unknowns assumptions)) in
  Analyze.extractRisks randomUUID task constraints unknowns assumptions policy n
  = (capItems
       (imap (fun k value =>
                {| Analyze.riskId := str "risk" ++ str "_" ++ randomUUID (n + k);
                   Analyze.riskText :=
                     sanitizeText (default [] (Js.splitOn Analyze.isBar value !! 1))
                       (textMaxChars policy);
                   Analyze.severity :=
                     Analyze.levelOfText (default [] (Js.splitOn Analyze.isBar value !! 0)) |})
             keys)
       (maxRisks policy),
     n + length keys).
Proof.
  intros keys. unfold Analyze.extractRisks. fold keys.
  unfold mbind at 1, IdGen_bind at 1.
  rewrite (mapGen_run _
             (fun value m =>
                {| Analyze.riskId := str "risk" ++ str "_" ++ randomUUID m;
                   Analyze.riskText :=
                     sanitizeText (default [] (Js.splitOn Analyze.isBar value !! 1))
                       (textMaxChars policy);
                   Analyze.severity :=
                     Analyze.levelOfText
                       (default [] (Js.splitOn Analyze.isBar value !! 0)) |}));
    [reflexivity|].
  intros x m. reflexivity.
Qed.

Lemma analyzeTask_risks (randomUUID : nat -> text) (n : nat)
    (input : Analyze.AnalyzeTaskInput) :
  let task := normalizeWhitespace (Analyze.task input) in
  let taskType := Analyze.detectTaskType task in
  let risks :=
    Analyze.extractRisks randomUUID task
      (Analyze.extractConstraints task (Analyze.constraints input) (Analyze.policy input))
      (Analyze.extractUnknowns task taskType (Analyze.context input) (Analyze.policy input))
      (Analyze.extractImplicitAssumptions task taskType (Analyze.context input)
         (Analyze.policy input))
      (Analyze.policy input) n in
  Analyze.risks (fst (Analyze.analyzeTask randomUUID input n)) = fst risks
  /\ snd (Analyze.analyzeTask randomUUID input n) = snd risks.
Proof.
  cbv zeta. unfold Analyze.analyzeTask, mbind, IdGen_bind.
  by destruct (Analyze.extractRisks randomUUID _ _ _ _ _ _) as [rs m].
Qed.

Lemma risksView (randomUUID randomUUID' : nat -> text) (n n' : nat) (keys : list text)
    (policy : ResponsePolicy) :
  map (fun r => (Analyze.riskText r, Analyze.severity r))
    (capItems
       (imap (fun k value =>
                {| Analyze.riskId := str "risk" ++ str "_" ++ randomUUID (n + k);
                   Analyze.riskText :=
                     sanitizeText (default [] (Js.splitOn Analyze.isBar value !! 1))
                       (textMaxChars policy);
                   Analyze.severity :=
                     Analyze.levelOfText (default [] (Js.splitOn Analyze.isBar value !! 0)) |})
             keys)
       (maxRisks policy))
  = map (fun r => (Analyze.riskText r, Analyze.severity r))
    (capItems
       (imap (fun k value =>
                {| Analyze.riskId := str "risk" ++ str "_" ++ randomUUID' (n' + k);
                   Analyze.riskText :=
                     sanitizeText (default [] (Js.splitOn Analyze.isBar value !! 1))
                       (textMaxChars policy);
                   Analyze.severity :=
                     Analyze.levelOfText (default [] (Js.splitOn Analyze.isBar value !! 0)) |})
             keys)
       (maxRisks policy)).
Proof.
  rewrite !capItems_fmap. f_equal. apply list_eq. intros k.
  rewrite !list_lookup_fmap, !list_lookup_imap.
  destruct (keys !! k); reflexivity.
Qed.

Lemma withoutRiskIds_eq (o o' : Analyze.AnalyzeTaskOutput) :
  Analyze.outTask o = Analyze.outTask o' ->
  Analyze.normalizedGoal o = Analyze.normalizedGoal o' ->
  Analyze.taskType o = Analyze.taskType o' ->
  Analyze.outConstraints o = Analyze.outConstraints o' ->
  Analyze.assumptionsImplicit o = Analyze.assumptionsImplicit o' ->
  Analyze.unknowns o = Analyze.unknowns o' ->
  map (fun r => (Analyze.riskText r, Analyze.severity r)) (Analyze.risks o)
  = map (fun r => (Analyze.riskText r, Analyze.severity r)) (Analyze.risks o') ->
  Analyze.successCriteria o = Analyze.successCriteria o' ->
  Analyze.clarificationsNeeded o = Analyze.clarificationsNeeded o' ->
  Analyze.suggestedWorkflow o = Analyze.suggestedWorkflow o' ->
  withoutRiskIds o = withoutRiskIds o'.
Proof.
  destruct o, o'. unfold withoutRiskIds. simpl.
  intros -> -> -> -> -> -> Hr -> -> ->. f_equal.
  apply list_eq. intros k. apply (f_equal (fun l => l !! k)) in Hr.
  rewrite !list_lookup_fmap in Hr. rewrite !list_lookup_fmap.
  destruct (risks !! k) as [[i t v]|], (risks0 !! k) as [[i' t' v']|]; simpl in *; congruence.
Qed.

(** X17. The identifiers drawn by [analyzeTask] enter its result only as
    the ids of the risks: the risk at position [k] carries the [k]-th
    identifier drawn ([risk_] followed by it), and with the risk ids
    blanked the result is the same for every stream of identifiers. *)
Theorem analyzeTask_ids (randomUUID randomUUID' : nat -> text) (n n' : nat)
    (input : Analyze.AnalyzeTaskInput) :
  let out := fst (Analyze.analyzeTask randomUUID input n) in
  withoutRiskIds out = withoutRiskIds (fst (Analyze.analyzeTask randomUUID' input n'))
  /\ (forall k r, Analyze.risks out !! k = Some r ->
        Analyze.riskId r = str "risk_" ++ randomUUID (n + k))
  /\ n + length (Analyze.risks out) <= snd (Analyze.analyzeTask randomUUID input n).
Proof.
  cbv zeta.
  destruct (analyzeTask_risks randomUUID n input) as [Hr Hn].
  destruct (analyzeTask_risks randomUUID' n' input) as [Hr' _].
  rewrite extractRisks_run in Hr, Hn, Hr'. cbn [fst snd] in Hr, Hn, Hr'.
  split; [|split].
  - apply withoutRiskIds_eq;
      try (unfold Analyze.analyzeTask, mbind, IdGen_bind;
           destruct (Analyze.extractRisks randomUUID _ _ _ _ _ _);
           destruct (Analyze.extractRisks randomUUID' _ _ _ _ _ _); reflexivity).
    rewrite Hr, Hr'. apply risksView.
  - rewrite Hr. intros k r Hk%capItems_lookup. rewrite list_lookup_imap in Hk.
    destruct (pickUniqueStrings _ !! k); [|done].
    cbv [fmap option_fmap option_map] in Hk. by injection Hk as <-.
  - rewrite Hr, Hn. set (l := imap _ _).
    assert (H : length (capItems l (maxRisks (Analyze.policy input))) <= length l).
    { unfold capItems. destruct (_ <? 0)%Z; [simpl; lia|]. rewrite length_take. lia. }
    unfold l in *. rewrite length_imap in H. lia.
Qed.

Lemma capItems_sanitized (l : list text) (maxChars maxItems : Z) :
  withinItems maxItems (capItems (map (fun v => sanitizeText v maxChars) l) maxItems)
  /\ Forall (withinChars maxChars)
       (capItems (map (fun v => sanitizeText v maxChars) l) maxItems).
Proof.
  split; [apply capItems_length|]. apply Forall_forall. intros x Hx%capItems_elem.
  apply list_elem_of_fmap in Hx as (v & -> & _). apply sanitizeText_length.
Qed.

(** X18. The result of [analyzeTask] respects the response policy: the
    task and the goal are at most [textMaxChars] long; constraints and
    implicit assumptions are at most [maxGenericItems], unknowns at most
    [maxUnknowns], risks at most [maxRisks], success criteria at most
    [maxSuccessCriteria], each of their texts at most [textMaxChars]
    long; there are at most [maxGenericItems] clarifications, each
    [Clarify: ] followed by one of the unknowns (so up to nine characters
    longer than [textMaxChars]). *)
Theorem analyzeTask_bounds (randomUUID : nat -> text) (n : nat)
    (input : Analyze.AnalyzeTaskInput) :
  let out := fst (Analyze.analyzeTask randomUUID input n) in
  let p := Analyze.policy input in
  withinChars (textMaxChars p) (Analyze.outTask out)
  /\ withinChars (textMaxChars p) (Analyze.normalizedGoal out)
  /\ (withinItems (maxGenericItems p) (Analyze.outConstraints out)
      /\ Forall (withinChars (textMaxChars p)) (Analyze.outConstraints out))
  /\ (withinItems (maxGenericItems p) (Analyze.assumptionsImplicit out)
      /\ Forall (withinChars (textMaxChars p)) (Analyze.assumptionsImplicit out))
  /\ (withinItems (maxUnknowns p) (Analyze.unknowns out)
      /\ Forall (withinChars (textMaxChars p)) (Analyze.unknowns out))
  /\ (withinItems (maxRisks p) (Analyze.risks out)
      /\ Forall (fun r => withinChars (textMaxChars p) (Analyze.riskText r))
           (Analyze.risks out))
  /\ (withinItems (maxSuccessCriteria p) (Analyze.successCriteria out)
      /\ Forall (withinChars (textMaxChars p)) (Analyze.successCriteria out))
  /\ (withinItems (maxGenericItems p) (Analyze.clarificationsNeeded out)
      /\ Forall (fun c => exists u, u ∈ Analyze.unknowns out /\ c = str "Clarify: " ++ u)
           (Analyze.clarificationsNeeded out)).
Proof.
  cbv zeta. destruct (analyzeTask_risks randomUUID n input) as [Hr _].
  rewrite extractRisks_run in Hr. cbn [fst] in Hr. rewrite Hr. clear Hr.
  unfold Analyze.analyzeTask, mbind, IdGen_bind.
  destruct (Analyze.extractRisks randomUUID _ _ _ _ _ _) as [rs m].
  unfold mret, IdGen_ret.
  cbn [fst Analyze.outTask Analyze.normalizedGoal Analyze.outConstraints
       Analyze.assumptionsImplicit Analyze.unknowns Analyze.successCriteria
       Analyze.clarificationsNeeded].
  split; [apply sanitizeText_length|].
  split; [unfold Analyze.extractGoal; case_decide; apply sanitizeText_length|].
  split; [apply capItems_sanitized|].
  split; [apply capItems_sanitized|].
  split; [apply capItems_sanitized|].
  split; [|split].
  - split; [apply capItems_length|]. apply Forall_forall. intros r Hr%capItems_elem.
    apply list_elem_of_lookup in Hr as [k Hk]. rewrite list_lookup_imap in Hk.
    destruct (pickUniqueStrings _ !! k); [|done].
    cbv [fmap option_fmap option_map] in Hk. injection Hk as <-.
    apply sanitizeText_length.
  - unfold Analyze.successCriteriaByType. apply capItems_sanitized.
  - split; [apply capItems_length|]. apply Forall_forall. intros c Hc%capItems_elem.
    apply list_elem_of_fmap in Hc as (u & -> & Hu). eauto.
Qed.

(** ** Consistency Checker: cycle detection *)

Section CycleSoundness.

Variable randomUUID : nat -> text.
Variable edges : gmap text (list text).
Variable policy : ResponsePolicy.

Lemma quiet_refl (st : Consistency.DfsState) : quiet st st.
Proof. by split. Qed.

Lemma quiet_trans (st1 st2 st3 : Consistency.DfsState) :
  quiet st1 st2 -> quiet st2 st3 -> quiet st1 st3.
Proof. intros [? ?] [? ?]. split; congruence. Qed.

Lemma dfsDeps_sound (v : text -> Consistency.DfsState -> option Consistency.DfsState)
    (W : gset text) (node : text) :
  (forall d st st', Consistency.stack st = W -> stepEdge edges node d -> v d st = Some st' ->
     Consistency.stack st' = W /\ (quiet st st' \/ exists x, tc (stepEdge edges) x x)) ->
  forall deps st st',
    (forall d, d ∈ deps -> is_Some (edges !! d) -> stepEdge edges node d) ->
    Consistency.stack st = W ->
    Consistency.dfsDeps edges v deps st = Some st' ->
    Consistency.stack st' = W /\ (quiet st st' \/ exists x, tc (stepEdge edges) x x).
Proof.
  intros Hv. induction deps as [|d deps IH]; intros st st' HE HW Hrun; simpl in Hrun.
  - injection Hrun as <-. split; [done|left; apply quiet_refl].
  - assert (HE' : forall d', d' ∈ deps -> is_Some (edges !! d') -> stepEdge edges node d').
    { intros d' Hd'. apply HE. by right. }
    destruct (decide (is_Some (edges !! d))) as [Hk|Hk]; [|by apply IH].
    destruct (v d st) as [st1|] eqn:Hv1; [|done].
    destruct (Hv d st st1 HW (HE d (list_elem_of_here _ _) Hk) Hv1) as (HW1 & Hq1).
    destruct (IH st1 st' HE' HW1 Hrun) as (HW2 & Hq2).
    split; [done|].
    destruct Hq1 as [Hq1|?]; [|by right]. destruct Hq2 as [Hq2|?]; [|by right].
    left. by eapply quiet_trans.
Qed.

Lemma dfs_sound (fuel : nat) : forall (node : text) (st st' : Consistency.DfsState),
  Consistency.dfs randomUUID edges policy fuel node st = Some st' ->
  (forall s, s ∈ Consistency.stack st -> tc (stepEdge edges) s node) ->
  Consistency.stack st' = Consistency.stack st
  /\ (quiet st st' \/ exists x, tc (stepEdge edges) x x).
Proof.
  induction fuel as [|fuel IH]; intros node st st' Hrun Hanc; [done|]. simpl in Hrun.
  destruct (decide (node ∈ Consistency.stack st)) as [Hin|Hout].
  { injection Hrun as <-. split; [done|]. right. exists node. by apply Hanc. }
  destruct (decide (node ∈ Consistency.visited st)).
  { injection Hrun as <-. split; [done|left; apply quiet_refl]. }
  destruct (Consistency.dfsDeps _ _ _ _) as [st2|] eqn:Hdeps; [|done].
  injection Hrun as <-. cbn [Consistency.stack].
  set (st1 := {| Consistency.visited := {[ node ]} ∪ Consistency.visited st;
                 Consistency.stack := {[ node ]} ∪ Consistency.stack st;
                 Consistency.found := Consistency.found st;
                 Consistency.drawn := Consistency.drawn st |}) in *.
  assert (Hv : forall d st0 st0',
             Consistency.stack st0 = {[ node ]} ∪ Consistency.stack st ->
             stepEdge edges node d ->
             Consistency.dfs randomUUID edges policy fuel d st0 = Some st0' ->
             Consistency.stack st0' = {[ node ]} ∪ Consistency.stack st
             /\ (quiet st0 st0' \/ exists x, tc (stepEdge edges) x x)).
  { intros d st0 st0' HW HEd Hrun0.
    destruct (IH d st0 st0' Hrun0) as (Hs & Hq).
    - rewrite HW. intros s [->%elem_of_singleton|Hs]%elem_of_union.
      + by apply tc_once.
      + eapply tc_r; [by apply Hanc|done].
    - split; [congruence|done]. }
  assert (HE : forall d, d ∈ default [] (edges !! node) -> is_Some (edges !! d) ->
                         stepEdge edges node d).
  { intros d Hd Hk. destruct (edges !! node) as [deps|] eqn:En.
    - by exists deps.
    - by apply elem_of_nil in Hd. }
  destruct (dfsDeps_sound _ _ node Hv _ st1 st2 HE eq_refl Hdeps) as (HW2 & Hq).
  split.
  - rewrite HW2. apply set_eq. intros x. set_solver.
  - destruct Hq as [[Hf Hd]|?]; [left|by right]. split; simpl; [exact Hf|exact Hd].
Qed.

Lemma dfsAll_sound (fuel : nat) (steps : list Consistency.Step) :
  forall st st', Consistency.stack st = ∅ ->
    Consistency.dfsAll randomUUID edges policy fuel steps st = Some st' ->
    quiet st st' \/ exists x, tc (stepEdge edges) x x.
Proof.
  induction steps as [|s rest IH]; intros st st' Hempty Hrun; simpl in Hrun.
  - injection Hrun as <-. left. apply quiet_refl.
  - destruct (Consistency.dfs _ _ _ _ _ _) as [st1|] eqn:Hdfs; [|done].
    destruct (dfs_sound fuel (Consistency.id s) st st1 Hdfs) as (Hs & Hq).
    { rewrite Hempty. by intros x ?%not_elem_of_empty. }
    destruct (IH st1 st') as [Hq2|?]; [congruence|done| |by right].
    destruct Hq as [Hq|?]; [left|by right]. by eapply quiet_trans.
Qed.

End CycleSoundness.

Lemma detectCircularDependencies_sound_aux (randomUUID : nat -> text)
    (steps : list Consistency.Step) (policy : ResponsePolicy) (n : nat) :
  Consistency.detectCircularDependencies randomUUID steps policy n = ([], n)
  \/ exists x, tc (stepEdge (Consistency.edgesOf steps)) x x.
Proof.
  pose proof (detectCircularDependencies_fuel randomUUID steps policy n) as Hrun.
  unfold Consistency.detectCircularDependenciesFuel in Hrun.
  destruct (Consistency.dfsAll _ _ _ _ _ _) as [st'|] eqn:Hall; [|done].
  simpl in Hrun. injection Hrun as Hrun.
  apply dfsAll_sound in Hall as [[Hf Hd]|?]; [left|by right|done].
  rewrite <- Hrun. simpl in *. by rewrite Hf, Hd.
Qed.

(** X19. Cycle detection raises no false alarm: either
    [detectCircularDependencies] reports nothing and draws no
    identifier, or some step depends on itself through a chain of known
    dependencies. *)
Theorem detectCircularDependencies_sound (randomUUID : nat -> text)
    (steps : list Consistency.Step) (policy : ResponsePolicy) (n : nat) :
  Consistency.detectCircularDependencies randomUUID steps policy n = ([], n)
  \/ exists x, tc (stepEdge (Consistency.edgesOf steps)) x x.
Proof. apply detectCircularDependencies_sound_aux. Qed.

Lemma backwardDeps_edge (steps : list Consistency.Step) (a b : text) :
  backwardDeps steps ->
  stepEdge (Consistency.edgesOf steps) a b ->
  exists i j, j < i /\ map Consistency.id steps !! i = Some a
              /\ map Consistency.id steps !! j = Some b.
Proof.
  intros [Hnd Hback] (deps & Ha & Hb & _).
  apply mapOf_lookup_Some in Ha. apply list_elem_of_fmap in Ha as (s & [= -> ->] & Hs).
  apply list_elem_of_lookup in Hs as [i Hi].
  destruct (Hback i s b Hi Hb) as (j & s' & Hj & Hs' & Hid).
  exists i, j. split; [done|]. rewrite !list_lookup_fmap, Hi, Hs'. simpl. by rewrite Hid.
Qed.

Lemma backwardDeps_acyclic (steps : list Consistency.Step) (x : text) :
  backwardDeps steps -> ~ tc (stepEdge (Consistency.edgesOf steps)) x x.
Proof.
  intros Hb Hc.
  assert (Hpath : forall a b, tc (stepEdge (Consistency.edgesOf steps)) a b ->
            exists i j, j < i /\ map Consistency.id steps !! i = Some a
                        /\ map Consistency.id steps !! j = Some b).
  { intros a b Hab. induction Hab as [a b Hab|a b c Hab _ (i & j & Hij & Hi & Hj)].
    - by apply backwardDeps_edge.
    - destruct (backwardDeps_edge steps a b Hb Hab) as (i' & j' & Hij' & Hi' & Hj').
      assert (j' = i) as -> by (eapply NoDup_lookup; [apply Hb|done|done]).
      exists i', j. split; [lia|done]. }
  destruct (Hpath x x Hc) as (i & j & Hij & Hi & Hj).
  assert (i = j) by (eapply NoDup_lookup; [apply Hb|done|done]). lia.
Qed.

Lemma backwardDeps_not_broken (steps : list Consistency.Step) :
  backwardDeps steps -> Consistency.brokenDependencies steps = [].
Proof.
  intros [Hnd Hback]. unfold Consistency.brokenDependencies.
  assert (Hall : forall l, Forall (fun x : list (Consistency.Step * text * Level) => x = []) l ->
                           concat l = []).
  { induction 1 as [|x l -> _ IH]; [done|]. simpl. exact IH. }
  apply Hall, Forall_forall. intros x Hx.
  apply list_elem_of_lookup in Hx as [i Hi]. rewrite list_lookup_imap in Hi.
  destruct (steps !! i) as [s|] eqn:Es; [|done]. simpl in Hi. injection Hi as <-.
  assert (Hnone : forall d, d ∈ Consistency.dependsOn s ->
            match Consistency.indexById steps !! d return option (Consistency.Step * text * Level) with
            | None => Some (s, d, high)
            | Some depIndex => if decide (i < depIndex) then Some (s, d, medium) else None
            end = None).
  { intros d Hd. destruct (Hback i s d Es Hd) as (j & s' & Hj & Hs' & Hid).
    assert (Hidx : Consistency.indexById steps !! d = Some j).
    { apply (indexMap_Some Consistency.id). split; [eauto|].
      intros j' item' Hlt Hl' Heq.
      assert (j = j'); [|lia].
      eapply NoDup_lookup; [exact Hnd| |]; rewrite list_lookup_fmap.
      - by rewrite Hs'; simpl; rewrite Hid.
      - by rewrite Hl'; simpl; rewrite Heq. }
    rewrite Hidx. destruct (decide (i < j)); [lia|done]. }
  induction (Consistency.dependsOn s) as [|d ds IH]; [done|]. simpl.
  rewrite Hnone by (by left). apply IH. intros d' Hd'. apply Hnone. by right.
Qed.

(** X20. Steps with distinct ids whose dependencies all name earlier
    steps raise neither a dependency issue (undefined or future step)
    nor a circular-dependency issue, and the cycle detection draws no
    identifier on them. *)
Theorem backwardDeps_clean (steps : list Consistency.Step) :
  backwardDeps steps ->
  Consistency.brokenDependencies steps = []
  /\ (forall (randomUUID : nat -> text) (policy : ResponsePolicy) (n : nat),
        Consistency.detectCircularDependencies randomUUID steps policy n = ([], n)).
Proof.
  intros Hb. split; [by apply backwardDeps_not_broken|].
  intros randomUUID policy n.
  destruct (detectCircularDependencies_sound_aux randomUUID steps policy n) as [?|[x Hx]];
    [done|]. by apply backwardDeps_acyclic in Hx.
Qed.

Lemma chainedSteps_backward : backwardDeps chainedSteps.
Proof.
  split; [apply (bool_decide_unpack _); vm_compute; exact I|].
  intros [|[|[|i]]] s d Hs Hd; simpl in Hs; try done; injection Hs as <-; simpl in Hd.
  - by apply elem_of_nil in Hd.
  - apply list_elem_of_singleton in Hd as ->. exists 0. eexists. split; [lia|done].
  - apply elem_of_cons in Hd as [->|Hd].
    + exists 0. eexists. split; [lia|done].
    + apply list_elem_of_singleton in Hd as ->. exists 1. eexists. split; [lia|done].
Qed.

Lemma backwardDeps_clean_witness :
  Consistency.brokenDependencies chainedSteps = []
  /\ (forall (randomUUID : nat -> text) (policy : ResponsePolicy) (n : nat),
        Consistency.detectCircularDependencies randomUUID chainedSteps policy n = ([], n)).
Proof. exact (backwardDeps_clean chainedSteps chainedSteps_backward). Defined.

(** ** A stored plan passes the dependency checks *)

Lemma backwardDeps_ext (a b : list Consistency.Step) :
  map (fun s => (Consistency.id s, Consistency.dependsOn s)) a
  = map (fun s => (Consistency.id s, Consistency.dependsOn s)) b ->
  backwardDeps b -> backwardDeps a.
Proof.
  intros Heq [Hnd Hback].
  assert (Hids : map Consistency.id a = map Consistency.id b).
  { apply (f_equal (map fst)) in Heq. by rewrite !map_map in Heq. }
  assert (Hat : forall i s, a !! i = Some s ->
            exists s', b !! i = Some s' /\ Consistency.id s' = Consistency.id s
                       /\ Consistency.dependsOn s' = Consistency.dependsOn s).
  { intros i s Hs. apply (f_equal (fun l => l !! i)) in Heq.
    rewrite !list_lookup_fmap, Hs in Heq. simpl in Heq.
    destruct (b !! i) as [s'|]; [|done]. simpl in Heq. injection Heq as Hi Hd. eauto. }
  split; [by rewrite Hids|].
  intros i s d Hs Hd. destruct (Hat i s Hs) as (s' & Hs' & _ & Hdeps).
  rewrite <- Hdeps in Hd. destruct (Hback i s' d Hs' Hd) as (j & t & Hj & Ht & Hid).
  assert (Hj' : map Consistency.id a !! j = Some d).
  { by rewrite Hids, list_lookup_fmap, Ht; simpl; rewrite Hid. }
  rewrite list_lookup_fmap in Hj'. destruct (a !! j) as [t'|] eqn:Et; [|done].
  simpl in Hj'. injection Hj' as Hid'. eauto.
Qed.

Lemma checkedSteps_backward (input : Plan.BuildPlanInput) :
  backwardDeps (checkedSteps (Plan.buildPlan input)).
Proof.
  unfold checkedSteps. split.
  - rewrite map_map. simpl. apply buildPlan_stepIds_NoDup.
  - intros i s d Hs Hd. rewrite list_lookup_fmap in Hs.
    destruct (Plan.steps (Plan.buildPlan input) !! i) as [ps|] eqn:Ei; [|done].
    simpl in Hs. injection Hs as <-. simpl in Hd.
    pose proof Ei as Hlt%lookup_lt_Some.
    apply buildPlan_steps_lookup in Ei as (sub & _ & ->). simpl in Hd.
    apply resolveStepDependencies_earlier in Hd as (j & Hj & ->).
    destruct (Plan.steps (Plan.buildPlan input) !! j) as [pj|] eqn:Ej.
    + eexists j, _. split; [done|]. rewrite list_lookup_fmap, Ej. simpl. split; [done|].
      simpl. by apply buildPlan_steps_lookup in Ej as (? & _ & ->).
    + apply lookup_ge_None in Ej. lia.
Qed.

Lemma whenTarget_quiet (targets : list Consistency.CheckTarget) (t : Consistency.CheckTarget)
    (check : IdGen (list Consistency.ConsistencyIssue)) (n : nat) :
  (t ∈ targets -> check n = ([], n)) ->
  Consistency.whenTarget targets t check n = ([], n).
Proof. unfold Consistency.whenTarget. intros H. destruct (decide (t ∈ targets)); auto. Qed.

Lemma collectIssues_stored_plan (randomUUID : nat -> text)
    (input : Consistency.ConsistencyCheckInput) (targets : list Consistency.CheckTarget)
    (n : nat) :
  Consistency.draft input = None ->
  Consistency.checkTargets input = Some targets ->
  Consistency.goal_drift_target ∉ targets ->
  backwardDeps (Consistency.stepsOf input) ->
  Consistency.collectIssues randomUUID input n = ([], n).
Proof.
  intros Hdraft Htargets Hdrift Hback. unfold Consistency.collectIssues.
  rewrite Hdraft, Htargets. cbn [mbind option_bind default from_option id].
  unfold mbind, IdGen_bind.
  rewrite whenTarget_quiet by done.
  rewrite whenTarget_quiet.
  2:{ intros _. unfold Consistency.detectMissingSteps.
      rewrite (backwardDeps_not_broken _ Hback).
      destruct (decide (0 < length (@nil text) /\ _)) as [[Hl _]|_]; [simpl in Hl; lia|].
      unfold mbind, IdGen_bind. cbn [mapGen].
      change (Js.testI Consistency.deploymentWords []) with false. done. }
  rewrite whenTarget_quiet.
  2:{ intros _.
      destruct (detectCircularDependencies_sound_aux randomUUID (Consistency.stepsOf input)
                  (Consistency.policy input) n) as [?|[x Hx]]; [done|].
      by apply backwardDeps_acyclic in Hx. }
  rewrite whenTarget_quiet by done.
  rewrite whenTarget_quiet by done.
  done.
Qed.

(** X21. A plan built by [buildPlan] passes the dependency checks of the
    consistency checker: when the checker reads plan steps that carry
    the ids and dependencies of the plan's steps, in order, and is given
    no draft and any targets other than goal drift, it returns no issue
    and [pass] is true. *)
Theorem buildPlan_passes_checks (planInput : Plan.BuildPlanInput)
    (records : list Storage.PlanStepRecord) (input : Consistency.ConsistencyCheckInput)
    (targets : list Consistency.CheckTarget) (randomUUID : nat -> text) (n : nat) :
  map (fun r => (Storage.stepId r, Storage.dependsOn r)) records
  = map (fun s => (Plan.stepId s, Plan.stepDependsOn s)) (Plan.steps (Plan.buildPlan planInput)) ->
  Consistency.sessionPlanSteps input = Some records ->
  Consistency.draft input = None ->
  Consistency.checkTargets input = Some targets ->
  Consistency.goal_drift_target ∉ targets ->
  Consistency.runConsistencyCheck randomUUID input n
  = ({| Consistency.issues := [];
        Consistency.summary :=
          {| Consistency.total := 0; Consistency.highSeverity := 0;
             Consistency.pass := true |} |}, n).
Proof.
  intros Hrec Hsteps Hdraft Htargets Hdrift.
  assert (Hback : backwardDeps (Consistency.stepsOf input)).
  { apply (backwardDeps_ext _ (checkedSteps (Plan.buildPlan planInput)));
      [|apply checkedSteps_backward].
    unfold Consistency.stepsOf, checkedSteps. rewrite Hdraft, Hsteps.
    cbn [mbind option_bind]. rewrite !map_map. simpl. exact Hrec. }
  unfold Consistency.runConsistencyCheck, mbind, IdGen_bind.
  rewrite (collectIssues_stored_plan randomUUID input targets n) by done.
  unfold capItems. destruct (_ <? 0)%Z; [reflexivity|]. by rewrite take_nil.
Qed.

Lemma buildPlan_passes_checks_witness :
  Consistency.runConsistencyCheck (fun _ => []) storedPlanCheck 0
  = ({| Consistency.issues := [];
        Consistency.summary :=
          {| Consistency.total := 0; Consistency.highSeverity := 0;
             Consistency.pass := true |} |}, 0).
Proof.
  apply (buildPlan_passes_checks fastestInput
           (planRecords (str "plan_1") (str "session_1") (str "2024-01-01T00:00:00.000Z")
              (Plan.buildPlan fastestInput))
           storedPlanCheck [Consistency.missing_steps; Consistency.circular_deps]).
  - unfold planRecords. by rewrite map_map.
  - reflexivity.
  - reflexivity.
  - reflexivity.
  - intros Hin. apply elem_of_cons in Hin as [Hin|Hin]; [discriminate|].
    apply list_elem_of_singleton in Hin. discriminate.
Defined.

(** ** Critic *)

Lemma buildFindings_categories (scores : Critic.CriticCategory -> Z) (st : Critic.Style)
    (policy : ResponsePolicy) :
  map Critic.category (Critic.buildFindings scores st policy)
  = filter (fun c => (scores c < 75)%Z) Critic.categoryLabels.
Proof.
  unfold Critic.buildFindings. induction Critic.categoryLabels as [|c l IH]; [done|].
  cbn [flat_map]. rewrite map_app, IH, filter_cons.
  destruct (decide (75 <= scores c)%Z), (decide (scores c < 75)%Z); try lia; done.
Qed.

(** X22. The findings of a critic review name categories that scored
    below 7.5, each at most once and in category order; the severity of a
    finding is high for a score of at most 4.5, medium for a score of at
    most 6 and low otherwise; and when the cap [max 4 maxFindings] is at
    least six, every category that scored below 7.5 has a finding. *)
Theorem runCriticReview_findings (input : Critic.CriticInput) :
  let out := Critic.runCriticReview input in
  sublist (map Critic.category (Critic.findings out))
          (filter (fun c => (Critic.scores out c < 75)%Z) Critic.categoryLabels)
  /\ NoDup (map Critic.category (Critic.findings out))
  /\ (forall f, f ∈ Critic.findings out ->
        Critic.severity f
        = if decide (Critic.scores out (Critic.category f) <= 45)%Z then high
          else if decide (Critic.scores out (Critic.category f) <= 60)%Z then medium
          else low)
  /\ ((6 <= maxFindings (Critic.policy input))%Z ->
      map Critic.category (Critic.findings out)
      = filter (fun c => (Critic.scores out c < 75)%Z) Critic.categoryLabels).
Proof.
  cbv zeta. unfold Critic.runCriticReview. cbn [Critic.scores Critic.findings].
  set (scores := Critic.scoresOf (Critic.sourceTextOf input)).
  set (st := default Critic.balancedStyle (Critic.style input)).
  assert (Hsub : sublist
            (map Critic.category
               (capItems (Critic.buildFindings scores st (Critic.policy input))
                  (Z.max 4 (maxFindings (Critic.policy input)))))
            (filter (fun c => (scores c < 75)%Z) Critic.categoryLabels)).
  { rewrite capItems_fmap, buildFindings_categories. unfold capItems.
    destruct (_ <? 0)%Z; [apply sublist_nil_l|apply sublist_take]. }
  split; [exact Hsub|]. split; [|split].
  - eapply sublist_NoDup; [|exact Hsub]. apply NoDup_filter.
    apply (bool_decide_unpack _). vm_compute. exact I.
  - intros f Hf%capItems_elem. unfold Critic.buildFindings in Hf.
    apply list_elem_of_In, in_flat_map in Hf as (c & _ & Hf).
    destruct (decide (75 <= scores c)%Z); [done|].
    destruct Hf as [<-|[]]. reflexivity.
  - intros Hcap. rewrite capItems_fmap, buildFindings_categories. unfold capItems.
    destruct (_ <? 0)%Z eqn:E; [lia|]. apply take_ge.
    etransitivity; [apply length_filter|]. simpl. lia.
Qed.

(** ** Next-action selector *)

Lemma candidateKey_type (a b : NextAction.Candidate) :
  candidateKey a = candidateKey b -> NextAction.type a = NextAction.type b.
Proof.
  unfold candidateKey. destruct (NextAction.type a), (NextAction.type b);
    try reflexivity; intros H; vm_compute in H; discriminate H.
Qed.

Lemma dedupeFrom_id (seen : list text) (l : list NextAction.Candidate) :
  NoDup (map NextAction.type l) ->
  (forall c, c ∈ l -> candidateKey c ∉ seen) ->
  NextAction.dedupeFrom seen l = l.
Proof.
  revert seen. induction l as [|c l IH]; intros seen Hnd Hfresh; [done|].
  cbn [NextAction.dedupeFrom]. fold (candidateKey c).
  apply NoDup_cons in Hnd as [Hc Hnd].
  destruct (decide (candidateKey c ∈ seen)) as [Hin|_].
  { destruct (Hfresh c); [by left|done]. }
  f_equal. apply IH; [done|].
  intros c' Hc' [Heq|Hin]%elem_of_cons.
  - apply Hc. apply candidateKey_type in Heq. rewrite <- Heq.
    apply list_elem_of_fmap. eauto.
  - apply (Hfresh c'); [by right|done].
Qed.

Lemma sublist_whenC (b : bool) (c : NextAction.Candidate) (rest : list NextAction.Candidate)
    (order : list NextAction.ActionType) :
  sublist (map NextAction.type rest) order ->
  sublist (map NextAction.type (NextAction.whenC b c ++ rest)) (NextAction.type c :: order).
Proof.
  intros H. destruct b; simpl; [by apply sublist_skip|by apply sublist_cons].
Qed.

Ltac whenC_step :=
  match goal with
  | |- sublist (map _ (NextAction.whenC ?b ?c ++ ?rest)) (_ :: ?order) =>
      apply (sublist_whenC b c rest order)
  end.

Lemma proposedCandidates_types (input : NextAction.NextActionInput) :
  sublist (map NextAction.type (NextAction.proposedCandidates input)) proposalOrder.
Proof.
  unfold NextAction.proposedCandidates, proposalOrder.
  whenC_step. whenC_step.
  match goal with
  | |- sublist (map _ (?e ++ ?rest)) (_ :: ?order) =>
      assert (Hrest : sublist (map NextAction.type rest) order)
  end.
  { whenC_step. whenC_step. simpl. reflexivity. }
  destruct (head (filter _ _)) as [s1|]; [|destruct (head (filter _ _)) as [s2|]].
  - simpl. by apply sublist_skip.
  - simpl. by apply sublist_skip.
  - simpl. by apply sublist_cons.
Qed.

Lemma proposedCandidates_last (input : NextAction.NextActionInput) :
  exists c, last (NextAction.proposedCandidates input) = Some c
            /\ NextAction.type c = NextAction.run_review
            /\ (65 <= NextAction.score c)%Z.
Proof.
  unfold NextAction.proposedCandidates. rewrite !app_assoc, last_snoc.
  eexists. split; [reflexivity|]. split; [reflexivity|]. simpl.
  destruct (default NextAction.progress (NextAction.preference input)); simpl; lia.
Qed.

Lemma buildCandidates_proposed (input : NextAction.NextActionInput) :
  NextAction.buildCandidates input = NextAction.proposedCandidates input.
Proof.
  unfold NextAction.buildCandidates.
  apply dedupeFrom_id; [|by intros c _ ?%elem_of_nil].
  eapply sublist_NoDup; [|apply proposedCandidates_types].
  apply (bool_decide_unpack _). vm_compute. exact I.
Qed.

(** X23. [buildCandidates] proposes every action type at most once, in a
    fixed order, and always ends with the [run-review] candidate; its
    final deduplication removes nothing. *)
Theorem buildCandidates_distinct (input : NextAction.NextActionInput) :
  sublist (map NextAction.type (NextAction.buildCandidates input)) proposalOrder
  /\ (exists c, last (NextAction.buildCandidates input) = Some c
                /\ NextAction.type c = NextAction.run_review)
  /\ NextAction.buildCandidates input = NextAction.proposedCandidates input.
Proof.
  rewrite buildCandidates_proposed.
  split; [apply proposedCandidates_types|]. split; [|reflexivity].
  destruct (proposedCandidates_last input) as (c & ? & ? & _). eauto.
Qed.

Section BestCandidate.

Variable localeCompare : text -> text -> Z.

Lemma sortBy_head_max_score (l : list NextAction.Candidate) (h : NextAction.Candidate) :
  head (Js.sortBy (NextAction.byScoreThenTitle localeCompare) l) = Some h ->
  forall x, x ∈ l -> (NextAction.score x <= NextAction.score h)%Z.
Proof.
  revert h. induction l as [|y l IH]; intros h Hh x Hx; [by apply elem_of_nil in Hx|].
  rewrite sortBy_cons in Hh.
  pose proof (sortBy_perm (NextAction.byScoreThenTitle localeCompare) l) as Hp.
  destruct (Js.sortBy (NextAction.byScoreThenTitle localeCompare) l) as [|m r] eqn:Es.
  - simpl in Hh. injection Hh as <-. apply Permutation_nil in Hp as ->.
    apply list_elem_of_singleton in Hx as ->. lia.
  - specialize (IH m eq_refl). cbn [Js.insertBy] in Hh.
    destruct (NextAction.byScoreThenTitle localeCompare y m <=? 0)%Z eqn:Ec;
      simpl in Hh; injection Hh as <-.
    + apply Z.leb_le in Ec. unfold NextAction.byScoreThenTitle in Ec.
      assert (Hym : (NextAction.score m <= NextAction.score y)%Z).
      { destruct (decide (NextAction.score m - NextAction.score y <> 0)%Z); lia. }
      apply elem_of_cons in Hx as [->|Hx]; [lia|]. specialize (IH x Hx). lia.
    + apply Z.leb_gt in Ec. unfold NextAction.byScoreThenTitle in Ec.
      assert (Hym : (NextAction.score y <= NextAction.score m)%Z).
      { destruct (decide (NextAction.score m - NextAction.score y <> 0)%Z); lia. }
      apply elem_of_cons in Hx as [->|Hx]; [lia|]. by apply IH.
Qed.

End BestCandidate.

(** X24. Whatever the collation used for ties, the recommendation of
    [selectNextBestAction] is built from a proposed candidate of maximal
    score (at least that of the [run-review] candidate, so the fallback
    candidate is never used); its prerequisites are those of that
    candidate, sanitized and capped. *)
Theorem selectNextBestAction_best (localeCompare : text -> text -> Z)
    (input : NextAction.NextActionInput) :
  let out := NextAction.selectNextBestAction localeCompare input in
  let p := NextAction.policy input in
  exists best,
    best ∈ NextAction.buildCandidates input
    /\ (forall c, c ∈ NextAction.buildCandidates input ->
          (NextAction.score c <= NextAction.score best)%Z)
    /\ (65 <= NextAction.score best)%Z
    /\ NextAction.recommendation out
       = {| NextAction.recType := NextAction.type best;
            NextAction.recTitle := sanitizeText (NextAction.title best) (textMaxChars p);
            NextAction.recReason := sanitizeText (NextAction.reason best) (textMaxChars p);
            NextAction.recTargetStepId := NextAction.targetStepId best |}
    /\ NextAction.prerequisites out
       = capItems (map (fun value => sanitizeText value (textMaxChars p))
                     (NextAction.candidatePrerequisites best))
           (maxGenericItems p).
Proof.
  cbv zeta. unfold NextAction.selectNextBestAction.
  cbn [NextAction.recommendation NextAction.prerequisites].
  rewrite buildCandidates_proposed.
  destruct (proposedCandidates_last input) as (rr & Hlast & _ & Hrr).
  assert (Hin : rr ∈ NextAction.proposedCandidates input).
  { rewrite last_lookup in Hlast. by eapply list_elem_of_lookup_2. }
  destruct (sortBy_head_is_Some (NextAction.byScoreThenTitle localeCompare)
              (NextAction.proposedCandidates input)) as [best Hbest].
  { intros Hnil. rewrite Hnil in Hin. by apply elem_of_nil in Hin. }
  rewrite Hbest. cbn [default from_option id]. exists best.
  pose proof (sortBy_head_max_score localeCompare _ _ Hbest) as Hmax.
  split; [by eapply sortBy_head_elem|]. split; [exact Hmax|].
  split; [specialize (Hmax rr Hin); lia|]. split; reflexivity.
Qed.

(* ===================================================================== *)
(** * Properties of all seven entry points *)
(* ===================================================================== *)

(** ** The identifiers drawn by the entry points *)


Lemma sanitizeText_sanitized (source : text) (maxChars : Z) :
  sanitizedTo maxChars (sanitizeText source maxChars).
Proof. by exists source. Qed.

Lemma capItems_sanitizedTo (l : list text) (maxChars maxItems : Z) :
  withinItems maxItems (capItems (map (fun v => sanitizeText v maxChars) l) maxItems)
  /\ Forall (sanitizedTo maxChars)
       (capItems (map (fun v => sanitizeText v maxChars) l) maxItems).
Proof.
  split; [apply capItems_length|]. apply Forall_forall. intros x Hx%capItems_elem.
  apply list_elem_of_fmap in Hx as (v & -> & _). apply sanitizeText_sanitized.
Qed.

Lemma numberIssues_app (randomUUID : nat -> text) (n : nat)
    (s1 s2 : list Consistency.ConsistencyIssue) :
  numberIssues randomUUID n (s1 ++ s2)
  = numberIssues randomUUID n s1 ++ numberIssues randomUUID (n + length s1) s2.
Proof.
  unfold numberIssues. rewrite imap_app. f_equal. apply imap_ext.
  intros k s _. cbv beta. by rewrite Nat.add_assoc.
Qed.


Lemma numberIssues_blank (randomUUID : nat -> text) (n : nat)
    (shapes : list Consistency.ConsistencyIssue) :
  map withoutIssueId (numberIssues randomUUID n shapes) = map withoutIssueId shapes.
Proof.
  apply list_eq. intros k. unfold numberIssues.
  rewrite !list_lookup_fmap, list_lookup_imap. by destruct (shapes !! k).
Qed.

Lemma makeIssue_run (type : Consistency.ConsistencyIssueType) (severity : Level)
    (description : text) (affectedItems : list text) (suggestedFix : text)
    (policy : ResponsePolicy) :
  exists shape,
    issueWithin policy shape
    /\ forall randomUUID n,
         Consistency.makeIssue randomUUID type severity description affectedItems
           suggestedFix policy n
         = (withIssueId (str "issue_" ++ randomUUID n) shape, S n).
Proof.
  exists {| Consistency.issueId := [];
            Consistency.issueType := type;
            Consistency.severity := severity;
            Consistency.description := sanitizeText description (textMaxChars policy);
            Consistency.affectedItems :=
              capItems (map (fun item => sanitizeText item (textMaxChars policy)) affectedItems)
                (maxGenericItems policy);
            Consistency.suggestedFix := sanitizeText suggestedFix (textMaxChars policy) |}.
  split; [|reflexivity]. unfold issueWithin. simpl.
  split; [apply sanitizeText_sanitized|]. split; [apply sanitizeText_sanitized|].
  apply capItems_sanitizedTo.
Qed.

Lemma Numbered_ext (p : ResponsePolicy)
    (m m' : (nat -> text) -> IdGen (list Consistency.ConsistencyIssue)) :
  (forall randomUUID n, m randomUUID n = m' randomUUID n) -> Numbered p m -> Numbered p m'.
Proof.
  intros He (shapes & Hp & H). exists shapes. split; [done|]. intros r n. by rewrite <- He.
Qed.

Lemma Numbered_nil (p : ResponsePolicy) : Numbered p (fun _ => mret []).
Proof.
  exists []. split; [constructor|]. intros r n. unfold mret, IdGen_ret. simpl. f_equal. lia.
Qed.

Lemma Numbered_one (p : ResponsePolicy)
    (f : (nat -> text) -> IdGen Consistency.ConsistencyIssue) :
  (exists shape,
      issueWithin p shape
      /\ forall randomUUID n,
           f randomUUID n = (withIssueId (str "issue_" ++ randomUUID n) shape, S n)) ->
  Numbered p (fun randomUUID => i ← f randomUUID; mret [i]).
Proof.
  intros (shape & Hp & H). exists [shape]. split; [by apply Forall_singleton|]. intros r n.
  unfold mbind, IdGen_bind, mret, IdGen_ret. rewrite H.
  unfold numberIssues. cbn [imap length]. rewrite Nat.add_0_r. f_equal. lia.
Qed.

Lemma Numbered_app (p : ResponsePolicy)
    (m1 m2 : (nat -> text) -> IdGen (list Consistency.ConsistencyIssue)) :
  Numbered p m1 -> Numbered p m2 ->
  Numbered p (fun randomUUID => l1 ← m1 randomUUID; l2 ← m2 randomUUID; mret (l1 ++ l2)).
Proof.
  intros (s1 & P1 & H1) (s2 & P2 & H2). exists (s1 ++ s2).
  split; [by apply Forall_app|]. intros r n.
  unfold mbind, IdGen_bind, mret, IdGen_ret. rewrite H1, H2, numberIssues_app, length_app.
  f_equal. lia.
Qed.

Lemma Numbered_app3 (p : ResponsePolicy)
    (m1 m2 m3 : (nat -> text) -> IdGen (list Consistency.ConsistencyIssue)) :
  Numbered p m1 -> Numbered p m2 -> Numbered p m3 ->
  Numbered p (fun randomUUID =>
              l1 ← m1 randomUUID; l2 ← m2 randomUUID; l3 ← m3 randomUUID;
              mret (l1 ++ l2 ++ l3)).
Proof.
  intros (s1 & P1 & H1) (s2 & P2 & H2) (s3 & P3 & H3). exists (s1 ++ s2 ++ s3).
  split; [by repeat apply Forall_app_2|]. intros r n.
  unfold mbind, IdGen_bind, mret, IdGen_ret.
  rewrite H1, H2, H3, !numberIssues_app, !length_app. f_equal. lia.
Qed.

Lemma Numbered_app5 (p : ResponsePolicy)
    (m1 m2 m3 m4 m5 : (nat -> text) -> IdGen (list Consistency.ConsistencyIssue)) :
  Numbered p m1 -> Numbered p m2 -> Numbered p m3 -> Numbered p m4 -> Numbered p m5 ->
  Numbered p (fun randomUUID =>
              l1 ← m1 randomUUID; l2 ← m2 randomUUID; l3 ← m3 randomUUID;
              l4 ← m4 randomUUID; l5 ← m5 randomUUID;
              mret (l1 ++ l2 ++ l3 ++ l4 ++ l5)).
Proof.
  intros (s1 & P1 & H1) (s2 & P2 & H2) (s3 & P3 & H3) (s4 & P4 & H4) (s5 & P5 & H5).
  exists (s1 ++ s2 ++ s3 ++ s4 ++ s5).
  split; [by repeat apply Forall_app_2|]. intros r n.
  unfold mbind, IdGen_bind, mret, IdGen_ret.
  rewrite H1, H2, H3, H4, H5, !numberIssues_app, !length_app. f_equal. lia.
Qed.

Lemma Numbered_mapGen {A} (p : ResponsePolicy)
    (f : (nat -> text) -> A -> IdGen Consistency.ConsistencyIssue) (xs : list A) :
  (forall x, exists shape,
      issueWithin p shape
      /\ forall randomUUID n,
           f randomUUID x n = (withIssueId (str "issue_" ++ randomUUID n) shape, S n)) ->
  Numbered p (fun randomUUID => mapGen (f randomUUID) xs).
Proof.
  intros Hf. induction xs as [|x xs IH].
  - apply Numbered_nil.
  - destruct (Hf x) as (shape & Hp & Hx). destruct IH as (shapes & Hps & IH).
    exists (shape :: shapes). split; [by constructor|]. intros r n. cbn [mapGen].
    unfold mbind, IdGen_bind, mret, IdGen_ret. rewrite Hx, IH.
    unfold numberIssues. cbn [imap length]. rewrite Nat.add_0_r. f_equal; [|lia].
    f_equal. apply imap_ext. intros k s _. unfold compose.
    by replace (S n + k) with (n + S k) by lia.
Qed.

Lemma Numbered_whenTarget (targets : list Consistency.CheckTarget)
    (t : Consistency.CheckTarget)
    (p : ResponsePolicy)
    (check : (nat -> text) -> IdGen (list Consistency.ConsistencyIssue)) :
  Numbered p check ->
  Numbered p (fun randomUUID => Consistency.whenTarget targets t (check randomUUID)).
Proof.
  intros H. unfold Consistency.whenTarget.
  destruct (decide (t ∈ targets)); [exact H|apply Numbered_nil].
Qed.

Lemma detectContradictions_numbered (claims conclusions : list text)
    (policy : ResponsePolicy) :
  Numbered policy (fun randomUUID =>
              Consistency.detectContradictions randomUUID claims conclusions policy).
Proof.
  unfold Consistency.detectContradictions.
  apply (Numbered_mapGen policy
           (fun randomUUID ab =>
              Consistency.makeIssue randomUUID Consistency.contradiction high
                (str "Potential contradiction detected between claim and conclusion.")
                [fst ab; snd ab]
                (str "Align conclusion with supporting claim or add missing evidence.")
                policy)).
  intros ab. apply makeIssue_run.
Qed.

Lemma detectMissingSteps_numbered (steps : list Consistency.Step) (planText : text)
    (conclusions : list text) (policy : ResponsePolicy) :
  Numbered policy (fun randomUUID =>
              Consistency.detectMissingSteps randomUUID steps planText conclusions policy).
Proof.
  unfold Consistency.detectMissingSteps.
  destruct (decide (0 < length conclusions /\ length steps = 0)).
  { apply (Numbered_one policy (fun randomUUID => Consistency.makeIssue randomUUID _ _ _ _ _ _)).
    apply makeIssue_run. }
  match goal with
  | |- Numbered _ (fun r => _ ← mapGen (@?f r) ?xs; _) =>
      assert (Hfound : Numbered policy (fun r => mapGen (f r) xs))
  end.
  { apply (Numbered_mapGen policy
             (fun randomUUID (broken : Consistency.Step * text * Level) =>
                let '(step, depId, sev) := broken in
                match sev with
                | high => Consistency.makeIssue randomUUID _ _ _ _ _ _
                | _ => Consistency.makeIssue randomUUID _ _ _ _ _ _
                end)).
    intros [[step depId] sev]. destruct sev; apply makeIssue_run. }
  destruct (_ && _).
  - eapply Numbered_ext;
      [|apply (Numbered_app _ _ _ Hfound
                 (Numbered_one policy (fun randomUUID => Consistency.makeIssue randomUUID _ _ _ _ _ _)
                    (makeIssue_run Consistency.missing_step medium
                       (str "Plan text references deployment but no deployment step was found.")
                       [planText]
                       (str "Add a deployment or rollout step with verification.")
                       policy)))].
    intros r m. unfold mbind, IdGen_bind, mret, IdGen_ret.
    destruct (mapGen _ _ m) as [l1 n1]. by destruct (Consistency.makeIssue _ _ _ _ _ _ _ n1).
  - eapply Numbered_ext; [|exact Hfound].
    intros r m. unfold mbind, IdGen_bind, mret, IdGen_ret.
    by destruct (mapGen _ _ m).
Qed.

Lemma detectUnsupportedClaims_numbered (claims conclusions : list text)
    (assumptions : option (list Storage.AssumptionRecord))
    (decisionLogs : option (list Storage.DecisionLogRecord)) (policy : ResponsePolicy) :
  Numbered policy (fun randomUUID =>
              Consistency.detectUnsupportedClaims randomUUID claims conclusions assumptions
                decisionLogs policy).
Proof.
  unfold Consistency.detectUnsupportedClaims.
  match goal with
  | |- Numbered _ (fun r => first ← @?a r; second ← @?b r; third ← @?c r; _) =>
      assert (Ha : Numbered policy a);
        [|assert (Hb : Numbered policy b); [|assert (Hc : Numbered policy c)]]
  end.
  - destruct (decide (length claims = 0 /\ _)); [|apply Numbered_nil].
    apply (Numbered_one policy (fun randomUUID => Consistency.makeIssue randomUUID _ _ _ _ _ _)).
    apply makeIssue_run.
  - clear Ha. cbv zeta. destruct (decide (0 < length conclusions /\ _)); [|apply Numbered_nil].
    apply (Numbered_one policy (fun randomUUID => Consistency.makeIssue randomUUID _ _ _ _ _ _)).
    apply makeIssue_run.
  - apply (Numbered_mapGen policy
             (fun randomUUID claim => Consistency.makeIssue randomUUID _ _ _ _ _ _)).
    intros claim. apply makeIssue_run.
  - exact (Numbered_app3 _ _ _ _ Ha Hb Hc).
Qed.

Lemma detectGoalDrift_numbered (normalizedGoal : option text)
    (claims conclusions stepTexts : list text) (planText : text) (policy : ResponsePolicy) :
  Numbered policy (fun randomUUID =>
              Consistency.detectGoalDrift randomUUID normalizedGoal claims conclusions
                stepTexts planText policy).
Proof.
  unfold Consistency.detectGoalDrift.
  destruct (negb _); [apply Numbered_nil|]. cbv zeta.
  destruct (decide (length _ = 0)); [apply Numbered_nil|].
  destruct (decide (_ <= _)); [apply Numbered_nil|].
  apply (Numbered_one policy (fun randomUUID => Consistency.makeIssue randomUUID _ _ _ _ _ _)).
  apply makeIssue_run.
Qed.

Lemma issueWithin_withIssueId (p : ResponsePolicy) (i : text)
    (s : Consistency.ConsistencyIssue) :
  issueWithin p s -> issueWithin p (withIssueId i s).
Proof. done. Qed.

Section CycleIdentifiers.

Variable randomUUID : nat -> text.
Variable n0 : nat.
Variable edges : gmap text (list text).
Variable policy : ResponsePolicy.

Lemma dfsDeps_same (v v' : text -> Consistency.DfsState -> option Consistency.DfsState)
    (deps : list text) :
  (forall d st ref, sameTraversal policy randomUUID n0 st ref ->
     sameOutcome policy randomUUID n0 (v d st) (v' d ref)) ->
  forall st ref, sameTraversal policy randomUUID n0 st ref ->
    sameOutcome policy randomUUID n0 (Consistency.dfsDeps edges v deps st)
      (Consistency.dfsDeps edges v' deps ref).
Proof.
  intros Hv. induction deps as [|d deps IH]; intros st ref Hs; simpl; [exact Hs|].
  destruct (decide (is_Some (edges !! d))); [|by apply IH].
  specialize (Hv d st ref Hs).
  destruct (v d st) as [st1|], (v' d ref) as [ref1|]; try done. by apply IH.
Qed.

Lemma dfs_same (fuel : nat) : forall (node : text) (st ref : Consistency.DfsState),
  sameTraversal policy randomUUID n0 st ref ->
  sameOutcome policy randomUUID n0 (Consistency.dfs randomUUID edges policy fuel node st)
    (Consistency.dfs noIds edges policy fuel node ref).
Proof.
  induction fuel as [|fuel IH]; intros node st ref Hs; [done|].
  destruct st as [V S F D], ref as [V' S' F' D'].
  destruct Hs as (HP & HV & HS & HF & HD). simpl in HP, HV, HS, HF, HD. subst V' S' F D.
  cbn [Consistency.dfs Consistency.stack Consistency.visited Consistency.found
       Consistency.drawn].
  destruct (decide (node ∈ S)).
  - destruct (makeIssue_run Consistency.circular_dependency high
                (str "Circular dependency detected at '" ++ node ++ str "'.") [node]
                (str "Remove cycle by introducing linear dependency progression.") policy)
      as (shape & Hp & Hm).
    rewrite !Hm. split; [|repeat split]; cbn [Consistency.found Consistency.drawn].
    + apply Forall_app. split; [done|]. apply Forall_singleton.
      by apply issueWithin_withIssueId.
    + rewrite map_app, numberIssues_app, length_map. f_equal.
      unfold numberIssues. cbn [map imap]. by rewrite Nat.add_0_r.
    + rewrite length_app. simpl. lia.
  - destruct (decide (node ∈ V)); [by repeat split|].
    match goal with
    | |- sameOutcome _ _ _
           match Consistency.dfsDeps _ _ ?deps ?a with _ => _ end
           match Consistency.dfsDeps _ _ _ ?b with _ => _ end =>
        pose proof (dfsDeps_same (Consistency.dfs randomUUID edges policy fuel)
                      (Consistency.dfs noIds edges policy fuel) deps IH a b) as Hd
    end.
    destruct (Consistency.dfsDeps _ _ _ _) as [[V2 S2 F2 D2]|],
             (Consistency.dfsDeps _ _ _ _) as [[V2' S2' F2' D2']|].
    + destruct Hd as (HP2 & HV & HS & HF & HD); [by repeat split|].
      simpl in HP2, HV, HS, HF, HD. subst. by repeat split.
    + by apply Hd.
    + by apply Hd.
    + done.
Qed.

Lemma dfsAll_same (fuel : nat) (steps : list Consistency.Step) :
  forall st ref, sameTraversal policy randomUUID n0 st ref ->
    sameOutcome policy randomUUID n0 (Consistency.dfsAll randomUUID edges policy fuel steps st)
      (Consistency.dfsAll noIds edges policy fuel steps ref).
Proof.
  induction steps as [|s rest IH]; intros st ref Hs; simpl; [exact Hs|].
  pose proof (dfs_same fuel (Consistency.id s) st ref Hs) as Hd.
  destruct (Consistency.dfs randomUUID _ _ _ _ _) as [st1|],
           (Consistency.dfs noIds _ _ _ _ _) as [ref1|]; try done. by apply IH.
Qed.

End CycleIdentifiers.

Lemma detectCircularDependencies_numbered (steps : list Consistency.Step)
    (policy : ResponsePolicy) :
  Numbered policy (fun randomUUID =>
              Consistency.detectCircularDependencies randomUUID steps policy).
Proof.
  unfold Numbered, Consistency.detectCircularDependencies,
    Consistency.detectCircularDependenciesFuel.
  assert (Hinit : forall r n,
            sameTraversal policy r n
              {| Consistency.visited := ∅; Consistency.stack := ∅;
                 Consistency.found := []; Consistency.drawn := n |}
              {| Consistency.visited := ∅; Consistency.stack := ∅;
                 Consistency.found := []; Consistency.drawn := 0 |}).
  { intros r n. split; [constructor|]. repeat split. simpl. lia. }
  pose proof (fun r n =>
                dfsAll_same r n (Consistency.edgesOf steps) policy (S (length steps)) steps
                  _ _ (Hinit r n)) as Hd.
  destruct (Consistency.dfsAll noIds _ _ _ _ _) as [[V' S' F' D']|].
  - exists (map withoutIssueId F'). split.
    + specialize (Hd noIds 0). destruct (Consistency.dfsAll noIds _ _ _ _ _); [|done].
      destruct Hd as [HP _]. simpl in HP. apply Forall_fmap.
      eapply Forall_impl; [exact HP|]. intros i Hi. by apply issueWithin_withIssueId.
    + intros r n. specialize (Hd r n).
      destruct (Consistency.dfsAll r _ _ _ _ _) as [[V S F D]|]; [|done].
      destruct Hd as (_ & _ & _ & HF & HD). simpl in HF, HD.
      cbn [fmap option_fmap option_map default from_option id fst].
      cbn [Consistency.found Consistency.drawn]. by rewrite HF, HD, length_map.
  - exists []. split; [constructor|]. intros r n. specialize (Hd r n).
    destruct (Consistency.dfsAll r _ _ _ _ _); [done|]. simpl. f_equal. lia.
Qed.

Lemma collectIssues_numbered (input : Consistency.ConsistencyCheckInput) :
  Numbered (Consistency.policy input)
    (fun randomUUID => Consistency.collectIssues randomUUID input).
Proof.
  unfold Consistency.collectIssues. cbv zeta.
  apply (Numbered_app5 (Consistency.policy input)
           (fun randomUUID => Consistency.whenTarget _ _ _)
           (fun randomUUID => Consistency.whenTarget _ _ _)
           (fun randomUUID => Consistency.whenTarget _ _ _)
           (fun randomUUID => Consistency.whenTarget _ _ _)
           (fun randomUUID => Consistency.whenTarget _ _ _)).
  - apply (Numbered_whenTarget _ _ _ (fun randomUUID => Consistency.detectContradictions _ _ _ _)).
    apply detectContradictions_numbered.
  - apply (Numbered_whenTarget _ _ _ (fun randomUUID => Consistency.detectMissingSteps _ _ _ _ _)).
    apply detectMissingSteps_numbered.
  - apply (Numbered_whenTarget _ _ _
             (fun randomUUID => Consistency.detectCircularDependencies _ _ _)).
    apply detectCircularDependencies_numbered.
  - apply (Numbered_whenTarget _ _ _
             (fun randomUUID => Consistency.detectUnsupportedClaims _ _ _ _ _ _)).
    apply detectUnsupportedClaims_numbered.
  - apply (Numbered_whenTarget _ _ _
             (fun randomUUID => Consistency.detectGoalDrift _ _ _ _ _ _ _)).
    apply detectGoalDrift_numbered.
Qed.

Lemma capItems_imap {A B} (f : nat -> A -> B) (l : list A) (m : Z) :
  capItems (imap f l) m = imap f (capItems l m).
Proof.
  unfold capItems. destruct (m <? 0)%Z; [done|]. apply list_eq. intros k.
  rewrite list_lookup_imap. destruct (decide (k < Z.to_nat m)).
  - by rewrite !lookup_take_lt, list_lookup_imap by done.
  - by rewrite !lookup_take_ge by lia.
Qed.

Lemma summarize_blank (l : list Consistency.ConsistencyIssue) :
  Consistency.summarize (map withoutIssueId l) = Consistency.summarize l.
Proof.
  unfold Consistency.summarize. rewrite length_map. f_equal.
  induction l as [|i l IH]; [done|]. cbn [map]. rewrite !filter_cons.
  change (Consistency.severity (withoutIssueId i)) with (Consistency.severity i).
  destruct (decide (Consistency.severity i = high)); simpl; by rewrite IH.
Qed.

Lemma runConsistencyCheck_numbered (input : Consistency.ConsistencyCheckInput) :
  exists shapes,
    (withinItems (maxFindings (Consistency.policy input)) shapes
     /\ Forall (issueWithin (Consistency.policy input)) shapes)
    /\ forall randomUUID n,
         fst (Consistency.runConsistencyCheck randomUUID input n)
         = {| Consistency.issues := numberIssues randomUUID n shapes;
              Consistency.summary := Consistency.summarize shapes |}.
Proof.
  destruct (collectIssues_numbered input) as (shapes & Hp & H).
  exists (capItems shapes (maxFindings (Consistency.policy input))).
  split.
  { split; [apply capItems_length|]. apply Forall_forall. intros i Hi%capItems_elem.
    revert i Hi. by apply Forall_forall. }
  intros r n.
  unfold Consistency.runConsistencyCheck, mbind, IdGen_bind. rewrite H.
  unfold mret, IdGen_ret. cbn [fst]. unfold numberIssues at 1 2.
  rewrite capItems_imap. fold (numberIssues r n (capItems shapes (maxFindings (Consistency.policy input)))).
  f_equal. rewrite <- (summarize_blank (numberIssues _ _ _)), numberIssues_blank.
  apply summarize_blank.
Qed.

Lemma risks_numbered (randomUUID randomUUID' : nat -> text) (n n' : nat) (keys : list text)
    (policy : ResponsePolicy) :
  let risksOn := fun (r : nat -> text) (m : nat) =>
    capItems
      (imap (fun k value =>
               {| Analyze.riskId := str "risk" ++ str "_" ++ r (m + k);
                  Analyze.riskText :=
                    sanitizeText (default [] (Js.splitOn Analyze.isBar value !! 1))
                      (textMaxChars policy);
                  Analyze.severity :=
                    Analyze.levelOfText (default [] (Js.splitOn Analyze.isBar value !! 0)) |})
            keys)
      (maxRisks policy) in
  (forall k, k < length (risksOn randomUUID n) -> randomUUID (n + k) = randomUUID' (n' + k)) ->
  risksOn randomUUID n = risksOn randomUUID' n'.
Proof.
  cbv zeta beta. rewrite !capItems_imap, length_imap. intros H. apply imap_ext.
  intros k value Hk. apply lookup_lt_Some in Hk. by rewrite (H k Hk).
Qed.

Lemma issues_by_ids (l l' : list Consistency.ConsistencyIssue) :
  map withoutIssueId l = map withoutIssueId l' ->
  map Consistency.issueId l = map Consistency.issueId l' ->
  l = l'.
Proof.
  intros Hb Hi. apply list_eq. intros k.
  apply (f_equal (fun x => x !! k)) in Hb. apply (f_equal (fun x => x !! k)) in Hi.
  rewrite !list_lookup_fmap in Hb. rewrite !list_lookup_fmap in Hi.
  destruct (l !! k) as [[]|], (l' !! k) as [[]|]; simpl in *; try done.
  unfold withoutIssueId, withIssueId in Hb. simpl in Hb. congruence.
Qed.

Lemma risks_by_ids (l l' : list Analyze.Risk) :
  map (fun r => (Analyze.riskText r, Analyze.severity r)) l
  = map (fun r => (Analyze.riskText r, Analyze.severity r)) l' ->
  map Analyze.riskId l = map Analyze.riskId l' ->
  l = l'.
Proof.
  intros Hb Hi. apply list_eq. intros k.
  apply (f_equal (fun x => x !! k)) in Hb. apply (f_equal (fun x => x !! k)) in Hi.
  rewrite !list_lookup_fmap in Hb. rewrite !list_lookup_fmap in Hi.
  destruct (l !! k) as [[]|], (l' !! k) as [[]|]; simpl in *; congruence.
Qed.

Lemma analysis_by_ids (o o' : Analyze.AnalyzeTaskOutput) :
  withoutRiskIds o = withoutRiskIds o' ->
  map Analyze.riskId (Analyze.risks o) = map Analyze.riskId (Analyze.risks o') ->
  o = o'.
Proof.
  destruct o, o'. unfold withoutRiskIds. simpl. intros Hw Hi.
  injection Hw as -> -> -> -> -> -> Hr -> -> ->. f_equal. apply risks_by_ids; [|done].
  apply list_eq. intros k. apply (f_equal (fun x => x !! k)) in Hr.
  rewrite !list_lookup_fmap in Hr. rewrite !list_lookup_fmap.
  destruct (risks !! k) as [[]|], (risks0 !! k) as [[]|]; simpl in *; congruence.
Qed.

(** C7. The engine's only source of randomness is the identifier drawn
    by [newId]; of the seven entry points only [analyzeTask] (one
    identifier per risk) and [runConsistencyCheck] (one per issue) draw
    identifiers.  For each entry point and input, and for any two
    streams of identifiers read from any two positions, the two results
    are the same once the generated identifiers are blanked, so no
    branch taken and no order of an output depends on an identifier;
    when the two results carry the same identifiers they are identical;
    and the [k]-th identifier of a result is the [k]-th identifier drawn,
    prefixed with [risk_] or [issue_]. *)
Theorem entryPoints_deterministic (localeCompare : text -> text -> Z) (e : EntryPoint)
    (randomUUID randomUUID' : nat -> text) (n n' : nat) :
  let r := fst (call randomUUID localeCompare e n) in
  let r' := fst (call randomUUID' localeCompare e n') in
  withoutIds r = withoutIds r'
  /\ (idsOf r = idsOf r' -> r = r')
  /\ (forall k i, idsOf r !! k = Some i ->
        i = str "risk_" ++ randomUUID (n + k) \/ i = str "issue_" ++ randomUUID (n + k)).
Proof.
  cbv zeta. destruct e as [input|input|input|input|input|input|input];
    try (split; [reflexivity|]; split; [reflexivity|]; by intros k i ?).
  - (* analyzeTask *)
    assert (Hcall : forall r m,
              fst (call r localeCompare (AnalyzeTask input) m)
              = Analysis (fst (Analyze.analyzeTask r input m))).
    { intros r m. unfold call, mbind, IdGen_bind.
      by destruct (Analyze.analyzeTask r input m). }
    rewrite !Hcall. cbn [withoutIds idsOf].
    destruct (analyzeTask_risks randomUUID n input) as [Hr _].
    destruct (analyzeTask_risks randomUUID' n' input) as [Hr' _].
    rewrite extractRisks_run in Hr, Hr'. cbn [fst] in Hr, Hr'.
    assert (Hsame : withoutRiskIds (fst (Analyze.analyzeTask randomUUID input n))
                    = withoutRiskIds (fst (Analyze.analyzeTask randomUUID' input n'))).
    { apply withoutRiskIds_eq;
        try (unfold Analyze.analyzeTask, mbind, IdGen_bind;
             destruct (Analyze.extractRisks randomUUID _ _ _ _ _ _);
             destruct (Analyze.extractRisks randomUUID' _ _ _ _ _ _); reflexivity).
      rewrite Hr, Hr'. apply risksView. }
    split; [by rewrite Hsame|]. split.
    + intros Hids. f_equal. by apply analysis_by_ids.
    + rewrite Hr. intros k i Hk. left. rewrite list_lookup_fmap in Hk.
      destruct (capItems _ _ !! k) as [x|] eqn:Ex; [|done]. simpl in Hk. injection Hk as <-.
      apply capItems_lookup in Ex. rewrite list_lookup_imap in Ex.
      destruct (pickUniqueStrings _ !! k); [|done].
      cbv [fmap option_fmap option_map] in Ex. by injection Ex as <-.
  - (* runConsistencyCheck *)
    assert (Hcall : forall r m,
              fst (call r localeCompare (RunConsistencyCheck input) m)
              = ConsistencyCheck (fst (Consistency.runConsistencyCheck r input m))).
    { intros r m. unfold call, mbind, IdGen_bind.
      by destruct (Consistency.runConsistencyCheck r input m). }
    rewrite !Hcall. cbn [withoutIds idsOf].
    destruct (runConsistencyCheck_numbered input) as (shapes & _ & Hrun).
    rewrite !Hrun. unfold withoutIssueIds. cbn [Consistency.issues Consistency.summary].
    split; [by rewrite !numberIssues_blank|]. split.
    + intros Hids. do 2 f_equal. apply issues_by_ids; [|done].
      by rewrite !numberIssues_blank.
    + intros k i Hk. right. unfold numberIssues in Hk.
      rewrite list_lookup_fmap, list_lookup_imap in Hk.
      destruct (shapes !! k); [|done]. by injection Hk as <-.
Qed.

(** ** The response policy and the results of the entry points *)




















